(** * Automations: storage, run manager and trigger registry

    A shallow embedding of the automations subsystem:
    - [types.ts]    the data model (trigger and action configuration, automations, runs);
    - [storage.ts]  JSON-file persistence of automations and run records;
    - [automation-manager.ts]  the run manager ([AutomationManager]);
    - [triggers.ts] the trigger registry ([TriggerRegistry]).

    Files are finite maps from paths to parsed contents, the in-memory
    [Map]s of the manager and of the registry are insertion-ordered
    association lists, and every [async] method is cut at its [await]s into
    the synchronous segments the event loop runs one at a time. *)

From Stdlib Require Import ZArith.
From stdpp Require Import gmap strings list fin_maps pretty sorting.

Open Scope string_scope.
Open Scope list_scope.

(** ** JavaScript [Map]: insertion-ordered, one entry per key *)

Module JsMap.
Section JsMap.
Context {V : Type}.

Definition t := list (string * V).

Definition empty : t := [].

Fixpoint get (k : string) (m : t) : option V :=
  match m with
  | [] => None
  | (k', v) :: m' => if String.eqb k' k then Some v else get k m'
  end.

Definition has (k : string) (m : t) : bool :=
  match get k m with Some _ => true | None => false end.

(** [Map.prototype.set]: an existing key keeps its position, a new key
    goes last. *)
Fixpoint set (k : string) (v : V) (m : t) : t :=
  match m with
  | [] => [(k, v)]
  | (k', v') :: m' =>
      if String.eqb k' k then (k, v) :: m' else (k', v') :: set k v m'
  end.

Fixpoint delete (k : string) (m : t) : t :=
  match m with
  | [] => []
  | (k', v') :: m' =>
      if String.eqb k' k then m' else (k', v') :: delete k m'
  end.

Definition size (m : t) : nat := length m.

Definition keys (m : t) : list string := m.*1.

(** The representation invariant of a [Map]: keys are pairwise distinct. *)
Definition wf (m : t) : Prop := NoDup (keys m).

End JsMap.
Arguments t : clear implicits.
End JsMap.

(** ** Data model ([types.ts]) *)

Inductive TriggerType :=
  | schedule | file_change | hotkey | webhook | deep_link
  | app_event | power_event | clipboard | folder_action | manual.

Record ScheduleTriggerConfig := {
  sc_cron : option string;
  sc_rrule : option string;
  sc_timezone : option string }.

Record FileChangeTriggerConfig := {
  fc_paths : list string;
  fc_patterns : option (list string);
  fc_events : list string;
  fc_debounceMs : option Z }.

Record HotkeyTriggerConfig := { hk_accelerator : string }.

Record WebhookTriggerConfig := {
  wh_path : option string;
  wh_secret : option string }.

Record AppEventTriggerConfig := { ae_events : list string }.

Record PowerEventTriggerConfig := { pe_events : list string }.

Record ClipboardTriggerConfig := {
  cb_pattern : option string;
  cb_pollIntervalMs : option Z }.

Record FolderActionTriggerConfig := {
  fa_folderPath : string;
  fa_extensions : option (list string);
  fa_namePattern : option string;
  fa_minSize : option Z;
  fa_maxSize : option Z;
  fa_doneFolder : option string }.

(** The discriminated union: the constructor is the [type] tag. *)
Inductive TriggerConfig :=
  | TSchedule (c : ScheduleTriggerConfig)
  | TFileChange (c : FileChangeTriggerConfig)
  | THotkey (c : HotkeyTriggerConfig)
  | TWebhook (c : WebhookTriggerConfig)
  | TDeepLink
  | TAppEvent (c : AppEventTriggerConfig)
  | TPowerEvent (c : PowerEventTriggerConfig)
  | TClipboard (c : ClipboardTriggerConfig)
  | TFolderAction (c : FolderActionTriggerConfig)
  | TManual.

Inductive PermissionMode := safe | ask | allow_all.

Record ActionConfig := {
  ac_model : option string;
  ac_permissionMode : option PermissionMode;
  ac_maxTurns : option Z;
  ac_timeoutSeconds : option Z;
  ac_sourceSlugs : option (list string);
  ac_skillSlugs : option (list string);
  ac_workingDirectory : option string }.

Inductive AutomationRunStatus := pending | running | success | failure | cancelled.

Inductive LastStatus := last_success | last_failure | last_running.

(** [AutomationLastStatus] is [LastStatus | null]. *)
Definition AutomationLastStatus := option LastStatus.

Record Automation := {
  a_id : string;
  a_name : string;
  a_prompt : string;
  a_triggerConfig : TriggerConfig;
  a_actionConfig : ActionConfig;
  a_enabled : bool;
  a_lastRunAt : option string;
  a_nextRunAt : option string;
  a_createdAt : string;
  a_updatedAt : string;
  a_workspaceId : string;
  a_runCount : Z;
  a_lastStatus : AutomationLastStatus }.

(** JSON values, for the free-form trigger context. *)
#[local] Unset Elimination Schemes.
Inductive Json :=
  | JNull
  | JStr (s : string)
  | JArr (l : list Json)
  | JObj (fields : list (string * Json)).
#[local] Set Elimination Schemes.

Definition TriggerContext := list (string * Json).

Record AutomationRun := {
  r_id : string;
  r_automationId : string;
  r_status : AutomationRunStatus;
  r_startedAt : string;
  r_completedAt : option string;
  r_sessionId : option string;
  r_summary : option string;
  r_error : option string;
  r_triggeredBy : TriggerType;
  r_triggerContext : option TriggerContext }.

Global Instance AutomationRunStatus_eq_dec : EqDecision AutomationRunStatus.
Proof. solve_decision. Defined.

(** ** Storage ([storage.ts])

    [configFiles] maps a workspace root to the parsed array of
    [automations/config.json]; [runFiles] maps a workspace root and a run id
    to the parsed content of [automations/runs/{runId}.json].  A missing or
    unparseable file is an absent key. *)

Record Storage := {
  configFiles : gmap string (list Automation);
  runFiles : gmap (string * string) AutomationRun }.

Definition loadAutomations (workspaceRoot : string) (st : Storage) : list Automation :=
  default [] (configFiles st !! workspaceRoot).

Definition saveAutomations (workspaceRoot : string) (automations : list Automation)
    (st : Storage) : Storage :=
  {| configFiles := <[workspaceRoot := automations]> (configFiles st);
     runFiles := runFiles st |}.

(** [automations.findIndex(a => a.id === automationId)], with the element. *)
Definition findAutomation (automationId : string) (automations : list Automation)
    : option (nat * Automation) :=
  list_find (λ a, a_id a = automationId) automations.

Definition getAutomation (workspaceRoot automationId : string) (st : Storage)
    : option Automation :=
  snd <$> findAutomation automationId (loadAutomations workspaceRoot st).

Definition saveRun (workspaceRoot : string) (run : AutomationRun) (st : Storage) : Storage :=
  {| configFiles := configFiles st;
     runFiles := <[(workspaceRoot, r_id run) := run]> (runFiles st) |}.

Definition getRun (workspaceRoot runId : string) (st : Storage) : option AutomationRun :=
  runFiles st !! (workspaceRoot, runId).

(** [createRun]; [id] is what [generateId()] returned and [now] what
    [new Date().toISOString()] returned. *)
Definition createRun (workspaceRoot automationId : string) (triggeredBy : TriggerType)
    (triggerContext : option TriggerContext) (id now : string) (st : Storage)
    : AutomationRun * Storage :=
  let run := {| r_id := id; r_automationId := automationId; r_status := pending;
                r_startedAt := now; r_completedAt := None; r_sessionId := None;
                r_summary := None; r_error := None; r_triggeredBy := triggeredBy;
                r_triggerContext := triggerContext |} in
  (run, saveRun workspaceRoot run st).

(** The [updates] argument of [updateRun]:
    [Partial<Pick<AutomationRun, 'status'|'completedAt'|'sessionId'|'summary'|'error'>>].
    [None] is a key left out; for a nullable field [Some None] is the key
    set to [null]. *)
Record RunUpdates := {
  u_status : option AutomationRunStatus;
  u_completedAt : option (option string);
  u_sessionId : option (option string);
  u_summary : option (option string);
  u_error : option (option string) }.

Definition noUpdates : RunUpdates :=
  {| u_status := None; u_completedAt := None; u_sessionId := None;
     u_summary := None; u_error := None |}.

(** The object spread [{ ...run, ...updates }]. *)
Definition spreadRun (run : AutomationRun) (updates : RunUpdates) : AutomationRun :=
  {| r_id := r_id run;
     r_automationId := r_automationId run;
     r_status := default (r_status run) (u_status updates);
     r_startedAt := r_startedAt run;
     r_completedAt := default (r_completedAt run) (u_completedAt updates);
     r_sessionId := default (r_sessionId run) (u_sessionId updates);
     r_summary := default (r_summary run) (u_summary updates);
     r_error := default (r_error run) (u_error updates);
     r_triggeredBy := r_triggeredBy run;
     r_triggerContext := r_triggerContext run |}.

Definition updateRun (workspaceRoot runId : string) (updates : RunUpdates) (st : Storage)
    : option AutomationRun * Storage :=
  match getRun workspaceRoot runId st with
  | None => (None, st)
  | Some run =>
      let updated := spreadRun run updates in
      (Some updated, saveRun workspaceRoot updated st)
  end.

(** The conditional chain that computes [automation.lastStatus]. *)
Definition nextLastStatus (status : AutomationRunStatus) (old : AutomationLastStatus)
    : AutomationLastStatus :=
  match status with
  | success => Some last_success
  | failure => Some last_failure
  | running => Some last_running
  | _ => old
  end.

Definition afterRun (automation : Automation) (run : AutomationRun) (now : string)
    : Automation :=
  {| a_id := a_id automation;
     a_name := a_name automation;
     a_prompt := a_prompt automation;
     a_triggerConfig := a_triggerConfig automation;
     a_actionConfig := a_actionConfig automation;
     a_enabled := a_enabled automation;
     a_lastRunAt := Some (default (r_startedAt run) (r_completedAt run));
     a_nextRunAt := a_nextRunAt automation;
     a_createdAt := a_createdAt automation;
     a_updatedAt := now;
     a_workspaceId := a_workspaceId automation;
     a_runCount := (a_runCount automation + 1)%Z;
     a_lastStatus := nextLastStatus (r_status run) (a_lastStatus automation) |}.

Definition updateAutomationAfterRun (workspaceRoot automationId : string)
    (run : AutomationRun) (now : string) (st : Storage) : Storage :=
  let automations := loadAutomations workspaceRoot st in
  match findAutomation automationId automations with
  | None => st
  | Some (index, automation) =>
      saveAutomations workspaceRoot
        (<[index := afterRun automation run now]> automations) st
  end.

(** ** JavaScript idioms *)

(** A string operand of [||], [!x] or [if (x)]: [undefined] and the empty
    string are falsy. *)
Definition truthy (o : option string) : option string :=
  match o with
  | Some s => if String.eqb s "" then None else Some s
  | None => None
  end.

(** [x || d] on strings. *)
Definition orString (o : option string) (d : string) : string :=
  default d (truthy o).

(** [x || d] on numbers: [undefined] and [0] are falsy. *)
Definition orNumber (o : option Z) (d : Z) : Z :=
  match o with
  | Some n => if Z.eqb n 0 then d else n
  | None => d
  end.

(** [a.includes(x)] on an array of strings. *)
Definition includes (x : string) (l : list string) : bool :=
  existsb (String.eqb x) l.

(** ** Logging ([mainLog]) *)

Inductive LogLevel := info | warn | error.

Inductive LogArg := LStr (s : string) | LNum (n : Z) | LType (t : TriggerType).

(** A log line: level, message template (one [{}] per interpolated value)
    and the interpolated values, in order. *)
Record LogEntry := {
  log_level : LogLevel;
  log_text : string;
  log_args : list LogArg }.

Definition Log (l : LogLevel) (text : string) (args : list LogArg) : LogEntry :=
  {| log_level := l; log_text := text; log_args := args |}.

(** ** Trigger registry ([triggers.ts])

    What the registry holds in the host (Electron, Node, croner) is kept in
    [listeners]: one entry per live job, shortcut, watcher, event listener or
    interval, under the handle it was given.  The callbacks of the
    schedule, hotkey, power-event, app-event and clipboard triggers are
    embedded ([hostSignal]); the watch callbacks of the file-change and
    folder-action triggers and their debounce are not. *)

(** The answers of the host to a registration. *)
Record TriggerHost := {
  (** [new Cron(expression, { timezone })] does not throw *)
  Cron_valid : string → option string → bool;
  (** [globalShortcut.register] does not throw on this accelerator *)
  accelerator_valid : string → bool;
  (** the operating system grants the accelerator *)
  accelerator_free : string → bool;
  existsSync : string → bool;
  (** [fs.watch] does not throw on this path *)
  watch_ok : string → bool;
  (** [clipboard.readText()] *)
  clipboard_readText : string;
  (** [new RegExp(pattern)] does not throw *)
  RegExp_valid : string → bool;
  (** [new RegExp(pattern).test(text)] *)
  RegExp_test : string → string → bool }.

Inductive Subscription :=
  | CronJob (cron : string) (timezone : option string)
  | GlobalShortcut (accelerator : string)
  | FsWatcher (watchPath : string) (recursive : bool)
  | PowerMonitorListener (electronEvent eventName : string)
  | AppListener (electronEvent eventName : string)
  | ClipboardInterval (pollInterval : Z) (lastContent : string) (regex : option string).

(** A live callback in the host, with the [automation] its closure captured
    and the trigger kind it fires as. *)
Record HostListener := {
  hl_automation : Automation;
  hl_type : TriggerType;
  hl_sub : Subscription }.

(** The [stop] closure of a registered trigger, by what it releases. *)
Inductive Stop :=
  | StopJob (job : nat)
  | StopShortcut (accelerator : string)
  | StopWatchers (watchers : list nat)
  | StopListeners (handlers : list nat)
  | StopInterval (intervalId : nat).

Record RegisteredTrigger := {
  rt_automationId : string;
  rt_type : TriggerType;
  rt_stop : Stop }.

(** One invocation of the [onTrigger] callback. *)
Record Fire := {
  fire_workspaceId : string;
  fire_automationId : string;
  fire_triggeredBy : TriggerType;
  fire_context : TriggerContext }.

Record Registry := {
  triggers : JsMap.t RegisteredTrigger;
  listeners : gmap nat HostListener;
  nextHandle : nat;
  fired : list Fire;
  triggerLog : list LogEntry }.

Definition newRegistry : Registry :=
  {| triggers := JsMap.empty; listeners := ∅; nextHandle := 0;
     fired := []; triggerLog := [] |}.

Definition set_triggers (f : JsMap.t RegisteredTrigger → JsMap.t RegisteredTrigger)
    (r : Registry) : Registry :=
  {| triggers := f (triggers r); listeners := listeners r; nextHandle := nextHandle r;
     fired := fired r; triggerLog := triggerLog r |}.

Definition set_listeners (f : gmap nat HostListener → gmap nat HostListener)
    (r : Registry) : Registry :=
  {| triggers := triggers r; listeners := f (listeners r); nextHandle := nextHandle r;
     fired := fired r; triggerLog := triggerLog r |}.

Definition onTrigger (x : Fire) (r : Registry) : Registry :=
  {| triggers := triggers r; listeners := listeners r; nextHandle := nextHandle r;
     fired := fired r ++ [x]; triggerLog := triggerLog r |}.

Definition triggerLogged (l : LogLevel) (text : string) (args : list LogArg)
    (r : Registry) : Registry :=
  {| triggers := triggers r; listeners := listeners r; nextHandle := nextHandle r;
     fired := fired r; triggerLog := triggerLog r ++ [Log l text args] |}.

(** Hands a new callback to the host; the result is its handle. *)
Definition subscribe (automation : Automation) (type : TriggerType) (sub : Subscription)
    (r : Registry) : nat * Registry :=
  (nextHandle r,
   {| triggers := triggers r;
      listeners := <[nextHandle r := {| hl_automation := automation; hl_type := type;
                                        hl_sub := sub |}]> (listeners r);
      nextHandle := S (nextHandle r);
      fired := fired r; triggerLog := triggerLog r |}).

Definition isShortcut (accelerator : string) (l : HostListener) : bool :=
  match hl_sub l with
  | GlobalShortcut a => String.eqb a accelerator
  | _ => false
  end.

Definition closeAll (handles : list nat) (ls : gmap nat HostListener)
    : gmap nat HostListener :=
  foldr delete ls handles.

(** Running a [stop] closure. *)
Definition runStop (s : Stop) (ls : gmap nat HostListener) : gmap nat HostListener :=
  match s with
  | StopJob job => delete job ls
  | StopShortcut accelerator =>
      filter (λ kv, isShortcut accelerator kv.2 = false) ls
  | StopWatchers watchers => closeAll watchers ls
  | StopListeners handlers => closeAll handlers ls
  | StopInterval intervalId => delete intervalId ls
  end.

Definition unregister (automationId : string) (r : Registry) : Registry :=
  match JsMap.get automationId (triggers r) with
  | Some existing =>
      triggerLogged info "Unregistered {} trigger for automation {}"
        [LType (rt_type existing); LStr automationId]
        (set_triggers (JsMap.delete automationId)
           (set_listeners (runStop (rt_stop existing)) r))
  | None => r
  end.

Definition unregisterAll (r : Registry) : Registry :=
  triggerLogged info "All triggers unregistered" []
    (set_triggers (λ _, JsMap.empty)
       (foldl (λ acc kv, set_listeners (runStop (rt_stop kv.2)) acc) r (triggers r))).

Definition getActiveTriggerCount (r : Registry) : nat := JsMap.size (triggers r).

Definition setTrigger (automation : Automation) (type : TriggerType) (stop : Stop)
    (r : Registry) : Registry :=
  set_triggers
    (JsMap.set (a_id automation)
       {| rt_automationId := a_id automation; rt_type := type; rt_stop := stop |}) r.

Definition registerScheduleTrigger (h : TriggerHost) (automation : Automation)
    (config : ScheduleTriggerConfig) (r : Registry) : Registry :=
  match truthy (sc_cron config) with
  | None =>
      triggerLogged warn "Schedule trigger for {} has no cron expression"
        [LStr (a_name automation)] r
  | Some cron =>
      if Cron_valid h cron (sc_timezone config) then
        let '(job, r) := subscribe automation schedule
                           (CronJob cron (sc_timezone config)) r in
        let r := triggerLogged info "Registered schedule trigger for {} (cron: {}, next: {})"
                   [LStr (a_name automation); LStr cron] r in
        setTrigger automation schedule (StopJob job) r
      else
        triggerLogged error "Failed to register schedule trigger for {}: {}"
          [LStr (a_name automation)] r
  end.

(** [globalShortcut.register]: refused when the accelerator is already
    registered or the system does not grant it. *)
Definition shortcutTaken (accelerator : string) (r : Registry) : bool :=
  bool_decide (filter (λ kv, isShortcut accelerator kv.2 = true) (listeners r) ≠ ∅).

Definition registerHotkeyTrigger (h : TriggerHost) (automation : Automation)
    (config : HotkeyTriggerConfig) (r : Registry) : Registry :=
  let accelerator := hk_accelerator config in
  if String.eqb accelerator "" then
    triggerLogged warn "Hotkey trigger for {} has no accelerator"
      [LStr (a_name automation)] r
  else if negb (accelerator_valid h accelerator) then
    triggerLogged error "Failed to register hotkey trigger for {}: {}"
      [LStr (a_name automation)] r
  else if negb (shortcutTaken accelerator r) && accelerator_free h accelerator then
    let '(_, r) := subscribe automation hotkey (GlobalShortcut accelerator) r in
    let r := triggerLogged info "Registered hotkey trigger for {} ({})"
               [LStr (a_name automation); LStr accelerator] r in
    setTrigger automation hotkey (StopShortcut accelerator) r
  else
    triggerLogged warn "Failed to register hotkey {} for {} - shortcut may be in use"
      [LStr accelerator; LStr (a_name automation)] r.

(** The loop over [config.paths]: the registry and the [watchers] so far. *)
Definition watchPath (h : TriggerHost) (automation : Automation)
    (acc : Registry * list nat) (path : string) : Registry * list nat :=
  let '(r, watchers) := acc in
  if negb (existsSync h path) then
    (triggerLogged warn "Watch path does not exist: {}" [LStr path] r, watchers)
  else if watch_ok h path then
    let '(w, r) := subscribe automation file_change (FsWatcher path true) r in
    (r, watchers ++ [w])
  else
    (triggerLogged error "Failed to watch path {}: {}" [LStr path] r, watchers).

Definition registerFileChangeTrigger (h : TriggerHost) (automation : Automation)
    (config : FileChangeTriggerConfig) (r : Registry) : Registry :=
  match fc_paths config with
  | [] =>
      triggerLogged warn "File change trigger for {} has no paths"
        [LStr (a_name automation)] r
  | paths =>
      let '(r, watchers) := foldl (watchPath h automation) (r, []) paths in
      match watchers with
      | [] => r
      | _ =>
          let r := triggerLogged info "Registered file change trigger for {} ({} watcher(s))"
                     [LStr (a_name automation); LNum (Z.of_nat (length watchers))] r in
          setTrigger automation file_change (StopWatchers watchers) r
      end
  end.

(** [eventMap[eventName]] of the power-event trigger. *)
Definition eventMap (eventName : string) : option string :=
  if includes eventName
       ["on-ac"; "on-battery"; "suspend"; "resume"; "lock-screen"; "unlock-screen"]
  then Some eventName else None.

Definition listenPower (automation : Automation)
    (acc : Registry * list nat) (eventName : string) : Registry * list nat :=
  let '(r, handlers) := acc in
  match eventMap eventName with
  | None => (triggerLogged warn "Unknown power event: {}" [LStr eventName] r, handlers)
  | Some electronEvent =>
      let '(l, r) := subscribe automation power_event
                       (PowerMonitorListener electronEvent eventName) r in
      (r, handlers ++ [l])
  end.

Definition registerPowerEventTrigger (automation : Automation)
    (config : PowerEventTriggerConfig) (r : Registry) : Registry :=
  match pe_events config with
  | [] =>
      triggerLogged warn "Power event trigger for {} has no events"
        [LStr (a_name automation)] r
  | events =>
      let '(r, handlers) := foldl (listenPower automation) (r, []) events in
      match handlers with
      | [] => r
      | _ =>
          let r := triggerLogged info "Registered power event trigger for {} ({})"
                     (LStr (a_name automation) :: map LStr events) r in
          setTrigger automation power_event (StopListeners handlers) r
      end
  end.

(** The context [{ event, firedAt }] of the power-event and app-event fires. *)
Definition eventContext (eventName firedAt : string) : TriggerContext :=
  [("event", JStr eventName); ("firedAt", JStr firedAt)].

Definition fireOf (automation : Automation) (type : TriggerType) (context : TriggerContext)
    : Fire :=
  {| fire_workspaceId := a_workspaceId automation; fire_automationId := a_id automation;
     fire_triggeredBy := type; fire_context := context |}.

(** The loop over [config.events] of the app-event trigger; [firedAt k] is
    what [new Date().toISOString()] returns at the [k]-th immediate fire, and
    the third component counts those fires. *)
Definition listenApp (firedAt : nat → string) (automation : Automation)
    (acc : Registry * list nat * nat) (eventName : string) : Registry * list nat * nat :=
  let '(r, handlers, k) := acc in
  if String.eqb eventName "app-ready" then
    let r := triggerLogged info "App event app-ready fired immediately for {}"
               [LStr (a_name automation)] r in
    (onTrigger (fireOf automation app_event (eventContext eventName (firedAt k))) r,
     handlers, S k)
  else if String.eqb eventName "window-focus" then
    let '(l, r) := subscribe automation app_event
                     (AppListener "browser-window-focus" eventName) r in
    (r, handlers ++ [l], k)
  else if String.eqb eventName "window-blur" then
    let '(l, r) := subscribe automation app_event
                     (AppListener "browser-window-blur" eventName) r in
    (r, handlers ++ [l], k)
  else
    (triggerLogged warn "Unknown app event: {}" [LStr eventName] r, handlers, k).

Definition registerAppEventTrigger (firedAt : nat → string) (automation : Automation)
    (config : AppEventTriggerConfig) (r : Registry) : Registry :=
  match ae_events config with
  | [] =>
      triggerLogged warn "App event trigger for {} has no events"
        [LStr (a_name automation)] r
  | events =>
      let '(r, handlers, _) := foldl (listenApp firedAt automation) (r, [], 0) events in
      if negb (Nat.eqb (length handlers) 0) || includes "app-ready" events then
        let r := triggerLogged info "Registered app event trigger for {} ({})"
                   (LStr (a_name automation) :: map LStr events) r in
        setTrigger automation app_event (StopListeners handlers) r
      else r
  end.

(** The [regex] variable of the clipboard trigger after the [try]: the
    compiled pattern, or [null] when no pattern is given or it does not
    compile. *)
Definition compilePattern (h : TriggerHost) (pattern : option string) : option string :=
  match truthy pattern with
  | Some p => if RegExp_valid h p then Some p else None
  | None => None
  end.

Definition registerClipboardTrigger (h : TriggerHost) (automation : Automation)
    (config : ClipboardTriggerConfig) (r : Registry) : Registry :=
  let pollInterval := default 2000%Z (cb_pollIntervalMs config) in
  let lastContent := clipboard_readText h in
  let regex := compilePattern h (cb_pattern config) in
  let r := match truthy (cb_pattern config), regex with
           | Some p, None =>
               triggerLogged warn "Invalid clipboard pattern regex for {}: {}"
                 [LStr (a_name automation); LStr p] r
           | _, _ => r
           end in
  let '(intervalId, r) := subscribe automation clipboard
                            (ClipboardInterval pollInterval lastContent regex) r in
  let r := triggerLogged info "Registered clipboard trigger for {} (poll: {}ms{})"
             [LStr (a_name automation); LNum pollInterval] r in
  setTrigger automation clipboard (StopInterval intervalId) r.

Definition registerFolderActionTrigger (h : TriggerHost) (automation : Automation)
    (config : FolderActionTriggerConfig) (r : Registry) : Registry :=
  let folderPath := fa_folderPath config in
  if String.eqb folderPath "" then
    triggerLogged warn "Folder action trigger for {} has no folder path"
      [LStr (a_name automation)] r
  else if negb (existsSync h folderPath) then
    triggerLogged warn "Folder action path does not exist: {}" [LStr folderPath] r
  else if watch_ok h folderPath then
    let '(w, r) := subscribe automation folder_action (FsWatcher folderPath false) r in
    let r := triggerLogged info "Registered folder action trigger for {} ({})"
               [LStr (a_name automation); LStr folderPath] r in
    setTrigger automation folder_action (StopWatchers [w]) r
  else
    triggerLogged error "Failed to register folder action trigger for {}: {}"
      [LStr (a_name automation)] r.

(** The [switch (config.type)] of [register], after the [unregister]. *)
Definition dispatch (h : TriggerHost) (firedAt : nat → string) (automation : Automation)
    (r : Registry) : Registry :=
  match a_triggerConfig automation with
  | TSchedule config => registerScheduleTrigger h automation config r
  | THotkey config => registerHotkeyTrigger h automation config r
  | TFileChange config => registerFileChangeTrigger h automation config r
  | TPowerEvent config => registerPowerEventTrigger automation config r
  | TAppEvent config => registerAppEventTrigger firedAt automation config r
  | TClipboard config => registerClipboardTrigger h automation config r
  | TFolderAction config => registerFolderActionTrigger h automation config r
  | TManual => r
  | TWebhook _ | TDeepLink =>
      triggerLogged warn "Trigger type {} not yet implemented for {}"
        [LStr (a_name automation)] r
  end.

Definition register (h : TriggerHost) (firedAt : nat → string) (automation : Automation)
    (r : Registry) : Registry :=
  dispatch h firedAt automation (unregister (a_id automation) r).

(** *** Callbacks run by the host *)

(** What the host delivers to a live callback: the tick of a cron job (with
    what [job.nextRun()] answers), a key press, an event of [powerMonitor]
    or [app], or the tick of a clipboard interval (with what
    [clipboard.readText()] answers). *)
Inductive Signal :=
  | CronTick (nextRun : option string)
  | ShortcutPressed
  | PowerSignal
  | AppSignal
  | IntervalTick (currentContent : string).

Definition optJson (o : option string) : Json :=
  match o with Some s => JStr s | None => JNull end.

(** The body of the [setInterval] callback of the clipboard trigger; the
    result is the new [lastContent] and the fire, if any. *)
Definition clipboardPoll (h : TriggerHost) (automation : Automation)
    (lastContent : string) (regex : option string) (currentContent firedAt : string)
    : string * option Fire :=
  if String.eqb currentContent lastContent then (lastContent, None)
  else if match regex with
          | Some p => negb (RegExp_test h p currentContent)
          | None => false
          end
  then (currentContent, None)
  else (currentContent,
        Some (fireOf automation clipboard
                [("content", JStr (String.substring 0 500 currentContent));
                 ("firedAt", JStr firedAt)])).

(** The host runs the callback under [handle]; [firedAt] is what
    [new Date().toISOString()] returns in it.  A handle that is no longer
    live has no callback to run. *)
Definition hostSignal (h : TriggerHost) (handle : nat) (s : Signal) (firedAt : string)
    (r : Registry) : Registry :=
  match listeners r !! handle with
  | None => r
  | Some l =>
      let automation := hl_automation l in
      match hl_sub l, s with
      | CronJob cron _, CronTick nextRun =>
          let r := triggerLogged info "Schedule trigger fired for {} (cron: {})"
                     [LStr (a_name automation); LStr cron] r in
          onTrigger (fireOf automation schedule
                       [("cron", JStr cron); ("firedAt", JStr firedAt);
                        ("nextRun", optJson nextRun)]) r
      | GlobalShortcut accelerator, ShortcutPressed =>
          let r := triggerLogged info "Hotkey trigger fired for {} ({})"
                     [LStr (a_name automation); LStr accelerator] r in
          onTrigger (fireOf automation hotkey
                       [("accelerator", JStr accelerator); ("firedAt", JStr firedAt)]) r
      | PowerMonitorListener _ eventName, PowerSignal =>
          let r := triggerLogged info "Power event {} fired for {}"
                     [LStr eventName; LStr (a_name automation)] r in
          onTrigger (fireOf automation power_event (eventContext eventName firedAt)) r
      | AppListener _ eventName, AppSignal =>
          let r := triggerLogged info "App event {} fired for {}"
                     [LStr eventName; LStr (a_name automation)] r in
          onTrigger (fireOf automation app_event (eventContext eventName firedAt)) r
      | ClipboardInterval pollInterval lastContent regex, IntervalTick currentContent =>
          let '(lastContent', x) :=
            clipboardPoll h automation lastContent regex currentContent firedAt in
          let r := set_listeners
                     (insert handle
                        {| hl_automation := automation; hl_type := hl_type l;
                           hl_sub := ClipboardInterval pollInterval lastContent' regex |}) r in
          match x with
          | Some x =>
              onTrigger x
                (triggerLogged info "Clipboard trigger fired for {}"
                   [LStr (a_name automation)] r)
          | None => r
          end
      | _, _ => r
      end
  end.

(** ** Run manager ([automation-manager.ts]) *)

Record Workspace := {
  ws_id : string;
  ws_name : string;
  ws_rootPath : string }.

(** What the manager reads from outside: the workspace configuration, the
    clock and the id generator. *)
Record ManagerHost := {
  getWorkspaces : list Workspace;
  getWorkspaceByNameOrId : string → option Workspace;
  (** [Date.now()] at the [n]-th reading of the clock *)
  Date_now : nat → Z;
  (** [new Date(ms).toISOString()] *)
  toISOString : Z → string;
  (** what the [n]-th call of [generateId()] returns (it is built from the
      clock and [Math.random()]) *)
  generateId : nat → string;
  (** [JSON.stringify(context, null, 2)] *)
  JSON_stringify : TriggerContext → string }.

Record ActiveRun := {
  ar_runId : string;
  ar_automationId : string;
  ar_workspaceId : string;
  ar_workspaceRoot : string;
  ar_sessionId : string;
  ar_startTime : Z;
  ar_timeoutTimer : option nat }.

(** The calls made on the [SessionManager]. *)
Inductive SessionCall :=
  | createSession (workspaceId : string) (permissionMode : PermissionMode)
      (model : option string) (workingDirectory : string) (hidden : bool)
  | setSessionSources (sessionId : string) (sourceSlugs : list string)
  | sendMessage (sessionId prompt : string)
  | cancelProcessing (sessionId : string).

Inductive AutomationEventType := run_started | run_completed | run_failed | run_cancelled.

(** What goes to the windows through [broadcastToAll]. *)
Inductive Broadcast :=
  | AUTOMATION_EVENT (type : AutomationEventType) (run : AutomationRun)
  | AUTOMATIONS_CHANGED (automations : list Automation).

(** The state of the main process: the files, the two tables of the
    manager, its pending timeouts ([timers]: handle to run id and delay in
    milliseconds), whether its listener is attached to the session manager,
    its registry, and what it has sent out so far. *)
Record World := {
  storage : Storage;
  activeRuns : JsMap.t ActiveRun;
  sessionToRun : JsMap.t string;
  timers : gmap nat (string * Z);
  nextTimer : nat;
  listening : bool;
  triggerRegistry : Registry;
  sessionCalls : list SessionCall;
  broadcasts : list Broadcast;
  log : list LogEntry;
  clockReads : nat;
  idsGenerated : nat }.

Definition set_storage (f : Storage → Storage) (w : World) : World :=
  {| storage := f (storage w);
     activeRuns := activeRuns w;
     sessionToRun := sessionToRun w;
     timers := timers w;
     nextTimer := nextTimer w;
     listening := listening w;
     triggerRegistry := triggerRegistry w;
     sessionCalls := sessionCalls w;
     broadcasts := broadcasts w;
     log := log w;
     clockReads := clockReads w;
     idsGenerated := idsGenerated w |}.

Definition set_activeRuns (f : JsMap.t ActiveRun → JsMap.t ActiveRun) (w : World) : World :=
  {| storage := storage w;
     activeRuns := f (activeRuns w);
     sessionToRun := sessionToRun w;
     timers := timers w;
     nextTimer := nextTimer w;
     listening := listening w;
     triggerRegistry := triggerRegistry w;
     sessionCalls := sessionCalls w;
     broadcasts := broadcasts w;
     log := log w;
     clockReads := clockReads w;
     idsGenerated := idsGenerated w |}.

Definition set_sessionToRun (f : JsMap.t string → JsMap.t string) (w : World) : World :=
  {| storage := storage w;
     activeRuns := activeRuns w;
     sessionToRun := f (sessionToRun w);
     timers := timers w;
     nextTimer := nextTimer w;
     listening := listening w;
     triggerRegistry := triggerRegistry w;
     sessionCalls := sessionCalls w;
     broadcasts := broadcasts w;
     log := log w;
     clockReads := clockReads w;
     idsGenerated := idsGenerated w |}.

Definition set_timers (f : gmap nat (string * Z) → gmap nat (string * Z)) (w : World) : World :=
  {| storage := storage w;
     activeRuns := activeRuns w;
     sessionToRun := sessionToRun w;
     timers := f (timers w);
     nextTimer := nextTimer w;
     listening := listening w;
     triggerRegistry := triggerRegistry w;
     sessionCalls := sessionCalls w;
     broadcasts := broadcasts w;
     log := log w;
     clockReads := clockReads w;
     idsGenerated := idsGenerated w |}.

Definition set_nextTimer (f : nat → nat) (w : World) : World :=
  {| storage := storage w;
     activeRuns := activeRuns w;
     sessionToRun := sessionToRun w;
     timers := timers w;
     nextTimer := f (nextTimer w);
     listening := listening w;
     triggerRegistry := triggerRegistry w;
     sessionCalls := sessionCalls w;
     broadcasts := broadcasts w;
     log := log w;
     clockReads := clockReads w;
     idsGenerated := idsGenerated w |}.

Definition set_listening (f : bool → bool) (w : World) : World :=
  {| storage := storage w;
     activeRuns := activeRuns w;
     sessionToRun := sessionToRun w;
     timers := timers w;
     nextTimer := nextTimer w;
     listening := f (listening w);
     triggerRegistry := triggerRegistry w;
     sessionCalls := sessionCalls w;
     broadcasts := broadcasts w;
     log := log w;
     clockReads := clockReads w;
     idsGenerated := idsGenerated w |}.

Definition set_triggerRegistry (f : Registry → Registry) (w : World) : World :=
  {| storage := storage w;
     activeRuns := activeRuns w;
     sessionToRun := sessionToRun w;
     timers := timers w;
     nextTimer := nextTimer w;
     listening := listening w;
     triggerRegistry := f (triggerRegistry w);
     sessionCalls := sessionCalls w;
     broadcasts := broadcasts w;
     log := log w;
     clockReads := clockReads w;
     idsGenerated := idsGenerated w |}.

Definition set_sessionCalls (f : list SessionCall → list SessionCall) (w : World) : World :=
  {| storage := storage w;
     activeRuns := activeRuns w;
     sessionToRun := sessionToRun w;
     timers := timers w;
     nextTimer := nextTimer w;
     listening := listening w;
     triggerRegistry := triggerRegistry w;
     sessionCalls := f (sessionCalls w);
     broadcasts := broadcasts w;
     log := log w;
     clockReads := clockReads w;
     idsGenerated := idsGenerated w |}.

Definition set_broadcasts (f : list Broadcast → list Broadcast) (w : World) : World :=
  {| storage := storage w;
     activeRuns := activeRuns w;
     sessionToRun := sessionToRun w;
     timers := timers w;
     nextTimer := nextTimer w;
     listening := listening w;
     triggerRegistry := triggerRegistry w;
     sessionCalls := sessionCalls w;
     broadcasts := f (broadcasts w);
     log := log w;
     clockReads := clockReads w;
     idsGenerated := idsGenerated w |}.

Definition set_log (f : list LogEntry → list LogEntry) (w : World) : World :=
  {| storage := storage w;
     activeRuns := activeRuns w;
     sessionToRun := sessionToRun w;
     timers := timers w;
     nextTimer := nextTimer w;
     listening := listening w;
     triggerRegistry := triggerRegistry w;
     sessionCalls := sessionCalls w;
     broadcasts := broadcasts w;
     log := f (log w);
     clockReads := clockReads w;
     idsGenerated := idsGenerated w |}.

Definition set_clockReads (f : nat → nat) (w : World) : World :=
  {| storage := storage w;
     activeRuns := activeRuns w;
     sessionToRun := sessionToRun w;
     timers := timers w;
     nextTimer := nextTimer w;
     listening := listening w;
     triggerRegistry := triggerRegistry w;
     sessionCalls := sessionCalls w;
     broadcasts := broadcasts w;
     log := log w;
     clockReads := f (clockReads w);
     idsGenerated := idsGenerated w |}.

Definition set_idsGenerated (f : nat → nat) (w : World) : World :=
  {| storage := storage w;
     activeRuns := activeRuns w;
     sessionToRun := sessionToRun w;
     timers := timers w;
     nextTimer := nextTimer w;
     listening := listening w;
     triggerRegistry := triggerRegistry w;
     sessionCalls := sessionCalls w;
     broadcasts := broadcasts w;
     log := log w;
     clockReads := clockReads w;
     idsGenerated := f (idsGenerated w) |}.

Definition maxConcurrentRuns : nat := 2.

Definition newManager (st : Storage) : World :=
  {| storage := st; activeRuns := JsMap.empty; sessionToRun := JsMap.empty;
     timers := ∅; nextTimer := 0; listening := false; triggerRegistry := newRegistry;
     sessionCalls := []; broadcasts := []; log := [];
     clockReads := 0; idsGenerated := 0 |}.

Definition logged (l : LogLevel) (text : string) (args : list LogArg) (w : World) : World :=
  set_log (λ old, old ++ [Log l text args]) w.

Definition broadcastAutomationEvent (type : AutomationEventType) (run : AutomationRun)
    (w : World) : World :=
  set_broadcasts (λ old, old ++ [AUTOMATION_EVENT type run]) w.

Definition broadcastAutomationsChanged (workspaceRoot : string) (w : World) : World :=
  set_broadcasts
    (λ old, old ++ [AUTOMATIONS_CHANGED (loadAutomations workspaceRoot (storage w))]) w.

Definition call (c : SessionCall) (w : World) : World :=
  set_sessionCalls (λ old, old ++ [c]) w.

(** [Date.now()] *)
Definition readClock (h : ManagerHost) (w : World) : Z * World :=
  (Date_now h (clockReads w), set_clockReads S w).

(** [new Date().toISOString()] *)
Definition isoNow (h : ManagerHost) (w : World) : string * World :=
  let '(ms, w) := readClock h w in (toISOString h ms, w).

Definition freshId (h : ManagerHost) (w : World) : string * World :=
  (generateId h (idsGenerated w), set_idsGenerated S w).

Definition setTimeout (runId : string) (ms : Z) (w : World) : nat * World :=
  (nextTimer w, set_nextTimer S (set_timers (insert (nextTimer w) (runId, ms)) w)).

Definition clearTimeout (timer : option nat) (w : World) : World :=
  match timer with
  | Some t => set_timers (delete t) w
  | None => w
  end.

(** [updateAutomationAfterRun] as the manager calls it: the clock is read
    only when the automation is found. *)
Definition recordRun (h : ManagerHost) (workspaceRoot automationId : string)
    (run : AutomationRun) (w : World) : World :=
  match findAutomation automationId (loadAutomations workspaceRoot (storage w)) with
  | None => w
  | Some _ =>
      let '(now, w) := isoNow h w in
      set_storage (updateAutomationAfterRun workspaceRoot automationId run now) w
  end.

(** [updateRun] on the files of the world. *)
Definition storeUpdate (workspaceRoot runId : string) (updates : RunUpdates) (w : World)
    : option AutomationRun * World :=
  let '(updated, st) := updateRun workspaceRoot runId updates (storage w) in
  (updated, set_storage (λ _, st) w).

(** *** [executeAutomation], cut at its three [await]s *)

Inductive Settled (A : Type) :=
  | Fulfilled (a : A)
  | Rejected (message : string).
Arguments Fulfilled {A} a.
Arguments Rejected {A} message.

(** The variables of [executeAutomation] that are live across the [await]
    of [createSession]. *)
Record ExecFrame := {
  f_workspaceId : string;
  f_automationId : string;
  f_triggerContext : option TriggerContext;
  f_workspace : Workspace;
  f_automation : Automation;
  f_run : AutomationRun }.

(** The same with [session.id] and [updatedRun], live across the two later
    [await]s. *)
Record SessionFrame := {
  sf_frame : ExecFrame;
  sf_sessionId : string;
  sf_updatedRun : AutomationRun }.

(** How a segment ends: suspended at an [await], returned, or thrown (the
    promise of the call rejects with that message). *)
Inductive Outcome :=
  | AwaitCreateSession (f : ExecFrame)
  | AwaitSetSessionSources (f : SessionFrame)
  | AwaitSendMessage (f : SessionFrame)
  | Returned (run : AutomationRun)
  | Threw (message : string).

(** From the call to the [await] of [createSession]. *)
Definition executeAutomation (h : ManagerHost) (workspaceId automationId : string)
    (triggeredBy : TriggerType) (triggerContext : option TriggerContext) (w : World)
    : World * Outcome :=
  match getWorkspaceByNameOrId h workspaceId with
  | None => (w, Threw ("Workspace not found: " +:+ workspaceId))
  | Some workspace =>
      match getAutomation (ws_rootPath workspace) automationId (storage w) with
      | None => (w, Threw ("Automation not found: " +:+ automationId))
      | Some automation =>
          if decide (maxConcurrentRuns ≤ JsMap.size (activeRuns w))%nat then
            (w, Threw "Concurrency limit reached (2 max). Wait for a running automation to complete.")
          else
            let w := logged info "Executing automation {} ({}) triggered by {}"
                       [LStr (a_name automation); LStr automationId; LType triggeredBy] w in
            let '(id, w) := freshId h w in
            let '(now, w) := isoNow h w in
            let '(run, st) := createRun (ws_rootPath workspace) automationId triggeredBy
                                triggerContext id now (storage w) in
            let w := set_storage (λ _, st) w in
            let w := broadcastAutomationEvent run_started run w in
            let config := a_actionConfig automation in
            let w := call (createSession workspaceId
                             (default safe (ac_permissionMode config))
                             (ac_model config)
                             (orString (ac_workingDirectory config) "user_default")
                             true) w in
            (w, AwaitCreateSession
                  {| f_workspaceId := workspaceId; f_automationId := automationId;
                     f_triggerContext := triggerContext; f_workspace := workspace;
                     f_automation := automation; f_run := run |})
      end
  end.

(** The [catch] block. *)
Definition executeAutomation_catch (h : ManagerHost) (f : ExecFrame) (errorMessage : string)
    (w : World) : World * Outcome :=
  let root := ws_rootPath (f_workspace f) in
  let w := logged error "Run {} failed to start: {}"
             [LStr (r_id (f_run f)); LStr errorMessage] w in
  let '(now, w) := isoNow h w in
  let '(failedRun, w) :=
    storeUpdate root (r_id (f_run f))
      {| u_status := Some failure; u_completedAt := Some (Some now);
         u_sessionId := None; u_summary := None;
         u_error := Some (Some errorMessage) |} w in
  let w := match failedRun with
           | Some failedRun =>
               let w := recordRun h root (f_automationId f) failedRun w in
               let w := broadcastAutomationEvent run_failed failedRun w in
               broadcastAutomationsChanged root w
           | None => w
           end in
  (w, Threw errorMessage).

(** From "Build the prompt" to the [await] of [sendMessage]. *)
Definition executeAutomation_send (h : ManagerHost) (sf : SessionFrame) (w : World)
    : World * Outcome :=
  let f := sf_frame sf in
  let prompt :=
    match f_triggerContext f with
    | Some (_ :: _ as context) =>
        a_prompt (f_automation f) +:+ "

---
Trigger context:
" +:+ JSON_stringify h context
    | _ => a_prompt (f_automation f)
    end in
  (call (sendMessage (sf_sessionId sf) prompt) w, AwaitSendMessage sf).

(** Resumed after [createSession] settled: with the session's id, up to the
    next [await]; with a rejection, the [catch] block. *)
Definition executeAutomation_afterCreateSession (h : ManagerHost) (f : ExecFrame)
    (session : Settled string) (w : World) : World * Outcome :=
  match session with
  | Rejected message => executeAutomation_catch h f message w
  | Fulfilled sessionId =>
      let root := ws_rootPath (f_workspace f) in
      let run := f_run f in
      let '(updatedRun, w) :=
        storeUpdate root (r_id run)
          {| u_status := Some running; u_completedAt := None;
             u_sessionId := Some (Some sessionId); u_summary := None;
             u_error := None |} w in
      match updatedRun with
      | None => executeAutomation_catch h f "Failed to update run record" w
      | Some updatedRun =>
          let config := a_actionConfig (f_automation f) in
          let timeoutMs := (orNumber (ac_timeoutSeconds config) 300 * 1000)%Z in
          let '(startTime, w) := readClock h w in
          let '(timer, w) := setTimeout (r_id run) timeoutMs w in
          let activeRun :=
            {| ar_runId := r_id run; ar_automationId := f_automationId f;
               ar_workspaceId := f_workspaceId f; ar_workspaceRoot := root;
               ar_sessionId := sessionId; ar_startTime := startTime;
               ar_timeoutTimer := Some timer |} in
          let w := set_activeRuns (JsMap.set (r_id run) activeRun) w in
          let w := set_sessionToRun (JsMap.set sessionId (r_id run)) w in
          let sf := {| sf_frame := f; sf_sessionId := sessionId;
                       sf_updatedRun := updatedRun |} in
          match ac_sourceSlugs config with
          | Some (_ :: _ as sourceSlugs) =>
              (call (setSessionSources sessionId sourceSlugs) w,
               AwaitSetSessionSources sf)
          | _ => executeAutomation_send h sf w
          end
      end
  end.

(** Resumed after [setSessionSources] settled. *)
Definition executeAutomation_afterSetSessionSources (h : ManagerHost) (sf : SessionFrame)
    (result : Settled unit) (w : World) : World * Outcome :=
  match result with
  | Rejected message => executeAutomation_catch h (sf_frame sf) message w
  | Fulfilled _ => executeAutomation_send h sf w
  end.

(** Resumed after [sendMessage] settled. *)
Definition executeAutomation_afterSendMessage (h : ManagerHost) (sf : SessionFrame)
    (result : Settled unit) (w : World) : World * Outcome :=
  match result with
  | Rejected message => executeAutomation_catch h (sf_frame sf) message w
  | Fulfilled _ =>
      (logged info "Run {} started for {} (session: {})"
         [LStr (r_id (f_run (sf_frame sf))); LStr (a_name (f_automation (sf_frame sf)));
          LStr (sf_sessionId sf)] w,
       Returned (sf_updatedRun sf))
  end.

(** *** Finishing a run *)

(** The [status] parameter of [completeRun]: ['success' | 'failure' | 'cancelled']. *)
Inductive FinalStatus := fin_success | fin_failure | fin_cancelled.

Definition statusOf (s : FinalStatus) : AutomationRunStatus :=
  match s with
  | fin_success => success
  | fin_failure => failure
  | fin_cancelled => cancelled
  end.

Definition eventTypeOf (s : FinalStatus) : AutomationEventType :=
  match s with
  | fin_success => run_completed
  | fin_cancelled => run_cancelled
  | fin_failure => run_failed
  end.

Definition completeRun (h : ManagerHost) (runId : string) (status : FinalStatus)
    (error_ : option string) (w : World) : World :=
  match JsMap.get runId (activeRuns w) with
  | None => w
  | Some active =>
      let root := ar_workspaceRoot active in
      let '(completedAt, w) := isoNow h w in
      let '(updatedRun, w) :=
        storeUpdate root runId
          {| u_status := Some (statusOf status); u_completedAt := Some (Some completedAt);
             u_sessionId := None; u_summary := None;
             u_error := Some (truthy error_) |} w in
      let w := match updatedRun with
               | Some updatedRun =>
                   let w := recordRun h root (ar_automationId active) updatedRun w in
                   let w := broadcastAutomationEvent (eventTypeOf status) updatedRun w in
                   let w := broadcastAutomationsChanged root w in
                   logged info "Run {} completed: {}{}"
                     (LStr runId :: match truthy error_ with
                                    | Some e => [LStr e]
                                    | None => []
                                    end) w
               | None => w
               end in
      let w := clearTimeout (ar_timeoutTimer active) w in
      let w := set_sessionToRun (JsMap.delete (ar_sessionId active)) w in
      set_activeRuns (JsMap.delete runId) w
  end.

(** [cancelRun] up to its [await]: [inl] is the value returned without
    suspending, [inr] the run id it waits with. *)
Definition cancelRun (workspaceId runId : string) (w : World) : World * (bool + string) :=
  match JsMap.get runId (activeRuns w) with
  | None =>
      (logged warn "Cannot cancel run {}: not actively running" [LStr runId] w, inl false)
  | Some active =>
      let w := logged info "Cancelling run {}" [LStr runId] w in
      (call (cancelProcessing (ar_sessionId active)) w, inr runId)
  end.

(** [cancelRun] resumed after [cancelProcessing] settled: [Some true] is
    returned, [None] is the rejection passed on to the caller. *)
Definition cancelRun_afterCancelProcessing (h : ManagerHost) (runId : string)
    (result : Settled unit) (w : World) : World * option bool :=
  match result with
  | Fulfilled _ => (completeRun h runId fin_cancelled None w, Some true)
  | Rejected _ => (w, None)
  end.

Definition getActiveRunCount (w : World) : nat := JsMap.size (activeRuns w).

Definition isAutomationRunning (automationId : string) (w : World) : bool :=
  existsb (λ kv, String.eqb (ar_automationId kv.2) automationId) (activeRuns w).

(** An event of the session manager. *)
Record SessionEvent := {
  ev_type : string;
  ev_sessionId : option string;
  ev_error : option string }.

Definition handleSessionEvent (h : ManagerHost) (event : SessionEvent) (w : World) : World :=
  if negb (String.eqb (ev_type event) "complete" || String.eqb (ev_type event) "error")
  then w
  else
    match truthy (ev_sessionId event) with
    | None => w
    | Some sessionId =>
        match truthy (JsMap.get sessionId (sessionToRun w)) with
        | None => w
        | Some runId =>
            match JsMap.get runId (activeRuns w) with
            | None => w
            | Some active =>
                if String.eqb (ev_type event) "complete" then
                  completeRun h runId fin_success None
                    (logged info "Session {} completed for run {}"
                       [LStr sessionId; LStr runId] w)
                else
                  completeRun h runId fin_failure (ev_error event)
                    (logged error "Session {} errored for run {}: {}"
                       [LStr sessionId; LStr runId] w)
            end
        end
    end.

(** The session manager emits an event: it reaches the manager while its
    listener is attached. *)
Definition sessionEmits (h : ManagerHost) (event : SessionEvent) (w : World) : World :=
  if listening w then handleSessionEvent h event w else w.

Definition handleTimeout (h : ManagerHost) (runId : string) (w : World) : World :=
  match JsMap.get runId (activeRuns w) with
  | None => w
  | Some active =>
      let '(now, w) := readClock h w in
      let w := logged warn "Run {} timed out after {}ms"
                 [LStr runId; LNum (now - ar_startTime active)] w in
      let w := call (cancelProcessing (ar_sessionId active)) w in
      completeRun h runId fin_failure (Some "Automation timed out") w
  end.

(** The [.catch] handler on the cancellation that [handleTimeout] requested. *)
Definition handleTimeout_cancelRejected (message : string) (w : World) : World :=
  logged error "Failed to cancel timed-out session: {}" [LStr message] w.

(** A pending timeout expires: it leaves [timers] and its callback runs.  A
    cleared timeout is no longer in [timers] and never expires. *)
Definition timerExpires (h : ManagerHost) (timer : nat) (w : World) : World :=
  match timers w !! timer with
  | Some (runId, _) => handleTimeout h runId (set_timers (delete timer) w)
  | None => w
  end.

(** The body of the loop of [cleanup]. *)
Definition cleanupRun (h : ManagerHost) (w : World) (entry : string * ActiveRun) : World :=
  let '(runId, active) := entry in
  let w := clearTimeout (ar_timeoutTimer active) w in
  let '(now, w) := isoNow h w in
  let '(updatedRun, w) :=
    storeUpdate (ar_workspaceRoot active) runId
      {| u_status := Some cancelled; u_completedAt := Some (Some now);
         u_sessionId := None; u_summary := None;
         u_error := Some (Some "App shutting down") |} w in
  match updatedRun with
  | Some updatedRun =>
      recordRun h (ar_workspaceRoot active) (ar_automationId active) updatedRun w
  | None => w
  end.

Definition cleanup (h : ManagerHost) (w : World) : World :=
  let w := logged info "Cleaning up {} active run(s)"
             [LNum (Z.of_nat (JsMap.size (activeRuns w)))] w in
  let w := set_triggerRegistry unregisterAll w in
  let w := foldl (cleanupRun h) w (activeRuns w) in
  let w := set_activeRuns (λ _, JsMap.empty) w in
  let w := set_sessionToRun (λ _, JsMap.empty) w in
  set_listening (λ _, false) w.

(** *** Triggers of the manager *)

(** The callback the constructor gives to the registry:
    [executeAutomation(...).catch(...)]. *)
Definition triggered (h : ManagerHost) (x : Fire) (w : World) : World * Outcome :=
  let '(w, o) := executeAutomation h (fire_workspaceId x) (fire_automationId x)
                   (fire_triggeredBy x) (Some (fire_context x)) w in
  match o with
  | Threw message =>
      (logged error "Trigger-initiated execution failed for {}: {}"
         [LStr (fire_automationId x); LStr message] w, o)
  | _ => (w, o)
  end.




(** *** The event loop

    One step is one synchronous segment of the manager: a call or a
    resumption of [executeAutomation] or [cancelRun], an event of the
    session manager, the expiry of a timeout, the rejection of the
    cancellation a timeout requested, or [cleanup]. *)
Inductive Op :=
  | OpExecute (workspaceId automationId : string) (triggeredBy : TriggerType)
      (triggerContext : option TriggerContext)
  | OpAfterCreateSession (f : ExecFrame) (session : Settled string)
  | OpAfterSetSessionSources (f : SessionFrame) (result : Settled unit)
  | OpAfterSendMessage (f : SessionFrame) (result : Settled unit)
  | OpCancelRun (workspaceId runId : string)
  | OpAfterCancelProcessing (runId : string) (result : Settled unit)
  | OpSessionEvent (event : SessionEvent)
  | OpTimer (timer : nat)
  | OpCancelRejected (message : string)
  | OpCleanup.

Definition step (h : ManagerHost) (op : Op) (w : World) : World :=
  match op with
  | OpExecute workspaceId automationId triggeredBy triggerContext =>
      (executeAutomation h workspaceId automationId triggeredBy triggerContext w).1
  | OpAfterCreateSession f session => (executeAutomation_afterCreateSession h f session w).1
  | OpAfterSetSessionSources f result =>
      (executeAutomation_afterSetSessionSources h f result w).1
  | OpAfterSendMessage f result => (executeAutomation_afterSendMessage h f result w).1
  | OpCancelRun workspaceId runId => (cancelRun workspaceId runId w).1
  | OpAfterCancelProcessing runId result =>
      (cancelRun_afterCancelProcessing h runId result w).1
  | OpSessionEvent event => sessionEmits h event w
  | OpTimer timer => timerExpires h timer w
  | OpCancelRejected message => handleTimeout_cancelRejected message w
  | OpCleanup => cleanup h w
  end.

(** ** Invariants and derived notions *)

(** Every run file holds a run whose [id] is the name of the file. *)
Definition runFilesNamed (st : Storage) : Prop :=
  ∀ workspaceRoot runId run,
    getRun workspaceRoot runId st = Some run → r_id run = runId.

(** The run record as [completeRun] leaves it. *)
Definition finished (status : AutomationRunStatus) (completedAt : string)
    (error_ : option string) (run : AutomationRun) : AutomationRun :=
  spreadRun run {| u_status := Some status; u_completedAt := Some (Some completedAt);
                   u_sessionId := None; u_summary := None; u_error := Some error_ |}.

(** What one round of the loop of [cleanup] does. *)
Definition shutDown (completedAt : string) (run : AutomationRun) : AutomationRun :=
  finished cancelled completedAt (Some "App shutting down") run.

(** An entry of the active-run table that belongs to the automation
    [automationId] of [workspaceRoot] and whose run file exists. *)
Definition cancelledFor (workspaceRoot automationId : string) (st : Storage)
    (entry : string * ActiveRun) : bool :=
  bool_decide (ar_workspaceRoot entry.2 = workspaceRoot
               ∧ ar_automationId entry.2 = automationId
               ∧ is_Some (getRun workspaceRoot entry.1 st)).

(** Two automations that differ at most in their run statistics, the
    second with [n] more runs and the same [lastStatus]. *)
Definition ranMore (n : nat) (a a' : Automation) : Prop :=
  a_runCount a' = (a_runCount a + Z.of_nat n)%Z
  ∧ a_lastStatus a' = a_lastStatus a
  ∧ a_id a' = a_id a ∧ a_name a' = a_name a ∧ a_prompt a' = a_prompt a
  ∧ a_triggerConfig a' = a_triggerConfig a ∧ a_actionConfig a' = a_actionConfig a
  ∧ a_enabled a' = a_enabled a ∧ a_nextRunAt a' = a_nextRunAt a
  ∧ a_createdAt a' = a_createdAt a ∧ a_workspaceId a' = a_workspaceId a.

(** No run file is recorded as running in [st'] that was not already so
    in [st]. *)
Definition noNewRunning (st st' : Storage) : Prop :=
  ∀ workspaceRoot runId run',
    getRun workspaceRoot runId st' = Some run' → r_status run' = running →
    ∃ run, getRun workspaceRoot runId st = Some run ∧ r_status run = running.

(** The [stop] closure [s] releases the callback [l] held under [handle]. *)
Definition releases (s : Stop) (handle : nat) (l : HostListener) : Prop :=
  match s with
  | StopJob job => handle = job
  | StopShortcut accelerator => isShortcut accelerator l = true
  | StopWatchers handles | StopListeners handles => handle ∈ handles
  | StopInterval intervalId => handle = intervalId
  end.

(** The registry and the host agree: the table has one entry per key,
    handles are not reused, and every live callback is released by the
    [stop] of the trigger registered for the automation it belongs to. *)
Definition consistent (r : Registry) : Prop :=
  JsMap.wf (triggers r)
  ∧ (∀ handle l, listeners r !! handle = Some l → handle < nextHandle r)
  ∧ (∀ handle l, listeners r !! handle = Some l →
       ∃ t, JsMap.get (a_id (hl_automation l)) (triggers r) = Some t
            ∧ releases (rt_stop t) handle l).

(** The registries that the operations of the registry and the callbacks of
    the host lead to from a new one. *)
Inductive reachable : Registry → Prop :=
  | reach_new : reachable newRegistry
  | reach_register h firedAt automation r :
      reachable r → reachable (register h firedAt automation r)
  | reach_unregister automationId r :
      reachable r → reachable (unregister automationId r)
  | reach_unregisterAll r :
      reachable r → reachable (unregisterAll r)
  | reach_signal h handle s firedAt r :
      reachable r → reachable (hostSignal h handle s firedAt r).

(** [r] is [r0] with more callbacks in the host, all of [automation] and
    under the handles [handles], and the same table. *)
Definition added (automation : Automation) (r0 r : Registry) (handles : list nat) : Prop :=
  triggers r = triggers r0
  ∧ (nextHandle r0 ≤ nextHandle r)%nat
  ∧ (∀ handle, handle < nextHandle r0 → listeners r !! handle = listeners r0 !! handle)
  ∧ (∀ handle l, listeners r !! handle = Some l → (nextHandle r0 ≤ handle)%nat →
       hl_automation l = automation ∧ handle < nextHandle r ∧ handle ∈ handles).

(** What [dispatch] makes of [r0]: more callbacks, all of [automation],
    and either none and the same table, or a trigger registered for the
    automation whose [stop] releases them all. *)
Definition dispatched (automation : Automation) (r0 r : Registry) : Prop :=
  (nextHandle r0 ≤ nextHandle r)%nat
  ∧ (∀ handle, handle < nextHandle r0 → listeners r !! handle = listeners r0 !! handle)
  ∧ (∀ handle l, listeners r !! handle = Some l → (nextHandle r0 ≤ handle)%nat →
       hl_automation l = automation ∧ handle < nextHandle r)
  ∧ ((triggers r = triggers r0
      ∧ ∀ handle l, listeners r !! handle = Some l → handle < nextHandle r0)
     ∨ ∃ t, rt_automationId t = a_id automation
            ∧ triggers r = JsMap.set (a_id automation) t (triggers r0)
            ∧ ∀ handle l, listeners r !! handle = Some l → (nextHandle r0 ≤ handle)%nat →
                releases (rt_stop t) handle l).

Definition bounded (r : Registry) : Prop :=
  ∀ handle l, listeners r !! handle = Some l → handle < nextHandle r.

(** A signal the callback of a subscription always answers with a fire (the
    clipboard interval is apart: it fires on new content only). *)
Definition answers (sub : Subscription) (s : Signal) : bool :=
  match sub, s with
  | CronJob _ _, CronTick _ => true
  | GlobalShortcut _, ShortcutPressed => true
  | PowerMonitorListener _ _, PowerSignal => true
  | AppListener _ _, AppSignal => true
  | _, _ => false
  end.

(** ** Tactics *)

(** Unfolds the helpers of the manager down to the records. *)
Ltac manager_unfold :=
  unfold storeUpdate, recordRun, isoNow, readClock, freshId, logged, call,
    broadcastAutomationEvent, broadcastAutomationsChanged, clearTimeout, setTimeout in *.

Ltac manager_cases :=
  manager_unfold; repeat case_match; simplify_eq/=; try done.

(** ** Sample data *)

Definition demoWorkspace : Workspace :=
  {| ws_id := "ws-1"; ws_name := "Main"; ws_rootPath := "/work/main" |}.

(** A host with one workspace, a clock that advances by one millisecond at
    each reading, and ids numbered in the order they are drawn. *)
Definition demoHost : ManagerHost :=
  {| getWorkspaces := [demoWorkspace];
     getWorkspaceByNameOrId := λ key,
       if String.eqb key "ws-1" || String.eqb key "Main" then Some demoWorkspace else None;
     Date_now := λ n, (1700000000000 + Z.of_nat n)%Z;
     toISOString := λ ms, "T+" +:+ pretty ms;
     generateId := λ n, "run-" +:+ pretty n;
     JSON_stringify := λ _, "{}" |}.

Definition demoAction : ActionConfig :=
  {| ac_model := None; ac_permissionMode := None; ac_maxTurns := None;
     ac_timeoutSeconds := Some 1%Z; ac_sourceSlugs := None; ac_skillSlugs := None;
     ac_workingDirectory := None |}.

Definition demoAutomation : Automation :=
  {| a_id := "auto-1"; a_name := "Digest"; a_prompt := "Summarise the inbox";
     a_triggerConfig := TManual; a_actionConfig := demoAction; a_enabled := true;
     a_lastRunAt := None; a_nextRunAt := None; a_createdAt := "T0"; a_updatedAt := "T0";
     a_workspaceId := "ws-1"; a_runCount := 0; a_lastStatus := None |}.

Definition demoStorage : Storage :=
  {| configFiles := {[ "/work/main" := [demoAutomation] ]}; runFiles := ∅ |}.

(** The manager after [initialize], with no trigger to load. *)
Definition demoWorld : World := set_listening (λ _, true) (newManager demoStorage).

(** A manual run of the sample automation is requested. *)
Definition request (w : World) : World * Outcome :=
  executeAutomation demoHost "ws-1" "auto-1" manual None w.

(** [createSession] fulfils with the session [sessionId] for the call that
    ended as [o]. *)
Definition sessionCreated (sessionId : string) (o : Outcome) (w : World) : World * Outcome :=
  match o with
  | AwaitCreateSession f =>
      executeAutomation_afterCreateSession demoHost f (Fulfilled sessionId) w
  | _ => (w, o)
  end.

(** [sendMessage] rejects with [message] for the call that ended as [o]. *)
Definition sendRejected (message : string) (o : Outcome) (w : World) : World * Outcome :=
  match o with
  | AwaitSendMessage sf =>
      executeAutomation_afterSendMessage demoHost sf (Rejected message) w
  | _ => (w, o)
  end.

(** One run requested and its session created: the prompt is on its way. *)
Definition oneRunning : World * Outcome :=
  let '(w, o) := request demoWorld in sessionCreated "sess-1" o w.

(** Two runs requested one after the other, each with its session. *)
Definition twoRunning : World :=
  let '(w, _) := oneRunning in
  let '(w, o) := request w in
  (sessionCreated "sess-2" o w).1.

(** The first run again, when sending its prompt failed. *)
Definition failedToSend : World * Outcome :=
  let '(w, o) := oneRunning in sendRejected "session closed" o w.

(** Three requests that each pass the admission check before the session
    of any of them is created, then the three sessions. *)
Definition threeAtOnce : list Outcome * World :=
  let '(w, o1) := request demoWorld in
  let '(w, o2) := request w in
  let '(w, o3) := request w in
  let w := (sessionCreated "sess-1" o1 w).1 in
  let w := (sessionCreated "sess-2" o2 w).1 in
  let w := (sessionCreated "sess-3" o3 w).1 in
  ([o1; o2; o3], w).

Definition isAdmitted (o : Outcome) : bool :=
  match o with AwaitCreateSession _ => true | _ => false end.

Definition completeEvent (sessionId : string) : SessionEvent :=
  {| ev_type := "complete"; ev_sessionId := Some sessionId; ev_error := None |}.

(** A set of updates, the first sample run once its session is created, and
    a cancelled run. *)
Definition demoUpdates : RunUpdates :=
  {| u_status := Some failure; u_completedAt := Some (Some "T+9"); u_sessionId := None;
     u_summary := None; u_error := Some (Some "stopped") |}.

Definition demoRun : AutomationRun :=
  {| r_id := "run-0"; r_automationId := "auto-1"; r_status := running;
     r_startedAt := "T+1700000000000"; r_completedAt := None;
     r_sessionId := Some "sess-1"; r_summary := None; r_error := None;
     r_triggeredBy := manual; r_triggerContext := None |}.

Definition demoFinished : AutomationRun :=
  {| r_id := "run-0"; r_automationId := "auto-1"; r_status := cancelled;
     r_startedAt := "T+1"; r_completedAt := None;
     r_sessionId := Some "sess-1"; r_summary := None; r_error := None;
     r_triggeredBy := manual; r_triggerContext := None |}.

(** The frame with which the first sample request waits for its session. *)
Definition demoFrame : ExecFrame :=
  {| f_workspaceId := "ws-1"; f_automationId := "auto-1"; f_triggerContext := None;
     f_workspace := demoWorkspace; f_automation := demoAutomation;
     f_run := {| r_id := "run-0"; r_automationId := "auto-1"; r_status := pending;
                 r_startedAt := "T+1700000000000"; r_completedAt := None;
                 r_sessionId := None; r_summary := None; r_error := None;
                 r_triggeredBy := manual; r_triggerContext := None |} |}.

Definition demoSessionFrame : SessionFrame :=
  {| sf_frame := demoFrame; sf_sessionId := "sess-1"; sf_updatedRun := demoRun |}.

Definition demoActive : ActiveRun :=
  {| ar_runId := "run-0"; ar_automationId := "auto-1"; ar_workspaceId := "ws-1";
     ar_workspaceRoot := "/work/main"; ar_sessionId := "sess-1";
     ar_startTime := 1700000000001; ar_timeoutTimer := Some 0 |}.

(** A host for the examples.  Of regular expressions it knows the literal
    ones, as the constructor of ECMAScript reads them: a pattern of
    characters that are not special matches the texts that contain it, and a
    pattern whose parentheses do not balance is refused. *)
Fixpoint occursIn (p s : string) : bool :=
  String.prefix p s
  || match s with
     | EmptyString => false
     | String _ s' => occursIn p s'
     end.

Fixpoint balanced (depth : nat) (p : string) : bool :=
  match p with
  | EmptyString => Nat.eqb depth 0
  | String c p' =>
      if String.eqb (String c EmptyString) "(" then balanced (S depth) p'
      else if String.eqb (String c EmptyString) ")" then
        match depth with
        | O => false
        | S d => balanced d p'
        end
      else balanced depth p'
  end.

Definition demoTriggerHost : TriggerHost :=
  {| Cron_valid := λ _ _, true;
     accelerator_valid := λ _, true;
     accelerator_free := λ _, true;
     existsSync := λ _, true;
     watch_ok := λ _, true;
     clipboard_readText := "copied before";
     RegExp_valid := balanced 0;
     RegExp_test := occursIn |}.

Definition demoClock (k : nat) : string := "T+" +:+ pretty k.

Definition withTrigger (config : TriggerConfig) (a : Automation) : Automation :=
  {| a_id := a_id a; a_name := a_name a; a_prompt := a_prompt a;
     a_triggerConfig := config; a_actionConfig := a_actionConfig a;
     a_enabled := a_enabled a; a_lastRunAt := a_lastRunAt a;
     a_nextRunAt := a_nextRunAt a; a_createdAt := a_createdAt a;
     a_updatedAt := a_updatedAt a; a_workspaceId := a_workspaceId a;
     a_runCount := a_runCount a; a_lastStatus := a_lastStatus a |}.

(** The sample automation on a hotkey, and then on a clipboard pattern. *)
Definition onHotkey : Automation :=
  withTrigger (THotkey {| hk_accelerator := "CommandOrControl+Shift+D" |}) demoAutomation.

Definition onClipboard (pattern : option string) : Automation :=
  withTrigger (TClipboard {| cb_pattern := pattern; cb_pollIntervalMs := None |})
    demoAutomation.

(** ** Storage, continued: automations and run history ([storage.ts]) *)

Record CreateAutomationInput := {
  ci_name : string;
  ci_prompt : string;
  ci_triggerConfig : TriggerConfig;
  ci_actionConfig : option ActionConfig;
  ci_enabled : option bool }.

(** [UpdateAutomationInput]: every key is optional. *)
Record UpdateAutomationInput := {
  ui_name : option string;
  ui_prompt : option string;
  ui_triggerConfig : option TriggerConfig;
  ui_actionConfig : option ActionConfig;
  ui_enabled : option bool }.

(** The empty object [{}] as an action configuration. *)
Definition emptyActionConfig : ActionConfig :=
  {| ac_model := None; ac_permissionMode := None; ac_maxTurns := None;
     ac_timeoutSeconds := None; ac_sourceSlugs := None; ac_skillSlugs := None;
     ac_workingDirectory := None |}.

(** [createAutomation]; [id] is what [generateId()] returned and [now] what
    [new Date().toISOString()] returned. *)
Definition createAutomation (workspaceRoot workspaceId : string)
    (input : CreateAutomationInput) (id now : string) (st : Storage)
    : Automation * Storage :=
  let automations := loadAutomations workspaceRoot st in
  let automation :=
    {| a_id := id;
       a_name := ci_name input;
       a_prompt := ci_prompt input;
       a_triggerConfig := ci_triggerConfig input;
       a_actionConfig := default emptyActionConfig (ci_actionConfig input);
       a_enabled := default false (ci_enabled input);
       a_lastRunAt := None;
       a_nextRunAt := None;
       a_createdAt := now;
       a_updatedAt := now;
       a_workspaceId := workspaceId;
       a_runCount := 0;
       a_lastStatus := None |} in
  (automation, saveAutomations workspaceRoot (automations ++ [automation]) st).

(** The object spread of [updateAutomation]. *)
Definition spreadAutomation (existing : Automation) (input : UpdateAutomationInput)
    (now : string) : Automation :=
  {| a_id := a_id existing;
     a_name := default (a_name existing) (ui_name input);
     a_prompt := default (a_prompt existing) (ui_prompt input);
     a_triggerConfig := default (a_triggerConfig existing) (ui_triggerConfig input);
     a_actionConfig := default (a_actionConfig existing) (ui_actionConfig input);
     a_enabled := default (a_enabled existing) (ui_enabled input);
     a_lastRunAt := a_lastRunAt existing;
     a_nextRunAt := a_nextRunAt existing;
     a_createdAt := a_createdAt existing;
     a_updatedAt := now;
     a_workspaceId := a_workspaceId existing;
     a_runCount := a_runCount existing;
     a_lastStatus := a_lastStatus existing |}.

Definition updateAutomation (workspaceRoot automationId : string)
    (input : UpdateAutomationInput) (now : string) (st : Storage)
    : option Automation * Storage :=
  let automations := loadAutomations workspaceRoot st in
  match findAutomation automationId automations with
  | None => (None, st)
  | Some (index, existing) =>
      let updated := spreadAutomation existing input now in
      (Some updated, saveAutomations workspaceRoot (<[index := updated]> automations) st)
  end.

Definition onlyEnabled (enabled : bool) : UpdateAutomationInput :=
  {| ui_name := None; ui_prompt := None; ui_triggerConfig := None;
     ui_actionConfig := None; ui_enabled := Some enabled |}.

Definition enableAutomation (workspaceRoot automationId now : string) (st : Storage)
    : option Automation * Storage :=
  updateAutomation workspaceRoot automationId (onlyEnabled true) now st.

Definition disableAutomation (workspaceRoot automationId now : string) (st : Storage)
    : option Automation * Storage :=
  updateAutomation workspaceRoot automationId (onlyEnabled false) now st.

Definition duplicateAutomation (workspaceRoot automationId : string) (id now : string)
    (st : Storage) : option Automation * Storage :=
  match getAutomation workspaceRoot automationId st with
  | None => (None, st)
  | Some original =>
      let '(copy, st) :=
        createAutomation workspaceRoot (a_workspaceId original)
          {| ci_name := a_name original +:+ " (copy)";
             ci_prompt := a_prompt original;
             ci_triggerConfig := a_triggerConfig original;
             ci_actionConfig := Some (a_actionConfig original);
             ci_enabled := Some false |} id now st in
      (Some copy, st)
  end.

(** What the file system and the [Date] parser answer to the run history:
    whether [unlinkSync] succeeds on the file of a run, and
    [new Date(s).getTime()], which is [NaN] ([None]) on a string that is not
    a date. *)
Record HistoryHost := {
  unlinkSync_ok : string → string → bool;
  Date_getTime : string → option Z }.

(** The parseable files of the [runs] directory of a workspace, in the order
    the directory lists them (here: the order of the finite map). *)
Definition runsOf (workspaceRoot : string) (st : Storage) : list AutomationRun :=
  (filter (λ kv, kv.1.1 = workspaceRoot) (map_to_list (runFiles st))).*2.

(** The comparator of [loadRuns] does not put [b] before [a]:
    [new Date(b.startedAt).getTime() - new Date(a.startedAt).getTime()] is
    not positive ([NaN] is taken as zero by [sort]). *)
Definition notOlder (hh : HistoryHost) (a b : AutomationRun) : Prop :=
  match Date_getTime hh (r_startedAt b), Date_getTime hh (r_startedAt a) with
  | Some tb, Some ta => (tb - ta ≤ 0)%Z
  | _, _ => True
  end.

Global Instance notOlder_dec hh a b : Decision (notOlder hh a b).
Proof. unfold notOlder. repeat case_match; apply _. Defined.

(** [loadRuns]: the runs of the automation, by a stable sort, newest first. *)
Definition loadRuns (hh : HistoryHost) (workspaceRoot automationId : string) (st : Storage)
    : list AutomationRun :=
  merge_sort (notOlder hh)
    (filter (λ run, r_automationId run = automationId) (runsOf workspaceRoot st)).

Definition deleteRun (hh : HistoryHost) (workspaceRoot runId : string) (st : Storage)
    : bool * Storage :=
  match runFiles st !! (workspaceRoot, runId) with
  | None => (false, st)
  | Some _ =>
      if unlinkSync_ok hh workspaceRoot runId
      then (true, {| configFiles := configFiles st;
                     runFiles := delete (workspaceRoot, runId) (runFiles st) |})
      else (false, st)
  end.

Definition deleteAutomation (hh : HistoryHost) (workspaceRoot automationId : string)
    (st : Storage) : bool * Storage :=
  let automations := loadAutomations workspaceRoot st in
  match findAutomation automationId automations with
  | None => (false, st)
  | Some (index, _) =>
      let st := saveAutomations workspaceRoot (delete index automations) st in
      let runs := loadRuns hh workspaceRoot automationId st in
      (true, foldl (λ st run, (deleteRun hh workspaceRoot (r_id run) st).2) st runs)
  end.

(** Two inputs of [updateAutomation] in one: a field given in [second]
    wins over the same field in [first]. *)
Definition laterInput (first second : UpdateAutomationInput) : UpdateAutomationInput :=
  let later {A} (a b : option A) := match b with Some v => Some v | None => a end in
  {| ui_name := later (ui_name first) (ui_name second);
     ui_prompt := later (ui_prompt first) (ui_prompt second);
     ui_triggerConfig := later (ui_triggerConfig first) (ui_triggerConfig second);
     ui_actionConfig := later (ui_actionConfig first) (ui_actionConfig second);
     ui_enabled := later (ui_enabled first) (ui_enabled second) |}.

(** Run [a] started at a time that parses, and so did [b], not later. *)
Definition startedNotAfter (hh : HistoryHost) (a b : AutomationRun) : Prop :=
  ∃ ta tb, Date_getTime hh (r_startedAt a) = Some ta
           ∧ Date_getTime hh (r_startedAt b) = Some tb ∧ (tb ≤ ta)%Z.

(** ** Invariants of the manager *)

(** The two tables of the manager are [Map]s and every run file holds the
    run it is named after. *)
Definition tablesOk (w : World) : Prop :=
  JsMap.wf (activeRuns w) ∧ JsMap.wf (sessionToRun w) ∧ runFilesNamed (storage w).

(** Every run of the active-run table holds a timeout that is still pending
    and was set for that run; handles of timeouts are not reused. *)
Definition timeoutsPending (w : World) : Prop :=
  (∀ runId active,
     JsMap.get runId (activeRuns w) = Some active →
     ∃ timer delay,
       ar_timeoutTimer active = Some timer ∧ timers w !! timer = Some (runId, delay))
  ∧ (∀ timer x, timers w !! timer = Some x → timer < nextTimer w).

(** The event loop runs the segments [ops] one after the other. *)
Definition steps (h : ManagerHost) (ops : list Op) (w : World) : World :=
  foldl (λ w op, step h op w) w ops.

(** The session manager fulfils the request a call of [executeAutomation]
    waits for ([createSession] with the session [sessionId]), and the call
    runs on to its next [await] or to its end. *)
Definition fulfil (h : ManagerHost) (sessionId : string) (wo : World * Outcome)
    : World * Outcome :=
  match wo.2 with
  | AwaitCreateSession f =>
      executeAutomation_afterCreateSession h f (Fulfilled sessionId) wo.1
  | AwaitSetSessionSources sf =>
      executeAutomation_afterSetSessionSources h sf (Fulfilled ()) wo.1
  | AwaitSendMessage sf =>
      executeAutomation_afterSendMessage h sf (Fulfilled ()) wo.1
  | Returned _ | Threw _ => wo
  end.

(** A call of [executeAutomation] whose three requests to the session
    manager all fulfil, with nothing else running in between. *)
Definition executeAutomation_fulfilled (h : ManagerHost) (workspaceId automationId : string)
    (triggeredBy : TriggerType) (triggerContext : option TriggerContext)
    (sessionId : string) (w : World) : World * Outcome :=
  fulfil h sessionId
    (fulfil h sessionId
       (fulfil h sessionId
          (executeAutomation h workspaceId automationId triggeredBy triggerContext w))).

(** The host delivers the signals [deliveries] (handle, signal and the time
    read in the callback) one after the other. *)
Definition hostSignals (h : TriggerHost) (deliveries : list (nat * Signal * string))
    (r : Registry) : Registry :=
  foldl (λ r d, hostSignal h d.1.1 d.1.2 d.2 r) r deliveries.


(** ** The watch callbacks of the file-change and folder-action triggers
    ([triggers.ts])

    Each registration of such a trigger has its own closure: the buffer
    ([pendingChanges], [pendingFiles]), the variable [debounceTimer], and
    the timeouts it has set that are still pending in the host. *)

(** [s.slice(n)], [s.startsWith(p)], [s.endsWith(p)] and [s.includes(p)] on
    strings. *)
Definition slice (n : nat) (s : string) : string :=
  String.substring n (String.length s - n) s.

Definition startsWith (s p : string) : bool := String.prefix p s.

Definition endsWith (s p : string) : bool :=
  (String.length p <=? String.length s)%nat
  && String.eqb (slice (String.length s - String.length p) s) p.

Definition includesText (s p : string) : bool := occursIn p s.

Record Debounce (A : Type) := {
  pendingItems : list A;
  debounceTimer : option nat;
  (** pending timeouts of the closure: handle to delay in milliseconds *)
  timeouts : gmap nat Z;
  nextTimeout : nat }.
Arguments pendingItems {A} d.
Arguments debounceTimer {A} d.
Arguments timeouts {A} d.
Arguments nextTimeout {A} d.

(** The closure when the trigger is registered. *)
Definition newDebounce {A : Type} : Debounce A :=
  {| pendingItems := []; debounceTimer := None; timeouts := ∅; nextTimeout := 0 |}.

(** [pendingItems.push(x); if (debounceTimer) clearTimeout(debounceTimer);
    debounceTimer = setTimeout(flush, debounceMs)] *)
Definition pushAndDebounce {A : Type} (x : A) (debounceMs : Z) (d : Debounce A)
    : Debounce A :=
  {| pendingItems := pendingItems d ++ [x];
     debounceTimer := Some (nextTimeout d);
     timeouts := <[nextTimeout d := debounceMs]>
                   (match debounceTimer d with
                    | Some t => delete t (timeouts d)
                    | None => timeouts d
                    end);
     nextTimeout := S (nextTimeout d) |}.

Record FileChange := {
  ch_path : string;
  ch_event : string }.

(** The callback of [config.patterns.some]. *)
Definition matchesPattern (filename pattern : string) : bool :=
  if startsWith pattern "*." then endsWith filename (slice 1 pattern)
  else if startsWith pattern "**/" then includesText filename (slice 3 pattern)
  else String.eqb filename pattern.

(** [eventType === 'rename' ? 'add' : 'change'] *)
Definition mappedEvent (eventType : string) : string :=
  if String.eqb eventType "rename" then "add" else "change".

(** The two filters of the watch callback of a file-change trigger; [None]
    is a [null] file name. *)
Definition fileChangeAccepted (config : FileChangeTriggerConfig) (eventType : string)
    (filename : option string) : bool :=
  (match fc_patterns config, truthy filename with
   | Some (pattern :: patterns), Some name =>
       existsb (matchesPattern name) (pattern :: patterns)
   | _, _ => true
   end)
  && (match fc_events config with
      | [] => true
      | events => includes (mappedEvent eventType) events
      end).

(** The watch callback of the watcher on [watchPath]. *)
Definition fileChanged (config : FileChangeTriggerConfig) (watchPath eventType : string)
    (filename : option string) (d : Debounce FileChange) : Debounce FileChange :=
  if fileChangeAccepted config eventType filename then
    pushAndDebounce
      {| ch_path := watchPath +:+ "/" +:+ default "null" filename; ch_event := eventType |}
      (default 5000%Z (fc_debounceMs config)) d
  else d.

Definition changeJson (c : FileChange) : Json :=
  JObj [("path", JStr (ch_path c)); ("event", JStr (ch_event c))].

Definition fileChangeFire (automation : Automation) (changes : list FileChange)
    (firedAt : string) : Fire :=
  fireOf automation file_change
    [("changes", JArr (changeJson <$> changes)); ("firedAt", JStr firedAt)].

(** [flushChanges]; [firedAt] is what [new Date().toISOString()] returns. *)
Definition flushChanges (automation : Automation) (firedAt : string)
    (s : Debounce FileChange * Registry) : Debounce FileChange * Registry :=
  let '(d, r) := s in
  match pendingItems d with
  | [] => (d, r)
  | changes =>
      let d := {| pendingItems := []; debounceTimer := debounceTimer d;
                  timeouts := timeouts d; nextTimeout := nextTimeout d |} in
      let r := triggerLogged info "File change trigger fired for {} ({} change(s))"
                 [LStr (a_name automation); LNum (Z.of_nat (length changes))] r in
      (d, onTrigger (fileChangeFire automation changes firedAt) r)
  end.

(** A timeout of the closure expires: it is no longer pending and its
    callback runs.  A cleared timeout never expires. *)
Definition expire {A : Type} (handle : nat) (d : Debounce A) : Debounce A :=
  {| pendingItems := pendingItems d; debounceTimer := debounceTimer d;
     timeouts := delete handle (timeouts d); nextTimeout := nextTimeout d |}.

Definition fileChangeTimeout (automation : Automation) (handle : nat) (firedAt : string)
    (s : Debounce FileChange * Registry) : Debounce FileChange * Registry :=
  match timeouts s.1 !! handle with
  | Some _ => flushChanges automation firedAt (expire handle s.1, s.2)
  | None => s
  end.

(** The part of the [stop] closure that is about the debounce. *)
Definition stopDebounce {A : Type} (d : Debounce A) : Debounce A :=
  match debounceTimer d with
  | Some t => expire t d
  | None => d
  end.

(** The filters of the watch callback of a folder-action trigger. *)
Definition folderActionAccepted (config : FolderActionTriggerConfig) (eventType : string)
    (filename : option string) : bool :=
  match truthy filename with
  | None => false
  | Some name =>
      String.eqb eventType "rename"
      && (match fa_extensions config with
          | Some (ext :: exts) => existsb (endsWith name) (ext :: exts)
          | _ => true
          end)
      && (match truthy (fa_namePattern config) with
          | Some pattern =>
              if startsWith pattern "*." then endsWith name (slice 1 pattern)
              else includesText name pattern
          | None => true
          end)
  end.

Definition folderChanged (config : FolderActionTriggerConfig) (eventType : string)
    (filename : option string) (d : Debounce string) : Debounce string :=
  if folderActionAccepted config eventType filename then
    pushAndDebounce (default "" filename) 3000%Z d
  else d.

Definition folderActionFire (automation : Automation) (config : FolderActionTriggerConfig)
    (files : list string) (firedAt : string) : Fire :=
  fireOf automation folder_action
    [("files", JArr (JStr <$> files)); ("folderPath", JStr (fa_folderPath config));
     ("firedAt", JStr firedAt)].

(** [flushFiles] *)
Definition flushFiles (automation : Automation) (config : FolderActionTriggerConfig)
    (firedAt : string) (s : Debounce string * Registry) : Debounce string * Registry :=
  let '(d, r) := s in
  match pendingItems d with
  | [] => (d, r)
  | files =>
      let d := {| pendingItems := []; debounceTimer := debounceTimer d;
                  timeouts := timeouts d; nextTimeout := nextTimeout d |} in
      let r := triggerLogged info "Folder action trigger fired for {} ({} new file(s))"
                 [LStr (a_name automation); LNum (Z.of_nat (length files))] r in
      (d, onTrigger (folderActionFire automation config files firedAt) r)
  end.

Definition folderActionTimeout (automation : Automation) (config : FolderActionTriggerConfig)
    (handle : nat) (firedAt : string) (s : Debounce string * Registry)
    : Debounce string * Registry :=
  match timeouts s.1 !! handle with
  | Some _ => flushFiles automation config firedAt (expire handle s.1, s.2)
  | None => s
  end.

(** What reaches the closure of a file-change trigger while it is
    registered: a call of a watch callback or the expiry of a timeout. *)
Inductive WatchOp :=
  | Watched (watchPath eventType : string) (filename : option string)
  | TimedOut (handle : nat) (firedAt : string).

Definition fileChangeStep (automation : Automation) (config : FileChangeTriggerConfig)
    (s : Debounce FileChange * Registry) (op : WatchOp) : Debounce FileChange * Registry :=
  match op with
  | Watched watchPath eventType filename =>
      (fileChanged config watchPath eventType filename s.1, s.2)
  | TimedOut handle firedAt => fileChangeTimeout automation handle firedAt s
  end.

Definition folderActionStep (automation : Automation) (config : FolderActionTriggerConfig)
    (s : Debounce string * Registry) (op : WatchOp) : Debounce string * Registry :=
  match op with
  | Watched _ eventType filename => (folderChanged config eventType filename s.1, s.2)
  | TimedOut handle firedAt => folderActionTimeout automation config handle firedAt s
  end.

(** The changes that the watch callbacks of a file-change trigger let
    through, in the order of the calls. *)
Definition acceptedChanges (config : FileChangeTriggerConfig) (ops : list WatchOp)
    : list FileChange :=
  flat_map (λ op, match op with
                  | Watched watchPath eventType filename =>
                      if fileChangeAccepted config eventType filename
                      then [{| ch_path := watchPath +:+ "/" +:+ default "null" filename;
                               ch_event := eventType |}]
                      else []
                  | TimedOut _ _ => []
                  end) ops.

Definition acceptedFiles (config : FolderActionTriggerConfig) (ops : list WatchOp)
    : list string :=
  flat_map (λ op, match op with
                  | Watched _ eventType filename =>
                      if folderActionAccepted config eventType filename
                      then [default "" filename]
                      else []
                  | TimedOut _ _ => []
                  end) ops.

(** The closure between two calls: it has at most one timeout pending, the
    one held in [debounceTimer], and it has one exactly when the buffer is
    not empty. *)
Definition debounced {A : Type} (d : Debounce A) : Prop :=
  (∀ t ms, timeouts d !! t = Some ms → debounceTimer d = Some t)
  ∧ (∀ t, debounceTimer d = Some t → t < nextTimeout d)
  ∧ (pendingItems d = [] ↔ timeouts d = ∅).


(** [automation] with other values of [maxTurns] and [skillSlugs] in its
    action configuration. *)
Definition withTurnsAndSkills (maxTurns : option Z) (skillSlugs : option (list string))
    (automation : Automation) : Automation :=
  {| a_id := a_id automation; a_name := a_name automation; a_prompt := a_prompt automation;
     a_triggerConfig := a_triggerConfig automation;
     a_actionConfig :=
       {| ac_model := ac_model (a_actionConfig automation);
          ac_permissionMode := ac_permissionMode (a_actionConfig automation);
          ac_maxTurns := maxTurns;
          ac_timeoutSeconds := ac_timeoutSeconds (a_actionConfig automation);
          ac_sourceSlugs := ac_sourceSlugs (a_actionConfig automation);
          ac_skillSlugs := skillSlugs;
          ac_workingDirectory := ac_workingDirectory (a_actionConfig automation) |};
     a_enabled := a_enabled automation; a_lastRunAt := a_lastRunAt automation;
     a_nextRunAt := a_nextRunAt automation; a_createdAt := a_createdAt automation;
     a_updatedAt := a_updatedAt automation; a_workspaceId := a_workspaceId automation;
     a_runCount := a_runCount automation; a_lastStatus := a_lastStatus automation |}.

Definition frameWith (automation : Automation) (f : ExecFrame) : ExecFrame :=
  {| f_workspaceId := f_workspaceId f; f_automationId := f_automationId f;
     f_triggerContext := f_triggerContext f; f_workspace := f_workspace f;
     f_automation := automation; f_run := f_run f |}.

Definition sessionFrameWith (automation : Automation) (sf : SessionFrame) : SessionFrame :=
  {| sf_frame := frameWith automation (sf_frame sf); sf_sessionId := sf_sessionId sf;
     sf_updatedRun := sf_updatedRun sf |}.

Definition outcomeWith (automation : Automation) (o : Outcome) : Outcome :=
  match o with
  | AwaitCreateSession f => AwaitCreateSession (frameWith automation f)
  | AwaitSetSessionSources sf => AwaitSetSessionSources (sessionFrameWith automation sf)
  | AwaitSendMessage sf => AwaitSendMessage (sessionFrameWith automation sf)
  | Returned run => Returned run
  | Threw message => Threw message
  end.

(** The trigger kind a callback of the host fires as. *)
Definition firesAs (sub : Subscription) : TriggerType :=
  match sub with
  | CronJob _ _ => schedule
  | GlobalShortcut _ => hotkey
  | FsWatcher _ true => file_change
  | FsWatcher _ false => folder_action
  | PowerMonitorListener _ _ => power_event
  | AppListener _ _ => app_event
  | ClipboardInterval _ _ _ => clipboard
  end.

(** ** Sample data, continued *)

(** A file system that removes what it is asked to, and a parser of dates
    that reads the number after "T+". *)
Definition demoHistory : HistoryHost :=
  {| unlinkSync_ok := λ _ _, true;
     Date_getTime := λ s,
       if String.prefix "T+" s then Some (Z.of_nat (String.length s)) else None |}.

Definition secondAutomation : Automation :=
  {| a_id := "auto-2"; a_name := "Report"; a_prompt := "Write the report";
     a_triggerConfig := TManual; a_actionConfig := demoAction; a_enabled := false;
     a_lastRunAt := None; a_nextRunAt := None; a_createdAt := "T0"; a_updatedAt := "T0";
     a_workspaceId := "ws-1"; a_runCount := 0; a_lastStatus := None |}.

Definition runOf (id automationId : string) : AutomationRun :=
  {| r_id := id; r_automationId := automationId; r_status := success;
     r_startedAt := "T+1"; r_completedAt := Some "T+2"; r_sessionId := Some "sess-0";
     r_summary := None; r_error := None; r_triggeredBy := manual;
     r_triggerContext := None |}.

(** Two automations, each with one run in its history. *)
Definition historyStorage : Storage :=
  {| configFiles := {[ "/work/main" := [demoAutomation; secondAutomation] ]};
     runFiles := {[ ("/work/main", "run-a") := runOf "run-a" "auto-1";
                    ("/work/main", "run-b") := runOf "run-b" "auto-2" ]} |}.

(** The registry with the sample automation on its hotkey. *)
Definition hotkeyRegistry : Registry :=
  register demoTriggerHost demoClock onHotkey newRegistry.


(** A second automation asking for the accelerator of the first. *)
Definition secondOnHotkey : Automation :=
  withTrigger (a_triggerConfig onHotkey) secondAutomation.

(** ** Calls that do not overlap

    A request whose calls to the session manager all fulfil before anything
    else runs, or one of the segments that start no run. *)
Inductive SerialOp :=
  | Start (workspaceId automationId : string) (triggeredBy : TriggerType)
      (triggerContext : option TriggerContext) (sessionId : string)
  | Settle (op : Op).

(** The segments that start no run: they are not a call or a resumption of
    [executeAutomation]. *)
Definition settles (op : Op) : bool :=
  match op with
  | OpExecute _ _ _ _ | OpAfterCreateSession _ _ | OpAfterSetSessionSources _ _
  | OpAfterSendMessage _ _ => false
  | _ => true
  end.

Definition serialStep (h : ManagerHost) (w : World) (op : SerialOp) : World :=
  match op with
  | Start workspaceId automationId triggeredBy triggerContext sessionId =>
      (executeAutomation_fulfilled h workspaceId automationId triggeredBy triggerContext
         sessionId w).1
  | Settle op => if settles op then step h op w else w
  end.

(** ** Triggers of different automations *)

(** The handles a [stop] closure has captured. *)
Definition holds (s : Stop) (handle : nat) : Prop :=
  match s with
  | StopJob job => handle = job
  | StopShortcut _ => False
  | StopWatchers handles | StopListeners handles => handle ∈ handles
  | StopInterval intervalId => handle = intervalId
  end.

(** Every registered trigger releases callbacks of its own automation only:
    what its [stop] releases belongs to its automation, the handles it
    captured were given out before, and a trigger on an accelerator has its
    shortcut registered in the host. *)
Definition exclusive (r : Registry) : Prop :=
  (∀ automationId t handle l,
     JsMap.get automationId (triggers r) = Some t →
     listeners r !! handle = Some l → releases (rt_stop t) handle l →
     a_id (hl_automation l) = automationId)
  ∧ (∀ automationId t handle,
       JsMap.get automationId (triggers r) = Some t → holds (rt_stop t) handle →
       handle < nextHandle r)
  ∧ (∀ automationId t accelerator,
       JsMap.get automationId (triggers r) = Some t →
       rt_stop t = StopShortcut accelerator →
       shortcutTaken accelerator r = true).

(** [r] is [r0] with more callbacks in the host, none of them a shortcut,
    under the handles [handles], and the same table. *)
Definition plain (r0 r : Registry) (handles : list nat) : Prop :=
  triggers r = triggers r0
  ∧ (nextHandle r0 ≤ nextHandle r)%nat
  ∧ (∀ handle, handle < nextHandle r0 → listeners r !! handle = listeners r0 !! handle)
  ∧ (∀ handle l accelerator,
       listeners r !! handle = Some l → (nextHandle r0 ≤ handle)%nat →
       isShortcut accelerator l = false)
  ∧ (∀ handle, handle ∈ handles → (nextHandle r0 ≤ handle)%nat ∧ handle < nextHandle r).

(** What [dispatch] makes of [r0], as to the triggers of others: a new
    shortcut is on an accelerator that was free, and a new trigger captured
    new handles only. *)
Definition apart (automation : Automation) (r0 r : Registry) : Prop :=
  (∀ handle l accelerator,
     listeners r !! handle = Some l → (nextHandle r0 ≤ handle)%nat →
     isShortcut accelerator l = true → shortcutTaken accelerator r0 = false)
  ∧ (triggers r = triggers r0
     ∨ ∃ t, triggers r = JsMap.set (a_id automation) t (triggers r0)
            ∧ (∀ handle, holds (rt_stop t) handle →
                 (nextHandle r0 ≤ handle)%nat ∧ handle < nextHandle r)
            ∧ (∀ accelerator, rt_stop t = StopShortcut accelerator →
                 shortcutTaken accelerator r0 = false
                 ∧ shortcutTaken accelerator r = true)).

(** * Facts *)

(** ** The [Map] operations *)

Section JsMapFacts.
Context {V : Type}.
Implicit Types (m : JsMap.t V) (k : string) (v : V).

Lemma jsmap_get_set_eq k v m : JsMap.get k (JsMap.set k v m) = Some v.
Proof.
  induction m as [|[k' v'] m IH]; simpl.
  - by rewrite String.eqb_refl.
  - destruct (String.eqb k' k) eqn:E; simpl.
    + by rewrite String.eqb_refl.
    + by rewrite E.
Qed.

Lemma jsmap_get_set_ne k k' v m : k ≠ k' → JsMap.get k' (JsMap.set k v m) = JsMap.get k' m.
Proof.
  intros Hne. induction m as [|[k0 v0] m IH]; simpl.
  - destruct (String.eqb k k') eqn:E; [|done].
    apply String.eqb_eq in E. done.
  - destruct (String.eqb k0 k) eqn:E; simpl.
    + apply String.eqb_eq in E. subst k0.
      destruct (String.eqb k k') eqn:E'; [|done].
      apply String.eqb_eq in E'. done.
    + by rewrite IH.
Qed.

Lemma jsmap_get_None_not_in k m : JsMap.get k m = None ↔ k ∉ JsMap.keys m.
Proof.
  induction m as [|[k' v'] m IH]; simpl.
  - split; [intros _; apply not_elem_of_nil | done].
  - rewrite not_elem_of_cons.
    destruct (String.eqb k' k) eqn:E.
    + apply String.eqb_eq in E. subst. split; [done | intros [? _]; done].
    + apply String.eqb_neq in E. rewrite IH. split; [intros ?; split; congruence | intros [_ ?]; done].
Qed.

Lemma jsmap_get_Some_in k v m : JsMap.get k m = Some v → (k, v) ∈ m.
Proof.
  induction m as [|[k' v'] m IH]; simpl; [done|].
  destruct (String.eqb k' k) eqn:E.
  - apply String.eqb_eq in E. intros [= ->]. subst. left.
  - intros H. right. by apply IH.
Qed.

Lemma jsmap_in_get_Some k v m : JsMap.wf m → (k, v) ∈ m → JsMap.get k m = Some v.
Proof.
  unfold JsMap.wf, JsMap.keys. induction m as [|[k' v'] m IH]; simpl.
  - intros _ H. by apply elem_of_nil in H.
  - rewrite NoDup_cons. intros [Hk Hnd] Hin.
    apply elem_of_cons in Hin as [[= -> ->]|Hin].
    + by rewrite String.eqb_refl.
    + destruct (String.eqb k' k) eqn:E.
      * apply String.eqb_eq in E. subst k'. exfalso. apply Hk.
        apply list_elem_of_fmap. by exists (k, v).
      * by apply IH.
Qed.

Lemma jsmap_keys_delete_subseteq k m : JsMap.keys (JsMap.delete k m) ⊆ JsMap.keys m.
Proof.
  unfold JsMap.keys. induction m as [|[k' v'] m IH]; simpl; [done|].
  destruct (String.eqb k' k); simpl.
  - intros x Hx. by right.
  - intros x. rewrite !elem_of_cons. intros [->|Hx]; [by left|right; by apply IH].
Qed.

Lemma jsmap_wf_delete k m : JsMap.wf m → JsMap.wf (JsMap.delete k m).
Proof.
  unfold JsMap.wf. induction m as [|[k' v'] m IH]; simpl; [done|].
  unfold JsMap.keys in *. simpl. rewrite NoDup_cons. intros [Hk Hnd].
  destruct (String.eqb k' k); simpl; [done|].
  rewrite NoDup_cons. split; [|by apply IH].
  intros Hin. apply Hk. by apply (jsmap_keys_delete_subseteq k m).
Qed.

Lemma jsmap_get_delete_eq k m : JsMap.wf m → JsMap.get k (JsMap.delete k m) = None.
Proof.
  unfold JsMap.wf, JsMap.keys. induction m as [|[k' v'] m IH]; simpl; [done|].
  rewrite NoDup_cons. intros [Hk Hnd].
  destruct (String.eqb k' k) eqn:E; simpl.
  - apply String.eqb_eq in E. subst k'. by apply jsmap_get_None_not_in.
  - rewrite E. by apply IH.
Qed.

Lemma jsmap_get_delete_ne k k' m : k ≠ k' → JsMap.get k' (JsMap.delete k m) = JsMap.get k' m.
Proof.
  intros Hne. induction m as [|[k0 v0] m IH]; simpl; [done|].
  destruct (String.eqb k0 k) eqn:E; simpl.
  - apply String.eqb_eq in E. subst k0.
    destruct (String.eqb k k') eqn:E'; [|done].
    apply String.eqb_eq in E'. done.
  - by rewrite IH.
Qed.

Lemma jsmap_delete_absent k m : JsMap.get k m = None → JsMap.delete k m = m.
Proof.
  induction m as [|[k' v'] m IH]; simpl; [done|].
  destruct (String.eqb k' k); [done|]. intros H. by rewrite IH.
Qed.

Lemma jsmap_keys_set k v m :
  JsMap.keys (JsMap.set k v m) = if JsMap.has k m then JsMap.keys m else JsMap.keys m ++ [k].
Proof.
  unfold JsMap.has, JsMap.keys. induction m as [|[k' v'] m IH]; csimpl; [done|].
  destruct (String.eqb k' k) eqn:E; csimpl.
  - apply String.eqb_eq in E. by subst.
  - rewrite IH. by destruct (JsMap.get k m).
Qed.

Lemma jsmap_wf_set k v m : JsMap.wf m → JsMap.wf (JsMap.set k v m).
Proof.
  unfold JsMap.wf. rewrite jsmap_keys_set. unfold JsMap.has.
  destruct (JsMap.get k m) eqn:E; [done|].
  intros Hnd. apply NoDup_app. split_and!; [done| |apply NoDup_singleton].
  intros x Hx. rewrite list_elem_of_singleton. intros ->.
  by apply jsmap_get_None_not_in in E.
Qed.

Lemma jsmap_size_set_fresh k v m : JsMap.get k m = None → JsMap.size (JsMap.set k v m) = S (JsMap.size m).
Proof.
  unfold JsMap.size. induction m as [|[k' v'] m IH]; simpl; [done|].
  destruct (String.eqb k' k); [done|]. intros H. simpl. by rewrite IH.
Qed.
End JsMapFacts.

(** ** Storage *)

Lemma getRun_saveRun_eq workspaceRoot run st :
  getRun workspaceRoot (r_id run) (saveRun workspaceRoot run st) = Some run.
Proof. unfold getRun, saveRun. simpl. apply lookup_insert_eq. Qed.

Lemma getRun_saveRun_ne workspaceRoot run root' runId st :
  (workspaceRoot, r_id run) ≠ (root', runId) →
  getRun root' runId (saveRun workspaceRoot run st) = getRun root' runId st.
Proof. intros Hne. unfold getRun, saveRun. simpl. by apply lookup_insert_ne. Qed.

Lemma runFilesNamed_saveRun workspaceRoot run st :
  runFilesNamed st → runFilesNamed (saveRun workspaceRoot run st).
Proof.
  intros Hst root' runId r.
  destruct (decide ((workspaceRoot, r_id run) = (root', runId))) as [[= <- <-]|Hne].
  - rewrite getRun_saveRun_eq. by intros [= <-].
  - rewrite getRun_saveRun_ne by done. apply Hst.
Qed.

Lemma r_id_spreadRun run updates : r_id (spreadRun run updates) = r_id run.
Proof. done. Qed.

Lemma updateRun_None workspaceRoot runId updates st :
  getRun workspaceRoot runId st = None →
  updateRun workspaceRoot runId updates st = (None, st).
Proof. intros H. unfold updateRun. by rewrite H. Qed.

Lemma updateRun_Some workspaceRoot runId updates st run :
  getRun workspaceRoot runId st = Some run →
  updateRun workspaceRoot runId updates st
  = (Some (spreadRun run updates), saveRun workspaceRoot (spreadRun run updates) st).
Proof. intros H. unfold updateRun. by rewrite H. Qed.

Lemma runFilesNamed_updateRun workspaceRoot runId updates st :
  runFilesNamed st → runFilesNamed (updateRun workspaceRoot runId updates st).2.
Proof.
  intros Hst. unfold updateRun. destruct (getRun workspaceRoot runId st); simpl; [|done].
  by apply runFilesNamed_saveRun.
Qed.

Lemma getRun_updateAutomationAfterRun workspaceRoot automationId run now st root' runId :
  getRun root' runId (updateAutomationAfterRun workspaceRoot automationId run now st)
  = getRun root' runId st.
Proof.
  unfold updateAutomationAfterRun.
  by destruct (findAutomation automationId (loadAutomations workspaceRoot st)) as [[??]|].
Qed.

(** C10: [updateRun] returns [null] and leaves the files as they are when
    no run is stored under the id; otherwise the run it returns is the
    stored one with the fields named in [updates] replaced and every other
    field kept, and that run is what it writes, under the stored run's own
    id, leaving every other file as it is. *)
Theorem updateRun_frame (workspaceRoot runId : string) (updates : RunUpdates)
    (st : Storage) :
  (getRun workspaceRoot runId st = None →
   updateRun workspaceRoot runId updates st = (None, st))
  ∧ (∀ run, getRun workspaceRoot runId st = Some run →
     ∃ updated st',
       updateRun workspaceRoot runId updates st = (Some updated, st')
       ∧ r_status updated
         = match u_status updates with Some v => v | None => r_status run end
       ∧ r_completedAt updated
         = match u_completedAt updates with Some v => v | None => r_completedAt run end
       ∧ r_sessionId updated
         = match u_sessionId updates with Some v => v | None => r_sessionId run end
       ∧ r_summary updated
         = match u_summary updates with Some v => v | None => r_summary run end
       ∧ r_error updated
         = match u_error updates with Some v => v | None => r_error run end
       ∧ r_id updated = r_id run
       ∧ r_automationId updated = r_automationId run
       ∧ r_startedAt updated = r_startedAt run
       ∧ r_triggeredBy updated = r_triggeredBy run
       ∧ r_triggerContext updated = r_triggerContext run
       ∧ getRun workspaceRoot (r_id run) st' = Some updated
       ∧ (∀ root' runId', (root', runId') ≠ (workspaceRoot, r_id run) →
            getRun root' runId' st' = getRun root' runId' st)
       ∧ configFiles st' = configFiles st).
Proof.
  split.
  - apply updateRun_None.
  - intros run Hrun.
    exists (spreadRun run updates), (saveRun workspaceRoot (spreadRun run updates) st).
    rewrite (updateRun_Some _ _ _ _ _ Hrun).
    split_and!; try done.
    + rewrite <- (r_id_spreadRun run updates). apply getRun_saveRun_eq.
    + intros root' runId' Hne. apply getRun_saveRun_ne. simpl. congruence.
Qed.

Lemma findAutomation_Some automationId automations index automation :
  findAutomation automationId automations = Some (index, automation) →
  automations !! index = Some automation ∧ a_id automation = automationId.
Proof.
  unfold findAutomation. intros H. apply list_find_Some in H.
  by destruct H as (? & ? & _).
Qed.

(** Replacing the automation found by one of the same [id] does not move
    what [findIndex] finds, for this id or any other. *)
Lemma findAutomation_insert automationId automations index automation automation' id' :
  findAutomation automationId automations = Some (index, automation) →
  a_id automation' = automationId →
  findAutomation id' (<[index := automation']> automations)
  = (λ p, if decide (p.1 = index) then (index, automation') else p)
      <$> findAutomation id' automations.
Proof.
  unfold findAutomation. intros Hfind Hid.
  apply list_find_Some in Hfind as (Hidx & Hida & Hbefore).
  revert index Hidx Hbefore.
  induction automations as [|a l IH]; intros index Hidx Hbefore; [done|].
  destruct index as [|index]; simpl in *.
  - injection Hidx as ->.
    destruct (decide (a_id automation = id')) as [E1|E1];
      destruct (decide (a_id automation' = id')) as [E2|E2]; simpl; try congruence.
    destruct (list_find _ l) as [[j y]|]; simpl; done.
  - destruct (decide (a_id a = id')) as [E1|E1]; simpl; [done|].
    rewrite (IH index Hidx).
    + destruct (list_find _ l) as [[j y]|]; simpl; [|done].
      destruct (decide (j = index)) as [->|Hj].
      * by rewrite decide_True.
      * rewrite decide_False by lia. done.
    + intros j y Hj Hlt. apply (Hbefore (S j) y); [done | lia].
Qed.

Lemma loadAutomations_saveAutomations workspaceRoot automations st root' :
  loadAutomations root' (saveAutomations workspaceRoot automations st)
  = if decide (workspaceRoot = root') then automations else loadAutomations root' st.
Proof.
  unfold loadAutomations, saveAutomations. simpl.
  rewrite lookup_insert. by case_decide.
Qed.

(** C6: on an automation that exists, [updateAutomationAfterRun] sets
    [lastRunAt] to the run's [completedAt] (its [startedAt] when that is
    null), adds one to [runCount], sets [lastStatus] to success, failure or
    running after the run's status and keeps it for a cancelled run, and
    sets [updatedAt] to the time of the call; every other field of the
    automation, every other automation and every run file stay as they
    are. *)
Theorem updateAutomationAfterRun_aggregates (workspaceRoot automationId : string)
    (run : AutomationRun) (now : string) (st : Storage)
    (index : nat) (automation : Automation) :
  findAutomation automationId (loadAutomations workspaceRoot st) = Some (index, automation) →
  ∃ automation',
    loadAutomations workspaceRoot (updateAutomationAfterRun workspaceRoot automationId run now st)
    = <[index := automation']> (loadAutomations workspaceRoot st)
    ∧ getAutomation workspaceRoot automationId
        (updateAutomationAfterRun workspaceRoot automationId run now st) = Some automation'
    ∧ a_lastRunAt automation'
      = Some (match r_completedAt run with Some t => t | None => r_startedAt run end)
    ∧ a_runCount automation' = (a_runCount automation + 1)%Z
    ∧ a_lastStatus automation'
      = match r_status run with
        | success => Some last_success
        | failure => Some last_failure
        | running => Some last_running
        | cancelled => a_lastStatus automation
        | pending => a_lastStatus automation
        end
    ∧ a_updatedAt automation' = now
    ∧ a_id automation' = a_id automation
    ∧ a_name automation' = a_name automation
    ∧ a_prompt automation' = a_prompt automation
    ∧ a_triggerConfig automation' = a_triggerConfig automation
    ∧ a_actionConfig automation' = a_actionConfig automation
    ∧ a_enabled automation' = a_enabled automation
    ∧ a_nextRunAt automation' = a_nextRunAt automation
    ∧ a_createdAt automation' = a_createdAt automation
    ∧ a_workspaceId automation' = a_workspaceId automation
    ∧ (∀ root', root' ≠ workspaceRoot →
         loadAutomations root' (updateAutomationAfterRun workspaceRoot automationId run now st)
         = loadAutomations root' st)
    ∧ runFiles (updateAutomationAfterRun workspaceRoot automationId run now st) = runFiles st.
Proof.
  intros Hfind. exists (afterRun automation run now).
  pose proof (findAutomation_Some _ _ _ _ Hfind) as [Hidx Hid].
  unfold updateAutomationAfterRun. rewrite Hfind.
  split_and!; try done.
  - rewrite loadAutomations_saveAutomations. by rewrite decide_True.
  - unfold getAutomation. rewrite loadAutomations_saveAutomations, decide_True by done.
    rewrite (findAutomation_insert _ _ _ _ (afterRun automation run now) automationId Hfind Hid).
    rewrite Hfind. simpl. by rewrite decide_True.
  - intros root' Hne. rewrite loadAutomations_saveAutomations. by rewrite decide_False.
Qed.

(** ** Trigger registry *)

Lemma closeAll_lookup handles (ls : gmap nat HostListener) handle :
  closeAll handles ls !! handle = if decide (handle ∈ handles) then None else ls !! handle.
Proof.
  unfold closeAll. induction handles as [|x handles IH]; cbn [foldr].
  - destruct (decide (handle ∈ [])) as [H|]; [by apply elem_of_nil in H | done].
  - destruct (decide (x = handle)) as [->|Hne].
    + rewrite lookup_delete_eq.
      destruct (decide (handle ∈ handle :: handles)) as [|H]; [done|].
      exfalso. apply H. left.
    + rewrite lookup_delete_ne by done. rewrite IH.
      destruct (decide (handle ∈ handles)) as [H1|H1];
        destruct (decide (handle ∈ x :: handles)) as [H2|H2]; try done.
      * exfalso. apply H2. by right.
      * exfalso. apply elem_of_cons in H2 as [->|?]; done.
Qed.

Lemma runStop_lookup_Some s (ls : gmap nat HostListener) handle l :
  runStop s ls !! handle = Some l → ls !! handle = Some l ∧ ¬ releases s handle l.
Proof.
  destruct s as [job|accelerator|handles|handles|intervalId]; simpl.
  - rewrite lookup_delete. case_decide; [done|]. intros ?. split; [done|congruence].
  - rewrite map_lookup_filter_Some. simpl. intros [? Hb]. split; [done|]. by rewrite Hb.
  - rewrite closeAll_lookup. by case_decide.
  - rewrite closeAll_lookup. by case_decide.
  - rewrite lookup_delete. case_decide; [done|]. intros ?. split; [done|congruence].
Qed.

Lemma runStop_lookup_kept s (ls : gmap nat HostListener) handle l :
  ls !! handle = Some l → ¬ releases s handle l → runStop s ls !! handle = Some l.
Proof.
  destruct s as [job|accelerator|handles|handles|intervalId]; simpl; intros Hl Hrel.
  - rewrite lookup_delete_ne; [done | congruence].
  - apply map_lookup_filter_Some. split; [done|]. simpl. by destruct (isShortcut _ _).
  - rewrite closeAll_lookup. by rewrite decide_False.
  - rewrite closeAll_lookup. by rewrite decide_False.
  - rewrite lookup_delete_ne; [done | congruence].
Qed.

Lemma unregister_absent automationId r :
  JsMap.get automationId (triggers r) = None → unregister automationId r = r.
Proof. intros H. unfold unregister. by rewrite H. Qed.

Lemma triggers_unregister automationId r :
  triggers (unregister automationId r) = JsMap.delete automationId (triggers r).
Proof.
  unfold unregister. destruct (JsMap.get automationId (triggers r)) eqn:E; [done|].
  by rewrite jsmap_delete_absent.
Qed.

Lemma nextHandle_unregister automationId r :
  nextHandle (unregister automationId r) = nextHandle r.
Proof. unfold unregister. by case_match. Qed.


Lemma listeners_unregister_Some automationId r handle l :
  listeners (unregister automationId r) !! handle = Some l → listeners r !! handle = Some l.
Proof.
  unfold unregister. case_match; [|done]. simpl. intros Hl.
  by apply runStop_lookup_Some in Hl as [? _].
Qed.

Lemma unregister_idempotent automationId r :
  JsMap.wf (triggers r) →
  unregister automationId (unregister automationId r) = unregister automationId r.
Proof.
  intros Hwf. apply unregister_absent. rewrite triggers_unregister.
  by apply jsmap_get_delete_eq.
Qed.

Lemma consistent_unregister automationId r :
  consistent r → consistent (unregister automationId r).
Proof.
  intros (Hwf & Hlt & Hrel). split_and!.
  - rewrite triggers_unregister. by apply jsmap_wf_delete.
  - intros handle l Hl. rewrite nextHandle_unregister.
    apply (Hlt handle l). by apply (listeners_unregister_Some automationId).
  - intros handle l Hl. rewrite triggers_unregister.
    pose proof (listeners_unregister_Some automationId r handle l Hl) as Hl0.
    destruct (Hrel handle l Hl0) as (t & Ht & Hrt).
    destruct (decide (automationId = a_id (hl_automation l))) as [->|Hne].
    + exfalso. unfold unregister in Hl. rewrite Ht in Hl. simpl in Hl.
      by apply runStop_lookup_Some in Hl as [_ Hnot].
    + exists t. by rewrite jsmap_get_delete_ne.
Qed.

(** After [unregister], no callback of the automation is left in the host. *)
Lemma unregister_releases_all automationId r handle l :
  consistent r →
  listeners (unregister automationId r) !! handle = Some l →
  a_id (hl_automation l) ≠ automationId.
Proof.
  intros Hcons Hl Hid.
  destruct (consistent_unregister automationId r Hcons) as (Hwf & _ & Hrel).
  destruct (Hrel handle l Hl) as (t & Ht & _).
  rewrite Hid, triggers_unregister in Ht.
  destruct Hcons as (Hwf0 & _). by rewrite jsmap_get_delete_eq in Ht.
Qed.

Lemma added_refl automation r0 : bounded r0 → added automation r0 r0 [].
Proof.
  intros Hb. split_and!; try done.
  intros handle l Hl Hge. apply Hb in Hl. lia.
Qed.

Lemma added_logged automation r0 r handles level text args :
  added automation r0 r handles →
  added automation r0 (triggerLogged level text args r) handles.
Proof. done. Qed.

Lemma added_fired automation r0 r handles x :
  added automation r0 r handles → added automation r0 (onTrigger x r) handles.
Proof. done. Qed.

Lemma added_subscribe automation r0 r handles type sub :
  added automation r0 r handles →
  (subscribe automation type sub r).1 = nextHandle r
  ∧ added automation r0 (subscribe automation type sub r).2 (handles ++ [nextHandle r])
  ∧ listeners (subscribe automation type sub r).2 !! nextHandle r
    = Some {| hl_automation := automation; hl_type := type; hl_sub := sub |}.
Proof.
  intros (Ht & Hle & Hold & Hnew). split_and!; try done.
  - split_and!; simpl; try done.
    + lia.
    + intros handle Hlt. rewrite lookup_insert_ne by lia. by apply Hold.
    + intros handle l Hl Hge. rewrite elem_of_app, list_elem_of_singleton.
      destruct (decide (nextHandle r = handle)) as [<-|Hne].
      * rewrite lookup_insert_eq in Hl. injection Hl as <-. simpl.
        split_and!; [done | lia | by right].
      * rewrite lookup_insert_ne in Hl by done.
        destruct (Hnew handle l Hl Hge) as (? & ? & ?). split_and!; [done | lia | by left].
  - simpl. apply lookup_insert_eq.
Qed.

Lemma added_dispatched_none automation r0 r :
  added automation r0 r [] → dispatched automation r0 r.
Proof.
  intros (Ht & Hle & Hold & Hnew). split_and!; try done.
  - intros handle l Hl Hge. destruct (Hnew handle l Hl Hge) as (? & ? & ?). done.
  - left. split; [done|]. intros handle l Hl.
    destruct (decide (handle < nextHandle r0)) as [|Hge]; [done|].
    destruct (Hnew handle l Hl) as (_ & _ & Hin); [lia|]. by apply elem_of_nil in Hin.
Qed.

Lemma added_dispatched_set automation r0 r handles type stop :
  added automation r0 r handles →
  (∀ handle l, listeners r !! handle = Some l → handle ∈ handles →
     releases stop handle l) →
  dispatched automation r0 (setTrigger automation type stop r).
Proof.
  intros (Ht & Hle & Hold & Hnew) Hrel. split_and!; try done.
  - intros handle l Hl Hge. destruct (Hnew handle l Hl Hge) as (? & ? & ?). done.
  - right. eexists. split_and!; [| by rewrite <- Ht |]; [done|].
    intros handle l Hl Hge. simpl. apply Hrel; [done|].
    by destruct (Hnew handle l Hl Hge) as (? & ? & ?).
Qed.

Lemma watchPath_loop h automation r0 paths r handles :
  added automation r0 r handles →
  added automation r0 (foldl (watchPath h automation) (r, handles) paths).1
    (foldl (watchPath h automation) (r, handles) paths).2.
Proof.
  revert r handles. induction paths as [|path paths IH]; intros r handles Hadd; [done|].
  cbn [foldl]. unfold watchPath at 2 4.
  destruct (existsSync h path); simpl; [|by apply IH, added_logged].
  destruct (watch_ok h path); [|by apply IH, added_logged].
  apply IH. by apply added_subscribe.
Qed.

Lemma listenPower_loop automation r0 events r handles :
  added automation r0 r handles →
  added automation r0 (foldl (listenPower automation) (r, handles) events).1
    (foldl (listenPower automation) (r, handles) events).2.
Proof.
  revert r handles. induction events as [|eventName events IH]; intros r handles Hadd;
    [done|].
  cbn [foldl]. unfold listenPower at 2 4.
  destruct (eventMap eventName); [|by apply IH, added_logged].
  apply IH. by apply added_subscribe.
Qed.

Lemma listenApp_loop firedAt automation r0 events r handles k :
  added automation r0 r handles →
  added automation r0 (foldl (listenApp firedAt automation) (r, handles, k) events).1.1
    (foldl (listenApp firedAt automation) (r, handles, k) events).1.2.
Proof.
  revert r handles k. induction events as [|eventName events IH]; intros r handles k Hadd;
    [done|].
  cbn [foldl]. unfold listenApp at 2 4.
  destruct (String.eqb eventName "app-ready"); [by apply IH, added_fired, added_logged|].
  destruct (String.eqb eventName "window-focus"); [apply IH; by apply added_subscribe|].
  destruct (String.eqb eventName "window-blur"); [apply IH; by apply added_subscribe|].
  by apply IH, added_logged.
Qed.

Lemma subscribe_pair automation type sub r :
  subscribe automation type sub r = (nextHandle r, (subscribe automation type sub r).2).
Proof. done. Qed.

Lemma dispatch_dispatched h firedAt automation r0 :
  bounded r0 → dispatched automation r0 (dispatch h firedAt automation r0).
Proof.
  intros Hb. pose proof (added_refl automation r0 Hb) as H0.
  unfold dispatch. destruct (a_triggerConfig automation) as [c|c|c|c| |c|c|c|c| ].
  - (* schedule *)
    unfold registerScheduleTrigger.
    destruct (truthy (sc_cron c)) as [cron|]; [|by apply added_dispatched_none, added_logged].
    destruct (Cron_valid h cron (sc_timezone c));
      [|by apply added_dispatched_none, added_logged].
    destruct (added_subscribe automation r0 r0 [] schedule (CronJob cron (sc_timezone c)) H0)
      as (_ & Hadd & _).
    rewrite subscribe_pair. cbv beta iota.
    apply (added_dispatched_set automation r0 _ [nextHandle r0]); [by apply added_logged|].
    intros handle l _ Hin. simpl. by apply list_elem_of_singleton in Hin.
  - (* file-change *)
    unfold registerFileChangeTrigger.
    destruct (fc_paths c) as [|path paths] eqn:Hpaths;
      [by apply added_dispatched_none, added_logged|].
    pose proof (watchPath_loop h automation r0 (path :: paths) r0 [] H0) as Hloop.
    destruct (foldl _ _ _) as [r1 watchers]. simpl in Hloop.
    destruct watchers as [|w ws]; [by apply added_dispatched_none|].
    apply (added_dispatched_set automation r0 _ (w :: ws)); [by apply added_logged|].
    by intros handle l _ Hin.
  - (* hotkey *)
    unfold registerHotkeyTrigger.
    destruct (String.eqb (hk_accelerator c) ""); [by apply added_dispatched_none, added_logged|].
    destruct (accelerator_valid h (hk_accelerator c)); cbn [negb];
      [|by apply added_dispatched_none, added_logged].
    destruct (negb (shortcutTaken (hk_accelerator c) r0) && accelerator_free h (hk_accelerator c));
      [|by apply added_dispatched_none, added_logged].
    destruct (added_subscribe automation r0 r0 [] hotkey (GlobalShortcut (hk_accelerator c)) H0)
      as (_ & Hadd & Hnew).
    rewrite subscribe_pair. cbv beta iota.
    apply (added_dispatched_set automation r0 _ [nextHandle r0]); [by apply added_logged|].
    intros handle l Hl Hin. apply list_elem_of_singleton in Hin as ->.
    change (listeners (triggerLogged _ _ _ ?r)) with (listeners r) in Hl.
    rewrite Hnew in Hl. injection Hl as <-.
    unfold releases, isShortcut. cbn [rt_stop hl_sub]. apply String.eqb_refl.
  - (* webhook *) by apply added_dispatched_none, added_logged.
  - (* deep-link *) by apply added_dispatched_none, added_logged.
  - (* app-event *)
    unfold registerAppEventTrigger.
    destruct (ae_events c) as [|eventName events] eqn:Hevents;
      [by apply added_dispatched_none, added_logged|].
    pose proof (listenApp_loop firedAt automation r0 (eventName :: events) r0 [] 0 H0) as Hloop.
    destruct (foldl _ _ _) as [[r1 handlers] k]. simpl in Hloop.
    destruct (negb (Nat.eqb (length handlers) 0) || includes "app-ready" (eventName :: events)) eqn:E.
    + apply (added_dispatched_set automation r0 _ handlers); [by apply added_logged|].
      by intros handle l _ Hin.
    + apply orb_false_iff in E as [E _]. apply negb_false_iff, Nat.eqb_eq in E.
      destruct handlers; [|done]. by apply added_dispatched_none.
  - (* power-event *)
    unfold registerPowerEventTrigger.
    destruct (pe_events c) as [|eventName events] eqn:Hevents;
      [by apply added_dispatched_none, added_logged|].
    pose proof (listenPower_loop automation r0 (eventName :: events) r0 [] H0) as Hloop.
    destruct (foldl _ _ _) as [r1 handlers]. simpl in Hloop.
    destruct handlers as [|x xs]; [by apply added_dispatched_none|].
    apply (added_dispatched_set automation r0 _ (x :: xs)); [by apply added_logged|].
    by intros handle l _ Hin.
  - (* clipboard *)
    unfold registerClipboardTrigger.
    set (r1 := match truthy (cb_pattern c), compilePattern h (cb_pattern c) with
               | Some p, None => _
               | _, _ => r0
               end).
    assert (added automation r0 r1 []) as H1.
    { subst r1. destruct (truthy (cb_pattern c)); [|done].
      destruct (compilePattern h (cb_pattern c)); [done|]. by apply added_logged. }
    destruct (added_subscribe automation r0 r1 [] clipboard
                (ClipboardInterval (default 2000%Z (cb_pollIntervalMs c))
                   (clipboard_readText h) (compilePattern h (cb_pattern c))) H1)
      as (_ & Hadd & _).
    cbv zeta. rewrite subscribe_pair. cbv beta iota.
    apply (added_dispatched_set automation r0 _ [nextHandle r1]); [by apply added_logged|].
    intros handle l _ Hin. simpl. by apply list_elem_of_singleton in Hin.
  - (* folder-action *)
    unfold registerFolderActionTrigger.
    destruct (String.eqb (fa_folderPath c) ""); [by apply added_dispatched_none, added_logged|].
    destruct (existsSync h (fa_folderPath c)); cbn [negb];
      [|by apply added_dispatched_none, added_logged].
    destruct (watch_ok h (fa_folderPath c));
      [|by apply added_dispatched_none, added_logged].
    destruct (added_subscribe automation r0 r0 [] folder_action
                (FsWatcher (fa_folderPath c) false) H0) as (_ & Hadd & _).
    rewrite subscribe_pair. cbv beta iota.
    apply (added_dispatched_set automation r0 _ [nextHandle r0]); [by apply added_logged|].
    by intros handle l _ Hin.
  - (* manual *) by apply added_dispatched_none.
Qed.

Lemma consistent_bounded r : consistent r → bounded r.
Proof. by intros (_ & ? & _). Qed.

Lemma consistent_dispatched automation r0 r :
  consistent r0 →
  JsMap.get (a_id automation) (triggers r0) = None →
  dispatched automation r0 r →
  consistent r.
Proof.
  intros (Hwf & Hb & Hrel) Hfree (Hle & Hold & Hnew & Hcases).
  assert (∀ handle l, listeners r !! handle = Some l → handle < nextHandle r0 →
            listeners r0 !! handle = Some l) as Hold'.
  { intros handle l Hl Hlt. by rewrite <- Hold. }
  assert (∀ handle l, listeners r0 !! handle = Some l →
            a_id (hl_automation l) ≠ a_id automation) as Hothers.
  { intros handle l Hl Hid. destruct (Hrel handle l Hl) as (t & Ht & _). congruence. }
  split_and!.
  - destruct Hcases as [[-> _]|(t & _ & -> & _)]; [done | by apply jsmap_wf_set].
  - intros handle l Hl. destruct (decide (handle < nextHandle r0)) as [Hlt|Hge]; [lia|].
    destruct (Hnew handle l Hl) as [_ ?]; [lia | done].
  - intros handle l Hl. destruct (decide (handle < nextHandle r0)) as [Hlt|Hge].
    + pose proof (Hold' handle l Hl Hlt) as Hl0.
      destruct (Hrel handle l Hl0) as (t & Ht & Hrt). exists t. split; [|done].
      destruct Hcases as [[-> _]|(t' & _ & -> & _)]; [done|].
      rewrite jsmap_get_set_ne; [done|]. intros Heq. by apply (Hothers handle l Hl0).
    + destruct Hcases as [[_ Hnone]|(t' & _ & -> & Hrt)].
      * exfalso. apply Hge. by apply (Hnone handle l).
      * destruct (Hnew handle l Hl) as [-> _]; [lia|].
        exists t'. split; [apply jsmap_get_set_eq | apply Hrt; [done | lia]].
Qed.

Lemma consistent_register h firedAt automation r :
  consistent r → consistent (register h firedAt automation r).
Proof.
  intros Hcons. unfold register.
  pose proof (consistent_unregister (a_id automation) r Hcons) as Hcons'.
  apply (consistent_dispatched automation (unregister (a_id automation) r)); [done | |].
  - rewrite triggers_unregister. apply jsmap_get_delete_eq. by destruct Hcons.
  - apply dispatch_dispatched. by apply consistent_bounded.
Qed.

Lemma listeners_stop_all (l : list (string * RegisteredTrigger)) r :
  listeners (foldl (λ acc kv, set_listeners (runStop (rt_stop kv.2)) acc) r l)
  = foldl (λ ls kv, runStop (rt_stop kv.2) ls) (listeners r) l.
Proof. revert r. induction l as [|kv l IH]; intros r; simpl; [done|]. by rewrite IH. Qed.

Lemma stop_all_lookup_Some (l : list (string * RegisteredTrigger))
    (ls : gmap nat HostListener) handle x :
  foldl (λ ls kv, runStop (rt_stop kv.2) ls) ls l !! handle = Some x →
  ls !! handle = Some x ∧ ∀ kv, kv ∈ l → ¬ releases (rt_stop kv.2) handle x.
Proof.
  revert ls. induction l as [|kv l IH]; intros ls; simpl.
  - intros H. split; [done|]. intros kv Hin. by apply elem_of_nil in Hin.
  - intros H. apply IH in H as [H Hl]. apply runStop_lookup_Some in H as [H Hkv].
    split; [done|]. intros kv' Hin. apply elem_of_cons in Hin as [->|Hin]; [done|].
    by apply Hl.
Qed.

Lemma listeners_unregisterAll r : consistent r → listeners (unregisterAll r) = ∅.
Proof.
  intros (Hwf & Hb & Hrel). apply map_eq. intros handle. rewrite lookup_empty.
  unfold unregisterAll. cbn [listeners triggerLogged set_triggers].
  rewrite listeners_stop_all.
  destruct (foldl _ _ _ !! handle) as [x|] eqn:E; [|done]. exfalso.
  apply stop_all_lookup_Some in E as [Hx Hnone].
  destruct (Hrel handle x Hx) as (t & Ht & Hrt).
  apply jsmap_get_Some_in in Ht. by apply (Hnone _ Ht).
Qed.

Lemma consistent_unregisterAll r : consistent r → consistent (unregisterAll r).
Proof.
  intros Hcons. pose proof (listeners_unregisterAll r Hcons) as Hempty.
  split_and!.
  - apply NoDup_nil_2.
  - intros handle l. by rewrite Hempty, lookup_empty.
  - intros handle l. by rewrite Hempty, lookup_empty.
Qed.

Lemma hostSignal_stale h handle s firedAt r :
  listeners r !! handle = None → hostSignal h handle s firedAt r = r.
Proof. intros H. unfold hostSignal. by rewrite H. Qed.

Lemma hostSignal_fires h handle s firedAt r l :
  listeners r !! handle = Some l → answers (hl_sub l) s = true →
  ∃ x, fired (hostSignal h handle s firedAt r) = fired r ++ [x]
       ∧ fire_automationId x = a_id (hl_automation l)
       ∧ fire_workspaceId x = a_workspaceId (hl_automation l).
Proof.
  intros Hl Hans. unfold hostSignal. rewrite Hl.
  destruct (hl_sub l), s; try done; simpl; eauto.
Qed.

Lemma hostSignal_triggers h handle s firedAt r :
  triggers (hostSignal h handle s firedAt r) = triggers r
  ∧ nextHandle (hostSignal h handle s firedAt r) = nextHandle r.
Proof.
  unfold hostSignal. destruct (listeners r !! handle) as [l|]; [|done].
  destruct (hl_sub l), s; try done.
  destruct (clipboardPoll _ _ _ _ _ _) as [last' [x|]]; done.
Qed.

Lemma hostSignal_listeners h handle s firedAt r handle' l' :
  listeners (hostSignal h handle s firedAt r) !! handle' = Some l' →
  ∃ l, listeners r !! handle' = Some l
       ∧ hl_automation l' = hl_automation l
       ∧ (∀ accelerator, isShortcut accelerator l' = isShortcut accelerator l).
Proof.
  unfold hostSignal. destruct (listeners r !! handle) as [l|] eqn:Hl; [|by eauto].
  destruct (hl_sub l) eqn:Hsub, s; try by eauto.
  assert (∀ ls, (<[handle := {| hl_automation := hl_automation l; hl_type := hl_type l;
                                hl_sub := ClipboardInterval pollInterval
                                  (clipboardPoll h (hl_automation l) lastContent regex
                                     currentContent firedAt).1 regex |}]> ls : gmap nat _)
                !! handle' = Some l' → ls = listeners r →
                ∃ l0, listeners r !! handle' = Some l0
                      ∧ hl_automation l' = hl_automation l0
                      ∧ (∀ accelerator, isShortcut accelerator l' = isShortcut accelerator l0))
    as Hins.
  { intros ls Hl' ->. destruct (decide (handle = handle')) as [<-|Hne].
    - rewrite lookup_insert_eq in Hl'. injection Hl' as <-. exists l.
      split_and!; [done..|]. intros accelerator. unfold isShortcut. simpl. by rewrite Hsub.
    - rewrite lookup_insert_ne in Hl' by done. eauto. }
  destruct (clipboardPoll _ _ _ _ _ _) as [last' [x|]] eqn:Hpoll; simpl in *;
    intros Hl'; by apply (Hins (listeners r)).
Qed.

Lemma consistent_hostSignal h handle s firedAt r :
  consistent r → consistent (hostSignal h handle s firedAt r).
Proof.
  intros (Hwf & Hb & Hrel).
  destruct (hostSignal_triggers h handle s firedAt r) as [Ht Hn].
  split_and!.
  - by rewrite Ht.
  - intros handle' l' Hl'. rewrite Hn.
    destruct (hostSignal_listeners _ _ _ _ _ _ _ Hl') as (l & Hl & _). by apply (Hb handle' l).
  - intros handle' l' Hl'. rewrite Ht.
    destruct (hostSignal_listeners _ _ _ _ _ _ _ Hl') as (l & Hl & Hauto & Hshort).
    destruct (Hrel handle' l Hl) as (t & Hget & Hrt).
    exists t. rewrite Hauto. split; [done|].
    destruct (rt_stop t); simpl in *; try done. by rewrite Hshort.
Qed.

Lemma consistent_new : consistent newRegistry.
Proof.
  split_and!; [apply NoDup_nil_2 | |]; intros handle l; simpl; by rewrite lookup_empty.
Qed.

(** At all times the registry and the host agree. *)
Lemma reachable_consistent r : reachable r → consistent r.
Proof.
  induction 1.
  - apply consistent_new.
  - by apply consistent_register.
  - by apply consistent_unregister.
  - by apply consistent_unregisterAll.
  - by apply consistent_hostSignal.
Qed.

Lemma jsmap_no_entry {V} (m : list (string * V)) k :
  k ∉ JsMap.keys m → filter (λ kv, kv.1 = k) m = [].
Proof.
  unfold JsMap.keys. induction m as [|[k' v] m IH]; [done|].
  rewrite fmap_cons, not_elem_of_cons. intros [Hne Hnot].
  rewrite filter_cons. cbn [fst]. rewrite decide_False by done. by apply IH.
Qed.

Lemma jsmap_one_entry {V} (m : list (string * V)) k :
  JsMap.wf m → (length (filter (λ kv, kv.1 = k) m) ≤ 1)%nat.
Proof.
  unfold JsMap.wf, JsMap.keys. induction m as [|[k' v] m IH]; [simpl; lia|].
  rewrite fmap_cons, NoDup_cons. intros [Hfresh Hnd]. rewrite filter_cons. cbn [fst].
  destruct (decide (k' = k)) as [->|Hne]; [|by apply IH].
  rewrite jsmap_no_entry by done. simpl. lia.
Qed.

(** C7: at all times the table holds at most one trigger per automation
    id and every callback in the host is released by the trigger of its
    automation.  [register] unregisters the automation first, so after
    [register(A)] and [register(A')] for one id there is at most one entry
    for the id, every live callback of the id was made by the second call
    for [A'], and the callbacks the first call made are gone: a signal to
    one of them runs nothing, a signal to a live one makes one fire.
    [unregister] is idempotent and does nothing for an id with no trigger. *)
Theorem register_replaces (h1 h2 : TriggerHost) (firedAt1 firedAt2 : nat → string)
    (A A' : Automation) (r : Registry) :
  reachable r →
  a_id A' = a_id A →
  let r1 := register h1 firedAt1 A r in
  let r2 := register h2 firedAt2 A' r1 in
  consistent r
  ∧ (∀ automationId, (length (filter (λ kv, kv.1 = automationId) (triggers r)) ≤ 1)%nat)
  ∧ r2 = dispatch h2 firedAt2 A' (unregister (a_id A') r1)
  ∧ consistent r2
  ∧ (length (filter (λ kv, kv.1 = a_id A) (triggers r2)) ≤ 1)%nat
  ∧ (∀ handle l, listeners r2 !! handle = Some l → a_id (hl_automation l) = a_id A →
       hl_automation l = A' ∧ (nextHandle r1 ≤ handle)%nat)
  ∧ (∀ handle l, listeners r1 !! handle = Some l → a_id (hl_automation l) = a_id A →
       listeners r2 !! handle = None
       ∧ ∀ h s firedAt, hostSignal h handle s firedAt r2 = r2)
  ∧ (∀ h handle l s firedAt,
       listeners r2 !! handle = Some l → answers (hl_sub l) s = true →
       ∃ x, fired (hostSignal h handle s firedAt r2) = fired r2 ++ [x]
            ∧ fire_automationId x = a_id (hl_automation l))
  ∧ (∀ automationId,
       unregister automationId (unregister automationId r) = unregister automationId r)
  ∧ (∀ automationId,
       JsMap.get automationId (triggers r) = None → unregister automationId r = r).
Proof.
  intros Hreach Hid r1 r2.
  pose proof (reachable_consistent r Hreach) as Hcons.
  assert (consistent r1) as Hcons1 by by apply consistent_register.
  assert (consistent r2) as Hcons2 by by apply consistent_register.
  set (r1' := unregister (a_id A') r1).
  assert (consistent r1') as Hcons1' by by apply consistent_unregister.
  assert (dispatched A' r1' r2) as (Hle & Hold & Hnew & _).
  { apply dispatch_dispatched. by apply consistent_bounded. }
  assert (nextHandle r1' = nextHandle r1) as Hnext by apply nextHandle_unregister.
  assert (∀ handle l, listeners r2 !! handle = Some l → a_id (hl_automation l) = a_id A →
            hl_automation l = A' ∧ (nextHandle r1 ≤ handle)%nat) as Hmine.
  { intros handle l Hl Hown.
    destruct (decide (handle < nextHandle r1')) as [Hlt|Hge].
    - exfalso. rewrite Hold in Hl by done.
      apply (unregister_releases_all (a_id A') r1 handle l Hcons1 Hl). congruence.
    - destruct (Hnew handle l Hl) as [-> _]; [lia|]. split; [done | lia]. }
  split_and!; try done.
  - intros automationId. apply jsmap_one_entry. by destruct Hcons.
  - apply jsmap_one_entry. by destruct Hcons2.
  - intros handle l Hl Hown.
    assert (listeners r2 !! handle = None) as Hgone.
    { destruct (listeners r2 !! handle) as [l2|] eqn:Hl2; [|done]. exfalso.
      assert (handle < nextHandle r1) as Hlt by (destruct Hcons1 as (_ & Hb & _); eauto).
      rewrite Hold in Hl2 by lia.
      pose proof (listeners_unregister_Some _ _ _ _ Hl2) as Hl1.
      rewrite Hl in Hl1. injection Hl1 as <-.
      apply (unregister_releases_all (a_id A') r1 handle l Hcons1 Hl2). congruence. }
    split; [done|]. intros h s firedAt. by apply hostSignal_stale.
  - intros h handle l s firedAt Hl Hans.
    destruct (hostSignal_fires h handle s firedAt r2 l Hl Hans) as (x & ? & ? & _). eauto.
  - intros automationId. apply unregister_idempotent. by destruct Hcons.
  - intros automationId. apply unregister_absent.
Qed.

Lemma length_substring_0 n s : (String.length (String.substring 0 n s) ≤ n)%nat.
Proof.
  revert s. induction n as [|n IH]; intros [|c s]; simpl; try lia.
  specialize (IH s). lia.
Qed.

Lemma prefix_substring_0 n s : String.prefix (String.substring 0 n s) s = true.
Proof.
  revert s. induction n as [|n IH]; intros [|c s]; simpl; try done.
  destruct (Ascii.ascii_dec c c); [apply IH | done].
Qed.

Lemma clipboardPoll_fires h automation lastContent regex currentContent firedAt :
  is_Some (clipboardPoll h automation lastContent regex currentContent firedAt).2
  ↔ currentContent ≠ lastContent
    ∧ (regex = None ∨ ∃ p, regex = Some p ∧ RegExp_test h p currentContent = true).
Proof.
  unfold clipboardPoll.
  destruct (String.eqb currentContent lastContent) eqn:Esame.
  - apply String.eqb_eq in Esame. simpl. split; [by intros [? ?] | by intros [? _]].
  - apply String.eqb_neq in Esame.
    destruct regex as [p|]; [destruct (RegExp_test h p currentContent) eqn:Etest|]; simpl.
    + split; [intros _; split; [done | right; eauto] | by eauto].
    + split; [by intros [? ?] | intros [_ [?|(p' & ? & ?)]]; [done | congruence]].
    + split; [intros _; split; [done | by left] | by eauto].
Qed.

Lemma compilePattern_cases h pattern :
  (compilePattern h pattern = None
   ∧ (truthy pattern = None ∨ ∃ p, truthy pattern = Some p ∧ RegExp_valid h p = false))
  ∨ ∃ p, compilePattern h pattern = Some p ∧ truthy pattern = Some p
         ∧ RegExp_valid h p = true.
Proof.
  unfold compilePattern. destruct (truthy pattern) as [p|]; [|left; by eauto].
  destruct (RegExp_valid h p) eqn:E; [right | left]; eauto.
Qed.

(** C8, as the code has it: a poll of the clipboard fires exactly when the
    content differs from the last content seen and no pattern is given, or
    the pattern given does not compile, or the content matches it; the fire
    carries the first 500 characters of the content at most; the content
    polled becomes the last content seen, so polling it again does not fire;
    and this is what the interval of a registered clipboard trigger runs,
    starting from the content of the clipboard at registration. *)
Theorem clipboard_fires_on_new_content (h : TriggerHost) (automation : Automation)
    (config : ClipboardTriggerConfig) (lastContent currentContent firedAt : string) :
  let regex := compilePattern h (cb_pattern config) in
  let poll := clipboardPoll h automation lastContent regex currentContent firedAt in
  (is_Some poll.2
   ↔ currentContent ≠ lastContent
     ∧ (truthy (cb_pattern config) = None
        ∨ (∃ p, truthy (cb_pattern config) = Some p ∧ RegExp_valid h p = false)
        ∨ (∃ p, truthy (cb_pattern config) = Some p ∧ RegExp_valid h p = true
                ∧ RegExp_test h p currentContent = true)))
  ∧ (∀ x, poll.2 = Some x →
       fire_context x = [("content", JStr (String.substring 0 500 currentContent));
                         ("firedAt", JStr firedAt)]
       ∧ (String.length (String.substring 0 500 currentContent) ≤ 500)%nat
       ∧ String.prefix (String.substring 0 500 currentContent) currentContent = true
       ∧ fire_triggeredBy x = clipboard
       ∧ fire_automationId x = a_id automation)
  ∧ poll.1 = currentContent
  ∧ (∀ firedAt', (clipboardPoll h automation poll.1 regex currentContent firedAt').2 = None)
  ∧ (∀ r, listeners (registerClipboardTrigger h automation config r) !! nextHandle r
          = Some {| hl_automation := automation; hl_type := clipboard;
                    hl_sub := ClipboardInterval (default 2000%Z (cb_pollIntervalMs config))
                                (clipboard_readText h) regex |})
  ∧ (∀ r handle l pollInterval,
       listeners r !! handle = Some l →
       hl_automation l = automation →
       hl_sub l = ClipboardInterval pollInterval lastContent regex →
       let r' := hostSignal h handle (IntervalTick currentContent) firedAt r in
       fired r' = fired r ++ match poll.2 with Some x => [x] | None => [] end
       ∧ ∃ l', listeners r' !! handle = Some l'
               ∧ hl_sub l' = ClipboardInterval pollInterval poll.1 regex).
Proof.
  intros regex poll. split_and!.
  - subst poll. rewrite clipboardPoll_fires.
    destruct (compilePattern_cases h (cb_pattern config))
      as [[Hre Hwhy]|(p & Hre & Hp & Hvalid)]; fold regex in Hre; rewrite Hre.
    + split; [intros [? _]; split; [done|]; destruct Hwhy; by eauto|].
      intros [? _]. split; [done | by left].
    + split.
      * intros [? [?|(p' & [= <-] & ?)]]; [done|]. split; [done|]. right. right. eauto.
      * intros [? [Hnone|[(p' & Hp' & Hinvalid)|(p' & Hp' & _ & Htest)]]];
          (split; [done|]); [congruence | congruence |].
        right. exists p. split; [done|]. congruence.
  - intros x Hx. subst poll. unfold clipboardPoll in Hx.
    destruct (String.eqb currentContent lastContent); [done|].
    destruct (match regex with Some p => _ | None => _ end); [done|].
    simpl in Hx. injection Hx as <-. simpl.
    split_and!; try done; [apply length_substring_0 | apply prefix_substring_0].
  - subst poll. unfold clipboardPoll.
    destruct (String.eqb currentContent lastContent) eqn:E.
    + simpl. symmetry. by apply String.eqb_eq.
    + by destruct (match regex with Some p => _ | None => _ end).
  - intros firedAt'.
    assert (poll.1 = currentContent) as ->.
    { subst poll. unfold clipboardPoll.
      destruct (String.eqb currentContent lastContent) eqn:E.
      - simpl. symmetry. by apply String.eqb_eq.
      - by destruct (match regex with Some p => _ | None => _ end). }
    unfold clipboardPoll. by rewrite String.eqb_refl.
  - intros r. unfold registerClipboardTrigger.
    fold regex. destruct (truthy (cb_pattern config)), regex; simpl; apply lookup_insert_eq.
  - intros r handle l pollInterval Hl Hauto Hsub r'. subst r'.
    unfold hostSignal. rewrite Hl, Hsub, Hauto. fold poll.
    destruct poll as [last' [x|]]; simpl.
    + split; [done|]. eexists. split; [apply lookup_insert_eq | done].
    + split; [by rewrite app_nil_r|]. eexists. split; [apply lookup_insert_eq | done].
Qed.

(** C8, as stated, fails: with a pattern that does not compile the trigger
    fires on new content, although a pattern is configured and the content
    does not match it. *)
Lemma clipboard_fires_when_pattern_is_invalid :
  let config := {| cb_pattern := Some "("; cb_pollIntervalMs := None |} in
  let regex := compilePattern demoTriggerHost (cb_pattern config) in
  is_Some (clipboardPoll demoTriggerHost demoAutomation "copied before" regex
             "copied now" "T+1").2
  ∧ ¬ ("copied now" ≠ "copied before"
       ∧ (cb_pattern config = None
          ∨ ∃ p, cb_pattern config = Some p
                 ∧ RegExp_valid demoTriggerHost p = true
                 ∧ RegExp_test demoTriggerHost p "copied now" = true)).
Proof.
  simpl. split; [by eexists|].
  intros [_ [?|(p & [= <-] & Hvalid & _)]]; [done|]. vm_compute in Hvalid. done.
Qed.

(** ** Run manager *)

(** C1: when the workspace and the automation resolve and the active-run
    table already holds [maxConcurrentRuns] entries or more,
    [executeAutomation] throws before [createRun]: the world it leaves,
    files and tables alike, is the world it found. *)
Theorem executeAutomation_admission (h : ManagerHost) (workspaceId automationId : string)
    (triggeredBy : TriggerType) (triggerContext : option TriggerContext) (w : World)
    (workspace : Workspace) (automation : Automation) :
  getWorkspaceByNameOrId h workspaceId = Some workspace →
  getAutomation (ws_rootPath workspace) automationId (storage w) = Some automation →
  (maxConcurrentRuns ≤ JsMap.size (activeRuns w))%nat →
  ∃ message,
    executeAutomation h workspaceId automationId triggeredBy triggerContext w
    = (w, Threw message)
    ∧ step h (OpExecute workspaceId automationId triggeredBy triggerContext) w = w.
Proof.
  intros Hws Hauto Hfull. unfold step, executeAutomation.
  rewrite Hws, Hauto. rewrite decide_True by done. eauto.
Qed.

(** What [completeRun] does to each part of the world. *)
Lemma completeRun_inactive h runId status error_ w :
  JsMap.get runId (activeRuns w) = None → completeRun h runId status error_ w = w.
Proof. intros H. unfold completeRun. by rewrite H. Qed.

Lemma completeRun_activeRuns h runId status error_ w :
  activeRuns (completeRun h runId status error_ w) = JsMap.delete runId (activeRuns w).
Proof.
  unfold completeRun. destruct (JsMap.get runId (activeRuns w)) eqn:E.
  - manager_cases.
  - by rewrite jsmap_delete_absent.
Qed.

Lemma completeRun_sessionCalls h runId status error_ w :
  sessionCalls (completeRun h runId status error_ w) = sessionCalls w.
Proof. unfold completeRun. manager_cases. Qed.

Lemma completeRun_timers h runId status error_ w active :
  JsMap.get runId (activeRuns w) = Some active →
  timers (completeRun h runId status error_ w)
  = match ar_timeoutTimer active with Some t => delete t (timers w) | None => timers w end.
Proof. intros H. unfold completeRun. rewrite H. manager_cases. Qed.

Lemma completeRun_getRun h runId status error_ w active stored :
  JsMap.get runId (activeRuns w) = Some active →
  getRun (ar_workspaceRoot active) runId (storage w) = Some stored →
  r_id stored = runId →
  getRun (ar_workspaceRoot active) runId (storage (completeRun h runId status error_ w))
  = Some (finished (statusOf status) (toISOString h (Date_now h (clockReads w)))
            (truthy error_) stored).
Proof.
  intros Hactive Hstored <-. unfold completeRun. rewrite Hactive.
  manager_unfold. simpl. rewrite (updateRun_Some _ _ _ _ _ Hstored). simpl.
  repeat (case_match; simpl); rewrite ?getRun_updateAutomationAfterRun;
    apply (getRun_saveRun_eq _ (spreadRun stored _)).
Qed.

(** C5: a run that is recorded as running has a timeout of
    [(timeoutSeconds || 300) * 1000] milliseconds pending, held by its entry
    in the active-run table; when that timeout expires while the run is still
    active, cancellation of its session is requested, the run is recorded as
    a failure with the error "Automation timed out", and its entry leaves
    the table; a rejection of the cancellation adds a line to the log and
    nothing else. *)
Theorem timeout_enforced (h : ManagerHost) :
  (∀ (f : ExecFrame) (sessionId : string) (w : World) (stored : AutomationRun),
     getRun (ws_rootPath (f_workspace f)) (r_id (f_run f)) (storage w) = Some stored →
     let w' := (executeAutomation_afterCreateSession h f (Fulfilled sessionId) w).1 in
     let seconds := match ac_timeoutSeconds (a_actionConfig (f_automation f)) with
                    | Some 0%Z | None => 300%Z
                    | Some n => n
                    end in
     (r_status <$> getRun (ws_rootPath (f_workspace f)) (r_id stored) (storage w'))
     = Some running
     ∧ timers w' !! nextTimer w = Some (r_id (f_run f), (seconds * 1000)%Z)
     ∧ ∃ active,
         JsMap.get (r_id (f_run f)) (activeRuns w') = Some active
         ∧ ar_timeoutTimer active = Some (nextTimer w)
         ∧ ar_sessionId active = sessionId)
  ∧ (∀ (timer : nat) (runId : string) (delay : Z) (active : ActiveRun) (w : World),
       JsMap.wf (activeRuns w) →
       timers w !! timer = Some (runId, delay) →
       JsMap.get runId (activeRuns w) = Some active →
       let w' := timerExpires h timer w in
       sessionCalls w' = sessionCalls w ++ [cancelProcessing (ar_sessionId active)]
       ∧ JsMap.get runId (activeRuns w') = None
       ∧ timers w' !! timer = None
       ∧ (∀ stored,
            getRun (ar_workspaceRoot active) runId (storage w) = Some stored →
            r_id stored = runId →
            ∃ updated,
              getRun (ar_workspaceRoot active) runId (storage w') = Some updated
              ∧ r_status updated = failure
              ∧ r_error updated = Some "Automation timed out"
              ∧ is_Some (r_completedAt updated))
       ∧ (∀ message,
            let w'' := handleTimeout_cancelRejected message w' in
            storage w'' = storage w'
            ∧ activeRuns w'' = activeRuns w'
            ∧ sessionToRun w'' = sessionToRun w'
            ∧ timers w'' = timers w'
            ∧ sessionCalls w'' = sessionCalls w'
            ∧ broadcasts w'' = broadcasts w'
            ∧ ∃ line, log w'' = log w' ++ [line] ∧ log_level line = error)).
Proof.
  split.
  - intros f sessionId w stored Hstored w' seconds. subst w'.
    unfold executeAutomation_afterCreateSession. manager_unfold.
    rewrite (updateRun_Some _ _ _ _ _ Hstored). simpl.
    assert (Hsec : orNumber (ac_timeoutSeconds (a_actionConfig (f_automation f))) 300
                   = seconds).
    { subst seconds. unfold orNumber.
      destruct (ac_timeoutSeconds _) as [[| |]|]; done. }
    rewrite Hsec.
    split_and!.
    + unfold executeAutomation_send.
      repeat (case_match; simpl);
        by rewrite (getRun_saveRun_eq _ (spreadRun stored _)).
    + unfold executeAutomation_send.
      repeat (case_match; simpl); by rewrite lookup_insert_eq.
    + eexists. unfold executeAutomation_send.
      repeat (case_match; simpl); rewrite jsmap_get_set_eq; done.
  - intros timer runId delay active w Hwf Htimer Hactive w'. subst w'.
    unfold timerExpires. rewrite Htimer. unfold handleTimeout. simpl.
    rewrite Hactive. manager_unfold.
    split_and!.
    + by rewrite completeRun_sessionCalls.
    + rewrite completeRun_activeRuns. simpl. by apply jsmap_get_delete_eq.
    + erewrite completeRun_timers by (simpl; done). simpl.
      destruct (ar_timeoutTimer active) as [t|]; [|apply lookup_delete_eq].
      destruct (decide (t = timer)) as [->|Hne]; [apply lookup_delete_eq|].
      rewrite lookup_delete_ne by done. apply lookup_delete_eq.
    + intros stored Hstored Hid. eexists.
      split; [by apply (completeRun_getRun _ _ _ _ _ active stored)|].
      simpl. eauto.
    + intros message. unfold handleTimeout_cancelRejected, logged. simpl.
      split_and!; try done. eexists. split; done.
Qed.

Lemma recordRun_getRun h workspaceRoot automationId run w root' runId :
  getRun root' runId (storage (recordRun h workspaceRoot automationId run w))
  = getRun root' runId (storage w).
Proof.
  unfold recordRun. manager_unfold. case_match; simpl; [|done].
  apply getRun_updateAutomationAfterRun.
Qed.

Lemma recordRun_runFilesNamed h workspaceRoot automationId run w :
  runFilesNamed (storage w) →
  runFilesNamed (storage (recordRun h workspaceRoot automationId run w)).
Proof. intros H ???. rewrite recordRun_getRun. apply H. Qed.

Lemma cleanupRun_getRun h w runId active root' runId' :
  runFilesNamed (storage w) →
  getRun root' runId' (storage (cleanupRun h w (runId, active)))
  = if decide ((root', runId') = (ar_workspaceRoot active, runId))
    then shutDown (toISOString h (Date_now h (clockReads w))) <$> getRun root' runId' (storage w)
    else getRun root' runId' (storage w).
Proof.
  intros Hnamed. unfold cleanupRun, storeUpdate, isoNow, readClock.
  destruct (getRun (ar_workspaceRoot active) runId (storage w)) as [stored|] eqn:Hstored.
  - assert (storage (clearTimeout (ar_timeoutTimer active) w) = storage w) as Hst
      by (by destruct (ar_timeoutTimer active)).
    assert (clockReads (clearTimeout (ar_timeoutTimer active) w) = clockReads w) as Hck
      by (by destruct (ar_timeoutTimer active)).
    unfold clearTimeout in *.
    pose proof (Hnamed _ _ _ Hstored) as Hid.
    destruct (ar_timeoutTimer active); simpl in *;
      rewrite (updateRun_Some _ _ _ _ _ Hstored); simpl;
      rewrite recordRun_getRun; simpl;
      (case_decide as Hkey; [injection Hkey as -> ->; rewrite Hstored; simpl; subst runId;
                             apply (getRun_saveRun_eq _ (spreadRun stored _))
                            | apply getRun_saveRun_ne; simpl; congruence]).
  - unfold clearTimeout.
    destruct (ar_timeoutTimer active); simpl;
      rewrite (updateRun_None _ _ _ _ Hstored); simpl;
      (case_decide as Hkey; [injection Hkey as -> ->; by rewrite Hstored | done]).
Qed.

Lemma cleanupRun_runFilesNamed h w entry :
  runFilesNamed (storage w) → runFilesNamed (storage (cleanupRun h w entry)).
Proof.
  intros Hnamed root' runId' r. destruct entry as [runId active].
  rewrite cleanupRun_getRun by done.
  case_decide as Hkey; [|apply Hnamed].
  destruct (getRun root' runId' (storage w)) as [stored|] eqn:E; simpl; [|done].
  intros [= <-]. simpl. by apply (Hnamed root').
Qed.

Lemma cleanupRun_tables h w entry :
  activeRuns (cleanupRun h w entry) = activeRuns w
  ∧ sessionToRun (cleanupRun h w entry) = sessionToRun w
  ∧ triggerRegistry (cleanupRun h w entry) = triggerRegistry w
  ∧ sessionCalls (cleanupRun h w entry) = sessionCalls w
  ∧ listening (cleanupRun h w entry) = listening w.
Proof.
  destruct entry as [runId active]. unfold cleanupRun, recordRun. manager_unfold.
  repeat (case_match; simplify_eq/=); split_and!; done.
Qed.

(** The run files after the loop of [cleanup] over the entries [l]. *)
Lemma cleanup_loop_getRun h (l : list (string * ActiveRun)) w root' runId' :
  NoDup l.*1 →
  runFilesNamed (storage w) →
  (∀ active, (runId', active) ∈ l → ar_workspaceRoot active = root' →
     ∃ t, getRun root' runId' (storage (foldl (cleanupRun h) w l))
          = shutDown t <$> getRun root' runId' (storage w))
  ∧ ((∀ active, (runId', active) ∈ l → ar_workspaceRoot active ≠ root') →
     getRun root' runId' (storage (foldl (cleanupRun h) w l))
     = getRun root' runId' (storage w)).
Proof.
  revert w. induction l as [|[runId active] l IH]; intros w Hnd Hnamed; cbn [foldl].
  - split; [intros ? H; by apply elem_of_nil in H | done].
  - apply NoDup_cons in Hnd as [Hfresh Hnd].
    specialize (IH (cleanupRun h w (runId, active)) Hnd
                  (cleanupRun_runFilesNamed _ _ _ Hnamed)) as [IHin IHout].
    split.
    + intros a Hin Hroot. apply elem_of_cons in Hin as [[= <- <-]|Hin].
      * exists (toISOString h (Date_now h (clockReads w))).
        rewrite IHout.
        -- rewrite cleanupRun_getRun by done. by rewrite decide_True by (by subst).
        -- intros a' Hin'. exfalso. apply Hfresh.
           apply list_elem_of_fmap. by exists (runId', a').
      * destruct (IHin a Hin Hroot) as [t Ht]. exists t. rewrite Ht.
        rewrite cleanupRun_getRun by done. rewrite decide_False; [done|].
        intros [= _ ->]. apply Hfresh. apply list_elem_of_fmap. by exists (runId, a).
    + intros Hout. rewrite IHout.
      * rewrite cleanupRun_getRun by done. rewrite decide_False; [done|].
        intros [= Hr ->]. by apply (Hout active); [left|].
      * intros a' Hin'. apply Hout. by right.
Qed.

Lemma getAutomation_saveRun workspaceRoot run st root' automationId :
  getAutomation root' automationId (saveRun workspaceRoot run st)
  = getAutomation root' automationId st.
Proof. done. Qed.

Lemma getAutomation_updateAutomationAfterRun workspaceRoot automationId run now st root' id' :
  getAutomation root' id' (updateAutomationAfterRun workspaceRoot automationId run now st)
  = if decide (root' = workspaceRoot ∧ id' = automationId)
    then (λ a, afterRun a run now) <$> getAutomation root' id' st
    else getAutomation root' id' st.
Proof.
  unfold updateAutomationAfterRun.
  destruct (findAutomation automationId (loadAutomations workspaceRoot st))
    as [[index automation]|] eqn:Hfind.
  - pose proof (findAutomation_Some _ _ _ _ Hfind) as [Hidx Hid].
    unfold getAutomation at 1. rewrite loadAutomations_saveAutomations.
    destruct (decide (workspaceRoot = root')) as [<-|Hroot].
    + rewrite (findAutomation_insert _ _ _ _ (afterRun automation run now) id' Hfind Hid).
      unfold getAutomation.
      destruct (decide (id' = automationId)) as [->|Hne].
      * rewrite decide_True by done. rewrite Hfind. simpl. by rewrite decide_True.
      * rewrite decide_False by (intros [_ ?]; done).
        destruct (findAutomation id' (loadAutomations workspaceRoot st))
          as [[j b]|] eqn:Hfind'; simpl; [|done].
        rewrite decide_False; [done|]. intros ->.
        apply findAutomation_Some in Hfind' as [Hj Hb]. congruence.
    + rewrite decide_False by (intros [? _]; done). done.
  - case_decide as Hkey; [|done]. destruct Hkey as [-> ->].
    unfold getAutomation. by rewrite Hfind.
Qed.

Lemma recordRun_getAutomation h workspaceRoot automationId run w root' id' :
  getAutomation root' id' (storage (recordRun h workspaceRoot automationId run w))
  = if decide (root' = workspaceRoot ∧ id' = automationId)
    then (λ a, afterRun a run (toISOString h (Date_now h (clockReads w))))
           <$> getAutomation root' id' (storage w)
    else getAutomation root' id' (storage w).
Proof.
  unfold recordRun, isoNow, readClock.
  destruct (findAutomation automationId (loadAutomations workspaceRoot (storage w)))
    as [[index automation]|] eqn:Hfind; simpl.
  - apply getAutomation_updateAutomationAfterRun.
  - case_decide as Hkey; [|done]. destruct Hkey as [-> ->].
    unfold getAutomation. by rewrite Hfind.
Qed.

Lemma ranMore_0 a : ranMore 0 a a.
Proof. unfold ranMore. split_and!; try done. simpl. lia. Qed.

Lemma ranMore_trans n m a b c : ranMore n a b → ranMore m b c → ranMore (n + m) a c.
Proof.
  unfold ranMore. intros (?&?&?&?&?&?&?&?&?&?&?) (?&?&?&?&?&?&?&?&?&?&?).
  split_and!; try congruence. lia.
Qed.

Lemma cleanupRun_getAutomation h w entry root' id' :
  match getAutomation root' id' (storage w) with
  | None => getAutomation root' id' (storage (cleanupRun h w entry)) = None
  | Some a =>
      ∃ a', getAutomation root' id' (storage (cleanupRun h w entry)) = Some a'
            ∧ ranMore (if cancelledFor root' id' (storage w) entry then 1 else 0) a a'
  end.
Proof.
  destruct entry as [runId active]. unfold cancelledFor. simpl.
  unfold cleanupRun, storeUpdate, isoNow, readClock.
  assert (storage (clearTimeout (ar_timeoutTimer active) w) = storage w) as Hst
    by (by destruct (ar_timeoutTimer active)).
  set (w0 := clearTimeout (ar_timeoutTimer active) w) in *.
  destruct (getRun (ar_workspaceRoot active) runId (storage w)) as [stored|] eqn:Hstored.
  - simpl. rewrite Hst. rewrite (updateRun_Some _ _ _ _ _ Hstored). cbn [fst snd].
    rewrite recordRun_getAutomation. cbn [storage set_storage].
    rewrite getAutomation_saveRun.
    destruct (getAutomation root' id' (storage w)) as [a|] eqn:Ha.
    + case_decide as Hkey.
      * destruct Hkey as [-> ->]. eexists. split; [done|].
        rewrite bool_decide_true by (split_and!; [done..|by rewrite Hstored]).
        unfold ranMore. simpl. split_and!; try done.
      * eexists. split; [done|].
        rewrite bool_decide_false; [apply ranMore_0|].
        intros (?&?&?). apply Hkey. by split.
    + by case_decide.
  - simpl. rewrite Hst. rewrite (updateRun_None _ _ _ _ Hstored). cbn [fst snd storage set_storage].
    destruct (getAutomation root' id' (storage w)) as [a|] eqn:Ha.
    + eexists. split; [done|].
      rewrite bool_decide_false; [apply ranMore_0|].
      intros (<-&?&Hsome). rewrite Hstored in Hsome. by destruct Hsome.
    + done.
Qed.

Lemma cancelledFor_cleanupRun h w entry root' id' entry' :
  runFilesNamed (storage w) →
  cancelledFor root' id' (storage (cleanupRun h w entry)) entry'
  = cancelledFor root' id' (storage w) entry'.
Proof.
  intros Hnamed. unfold cancelledFor. destruct entry as [runId active].
  apply bool_decide_ext. rewrite cleanupRun_getRun by done.
  case_decide; [|done]. by rewrite fmap_is_Some.
Qed.

Lemma cleanup_loop_getAutomation h (l : list (string * ActiveRun)) w root' id' :
  runFilesNamed (storage w) →
  match getAutomation root' id' (storage w) with
  | None => getAutomation root' id' (storage (foldl (cleanupRun h) w l)) = None
  | Some a =>
      ∃ a', getAutomation root' id' (storage (foldl (cleanupRun h) w l)) = Some a'
            ∧ ranMore (length (filter (λ e, cancelledFor root' id' (storage w) e = true) l))
                a a'
  end.
Proof.
  revert w. induction l as [|entry l IH]; intros w Hnamed; cbn [foldl].
  - destruct (getAutomation root' id' (storage w)) as [a|]; [|done].
    exists a. split; [done|apply ranMore_0].
  - pose proof (cleanupRun_getAutomation h w entry root' id') as Hstep.
    specialize (IH (cleanupRun h w entry) (cleanupRun_runFilesNamed _ _ _ Hnamed)).
    destruct (getAutomation root' id' (storage w)) as [a|].
    + destruct Hstep as (a1 & Ha1 & Hran1). rewrite Ha1 in IH.
      destruct IH as (a2 & Ha2 & Hran2). exists a2. split; [done|].
      rewrite filter_cons.
      erewrite (list_filter_iff _ (λ e, cancelledFor root' id' (storage w) e = true)) in Hran2
        by (intros e; by rewrite cancelledFor_cleanupRun).
      destruct (cancelledFor root' id' (storage w) entry) eqn:E.
      * rewrite decide_True by done. simpl. by apply (ranMore_trans 1 _ a a1 a2).
      * rewrite decide_False by done. by apply (ranMore_trans 0 _ a a1 a2).
    + by rewrite Hstep in IH.
Qed.

Lemma handleSessionEvent_no_sessions h event w :
  sessionToRun w = JsMap.empty → handleSessionEvent h event w = w.
Proof.
  intros Hempty. unfold handleSessionEvent. rewrite Hempty.
  case_match; [done|]. by case_match.
Qed.

Lemma cleanup_loop_tables h (l : list (string * ActiveRun)) w :
  triggerRegistry (foldl (cleanupRun h) w l) = triggerRegistry w.
Proof.
  revert w. induction l as [|entry l IH]; intros w; cbn [foldl]; [done|].
  rewrite IH. apply cleanupRun_tables.
Qed.

Lemma triggers_unregisterAll r : triggers (unregisterAll r) = JsMap.empty.
Proof. done. Qed.

(** C9: [cleanup] unregisters every trigger; every run of the active-run
    table whose file exists is then recorded as cancelled with the error
    "App shutting down" and counted in the statistics of its automation,
    whose [lastStatus] stays; the two tables are emptied and the listener
    is detached, so that no later event of the session manager changes
    anything.  When the registry and the host agreed, no callback of a
    trigger is left in the host. *)
Theorem cleanup_cancels_active_runs (h : ManagerHost) (w : World) :
  JsMap.wf (activeRuns w) →
  runFilesNamed (storage w) →
  let w' := cleanup h w in
  triggerRegistry w' = unregisterAll (triggerRegistry w)
  ∧ triggers (triggerRegistry w') = JsMap.empty
  ∧ (consistent (triggerRegistry w) → listeners (triggerRegistry w') = ∅)
  ∧ (∀ runId active stored,
       JsMap.get runId (activeRuns w) = Some active →
       getRun (ar_workspaceRoot active) runId (storage w) = Some stored →
       ∃ updated,
         getRun (ar_workspaceRoot active) runId (storage w') = Some updated
         ∧ r_status updated = cancelled
         ∧ r_error updated = Some "App shutting down"
         ∧ is_Some (r_completedAt updated)
         ∧ r_id updated = r_id stored
         ∧ r_automationId updated = r_automationId stored
         ∧ r_startedAt updated = r_startedAt stored
         ∧ r_sessionId updated = r_sessionId stored
         ∧ r_summary updated = r_summary stored
         ∧ r_triggeredBy updated = r_triggeredBy stored
         ∧ r_triggerContext updated = r_triggerContext stored)
  ∧ (∀ workspaceRoot automationId automation,
       getAutomation workspaceRoot automationId (storage w) = Some automation →
       ∃ automation',
         getAutomation workspaceRoot automationId (storage w') = Some automation'
         ∧ a_runCount automation'
           = (a_runCount automation
              + Z.of_nat (length (filter
                                    (λ e, cancelledFor workspaceRoot automationId
                                            (storage w) e = true)
                                    (activeRuns w))))%Z
         ∧ a_lastStatus automation' = a_lastStatus automation)
  ∧ activeRuns w' = JsMap.empty
  ∧ sessionToRun w' = JsMap.empty
  ∧ listening w' = false
  ∧ (∀ event, sessionEmits h event w' = w' ∧ handleSessionEvent h event w' = w').
Proof.
  intros Hwf Hnamed w'. subst w'. unfold cleanup.
  set (w0 := set_triggerRegistry unregisterAll (logged info _ _ w)).
  assert (storage w0 = storage w) as Hst by done.
  assert (activeRuns w0 = activeRuns w) as Hact by done.
  assert (runFilesNamed (storage w0)) as Hnamed0 by by rewrite Hst.
  cbn [triggerRegistry set_listening set_sessionToRun set_activeRuns storage
       activeRuns sessionToRun listening].
  rewrite cleanup_loop_tables.
  split_and!; try done.
  - apply listeners_unregisterAll.
  - intros runId active stored Hactive Hstored.
    destruct (cleanup_loop_getRun h (activeRuns w0) w0 (ar_workspaceRoot active) runId)
      as [Hin _]; [by rewrite Hact | done |].
    destruct (Hin active) as [t Ht]; [rewrite Hact; by apply jsmap_get_Some_in | done |].
    rewrite Hst, Hstored in Ht. eexists. split; [exact Ht|]. simpl. split_and!; eauto.
  - intros workspaceRoot automationId automation Hauto.
    pose proof (cleanup_loop_getAutomation h (activeRuns w0) w0 workspaceRoot automationId
                  Hnamed0) as Hloop.
    rewrite Hst, Hauto in Hloop. destruct Hloop as (a' & Ha' & Hran).
    exists a'. split; [done|]. rewrite Hact in Hran.
    destruct Hran as (Hcount & Hlast & _). by split.
  - intros event. split; [done|]. by apply handleSessionEvent_no_sessions.
Qed.

Lemma noNewRunning_refl st : noNewRunning st st.
Proof. intros ??? H ?. eauto. Qed.

Lemma noNewRunning_trans st1 st2 st3 :
  noNewRunning st1 st2 → noNewRunning st2 st3 → noNewRunning st1 st3.
Proof.
  intros H12 H23 root runId r3 Hr3 Hs3.
  destruct (H23 _ _ _ Hr3 Hs3) as (r2 & Hr2 & Hs2). eauto.
Qed.

Lemma noNewRunning_saveRun workspaceRoot run st :
  r_status run ≠ running → noNewRunning st (saveRun workspaceRoot run st).
Proof.
  intros Hstatus root' runId r'.
  destruct (decide ((workspaceRoot, r_id run) = (root', runId))) as [[= <- <-]|Hne].
  - rewrite getRun_saveRun_eq. intros [= <-]. done.
  - rewrite getRun_saveRun_ne by done. eauto.
Qed.

Lemma noNewRunning_updateRun workspaceRoot runId updates st status :
  u_status updates = Some status → status ≠ running →
  noNewRunning st (updateRun workspaceRoot runId updates st).2.
Proof.
  intros Hu Hstatus. unfold updateRun.
  destruct (getRun workspaceRoot runId st); simpl; [|apply noNewRunning_refl].
  apply noNewRunning_saveRun. simpl. by rewrite Hu.
Qed.

Lemma noNewRunning_recordRun h workspaceRoot automationId run w :
  noNewRunning (storage w) (storage (recordRun h workspaceRoot automationId run w)).
Proof. intros ???. rewrite recordRun_getRun. eauto. Qed.

(** Steps that leave the files as they are. *)
Lemma noNewRunning_same st st' : runFiles st' = runFiles st → noNewRunning st st'.
Proof. intros E ???. unfold getRun. rewrite E. eauto. Qed.

Lemma storage_completeRun h runId status error_ w :
  noNewRunning (storage w) (storage (completeRun h runId status error_ w)).
Proof.
  unfold completeRun. destruct (JsMap.get runId (activeRuns w)) as [active|];
    [|apply noNewRunning_refl].
  unfold storeUpdate, isoNow, readClock.
  destruct (updateRun _ _ _ _) as [updated st'] eqn:Hup.
  assert (noNewRunning (storage w) st') as Hst'.
  { change st' with (updated, st').2. rewrite <- Hup.
    apply (noNewRunning_updateRun _ _ _ _ (statusOf status)); [done|by destruct status]. }
  destruct updated as [updated|].
  - eapply noNewRunning_trans; [exact Hst'|].
    unfold clearTimeout, logged, broadcastAutomationsChanged, broadcastAutomationEvent.
    destruct (ar_timeoutTimer active); cbn [storage set_activeRuns set_sessionToRun
      set_timers set_log set_broadcasts];
      apply (noNewRunning_recordRun h _ _ _
               (set_storage (λ _, st') (set_clockReads S w))).
  - unfold clearTimeout. destruct (ar_timeoutTimer active); exact Hst'.
Qed.

Lemma storage_catch h f message w :
  noNewRunning (storage w) (storage (executeAutomation_catch h f message w).1).
Proof.
  unfold executeAutomation_catch, storeUpdate, isoNow, readClock.
  destruct (updateRun _ _ _ _) as [updated st'] eqn:Hup.
  assert (noNewRunning (storage w) st') as Hst'.
  { change st' with (updated, st').2. rewrite <- Hup.
    by apply (noNewRunning_updateRun _ _ _ _ failure). }
  destruct updated as [updated|]; cbn [fst]; [|exact Hst'].
  eapply noNewRunning_trans; [exact Hst'|].
  unfold broadcastAutomationsChanged, broadcastAutomationEvent.
  cbn [storage set_broadcasts].
  apply (noNewRunning_recordRun h _ _ _
           (set_storage (λ _, st') (set_clockReads S (logged error _ _ w)))).
Qed.

Lemma storage_cleanupRun h w entry :
  noNewRunning (storage w) (storage (cleanupRun h w entry)).
Proof.
  destruct entry as [runId active]. unfold cleanupRun, storeUpdate, isoNow, readClock.
  destruct (updateRun _ _ _ _) as [updated st'] eqn:Hup.
  assert (noNewRunning (storage w) st') as Hst'.
  { change st' with (updated, st').2. rewrite <- Hup.
    assert (storage (set_clockReads S (clearTimeout (ar_timeoutTimer active) w))
            = storage w) as -> by (by destruct (ar_timeoutTimer active)).
    by apply (noNewRunning_updateRun _ _ _ _ cancelled). }
  destruct updated as [updated|]; [|exact Hst'].
  eapply noNewRunning_trans; [exact Hst'|].
  apply (noNewRunning_recordRun h _ _ _
           (set_storage (λ _, st')
              (set_clockReads S (clearTimeout (ar_timeoutTimer active) w)))).
Qed.

Lemma storage_cleanup_loop h (l : list (string * ActiveRun)) w :
  noNewRunning (storage w) (storage (foldl (cleanupRun h) w l)).
Proof.
  revert w. induction l as [|entry l IH]; intros w; cbn [foldl].
  - apply noNewRunning_refl.
  - eapply noNewRunning_trans; [apply storage_cleanupRun | apply IH].
Qed.

Lemma storage_cleanup h w : noNewRunning (storage w) (storage (cleanup h w)).
Proof.
  unfold cleanup. cbn [storage set_listening set_sessionToRun set_activeRuns].
  apply (storage_cleanup_loop h _ (set_triggerRegistry unregisterAll (logged info _ _ w))).
Qed.

(** The only step that records a run as running is the resumption of
    [executeAutomation] after [createSession] fulfilled. *)
Lemma running_only_after_createSession h op w :
  noNewRunning (storage w) (storage (step h op w))
  ∨ ∃ f sessionId, op = OpAfterCreateSession f (Fulfilled sessionId).
Proof.
  destruct op as [workspaceId automationId triggeredBy triggerContext
                 | f [sessionId|message] | sf [[]|message] | sf [[]|message]
                 | workspaceId runId | runId [[]|message] | event | timer | message | ];
    cbn [step]; try (right; by eauto); left.
  - unfold executeAutomation, freshId, isoNow, readClock, createRun.
    repeat case_match; try apply noNewRunning_refl.
    simplify_eq/=. by apply noNewRunning_saveRun.
  - apply storage_catch.
  - apply noNewRunning_refl.
  - apply storage_catch.
  - apply noNewRunning_refl.
  - apply storage_catch.
  - unfold cancelRun. case_match; apply noNewRunning_refl.
  - apply storage_completeRun.
  - apply noNewRunning_refl.
  - unfold sessionEmits, handleSessionEvent.
    repeat case_match; try apply noNewRunning_refl;
      apply (storage_completeRun h _ _ _ (logged _ _ _ w)).
  - unfold timerExpires. repeat case_match; try apply noNewRunning_refl.
    unfold handleTimeout. cbn [activeRuns set_timers].
    case_match; [|apply noNewRunning_refl].
    unfold readClock, logged, call.
    match goal with
    | |- noNewRunning _ (storage (completeRun ?h ?r ?s ?e ?w0)) =>
        apply (storage_completeRun h r s e w0)
    end.
  - apply noNewRunning_refl.
  - apply storage_cleanup.
Qed.

Lemma catch_outcome h f message w :
  (executeAutomation_catch h f message w).2 = Threw message.
Proof.
  unfold executeAutomation_catch, storeUpdate, isoNow, readClock.
  by repeat case_match.
Qed.

Lemma catch_getRun h f message w stored :
  getRun (ws_rootPath (f_workspace f)) (r_id (f_run f)) (storage w) = Some stored →
  r_id stored = r_id (f_run f) →
  getRun (ws_rootPath (f_workspace f)) (r_id (f_run f))
    (storage (executeAutomation_catch h f message w).1)
  = Some (finished failure (toISOString h (Date_now h (clockReads w))) (Some message) stored).
Proof.
  intros Hstored Hid.
  unfold executeAutomation_catch, storeUpdate, isoNow, readClock, logged.
  cbn [storage set_log set_clockReads clockReads].
  rewrite (updateRun_Some _ _ _ _ _ Hstored).
  unfold broadcastAutomationsChanged, broadcastAutomationEvent.
  cbn [fst storage set_broadcasts]. rewrite recordRun_getRun.
  cbn [storage set_storage]. rewrite <- Hid.
  apply (getRun_saveRun_eq _ (spreadRun stored _)).
Qed.

(** C3, as the code has it: a run is recorded as running only by the step
    that resumes [executeAutomation] after the session was created, before
    its sources are set and before the prompt is sent; when the creation
    of the session fails, the pending run is recorded as a failure in that
    one step; when setting the sources or sending the prompt fails, the run,
    by then recorded as running, is recorded as a failure. *)
Theorem running_follows_session_creation (h : ManagerHost) :
  (∀ op w,
     noNewRunning (storage w) (storage (step h op w))
     ∨ ∃ f sessionId, op = OpAfterCreateSession f (Fulfilled sessionId))
  ∧ (∀ f sessionId w,
       getRun (ws_rootPath (f_workspace f)) (r_id (f_run f)) (storage w) = Some (f_run f) →
       ∃ updated,
         getRun (ws_rootPath (f_workspace f)) (r_id (f_run f))
           (storage (executeAutomation_afterCreateSession h f (Fulfilled sessionId) w).1)
         = Some updated
         ∧ r_status updated = running
         ∧ r_sessionId updated = Some sessionId)
  ∧ (∀ f message w,
       getRun (ws_rootPath (f_workspace f)) (r_id (f_run f)) (storage w) = Some (f_run f) →
       r_status (f_run f) = pending →
       (executeAutomation_afterCreateSession h f (Rejected message) w).2 = Threw message
       ∧ ∃ updated,
           getRun (ws_rootPath (f_workspace f)) (r_id (f_run f))
             (storage (executeAutomation_afterCreateSession h f (Rejected message) w).1)
           = Some updated
           ∧ r_status updated = failure
           ∧ r_error updated = Some message
           ∧ r_sessionId updated = r_sessionId (f_run f))
  ∧ (∀ sf message w stored,
       let f := sf_frame sf in
       getRun (ws_rootPath (f_workspace f)) (r_id (f_run f)) (storage w) = Some stored →
       r_id stored = r_id (f_run f) →
       r_status stored = running →
       ((executeAutomation_afterSetSessionSources h sf (Rejected message) w).2 = Threw message
        ∧ ∃ updated,
            getRun (ws_rootPath (f_workspace f)) (r_id (f_run f))
              (storage (executeAutomation_afterSetSessionSources h sf (Rejected message) w).1)
            = Some updated
            ∧ r_status updated = failure ∧ r_error updated = Some message)
       ∧ ((executeAutomation_afterSendMessage h sf (Rejected message) w).2 = Threw message
          ∧ ∃ updated,
              getRun (ws_rootPath (f_workspace f)) (r_id (f_run f))
                (storage (executeAutomation_afterSendMessage h sf (Rejected message) w).1)
              = Some updated
              ∧ r_status updated = failure ∧ r_error updated = Some message)).
Proof.
  split_and!.
  - apply running_only_after_createSession.
  - intros f sessionId w Hstored.
    unfold executeAutomation_afterCreateSession, storeUpdate.
    rewrite (updateRun_Some _ _ _ _ _ Hstored).
    unfold executeAutomation_send, readClock, setTimeout, call.
    eexists. split.
    + repeat (case_match; simplify_eq/=);
        apply (getRun_saveRun_eq _ (spreadRun (f_run f) _)).
    + done.
  - intros f message w Hstored Hpending. cbn [executeAutomation_afterCreateSession].
    split; [apply catch_outcome|].
    eexists. split; [by apply catch_getRun|].
    done.
  - intros sf message w stored f Hstored Hid Hrunning.
    cbn [executeAutomation_afterSetSessionSources executeAutomation_afterSendMessage].
    split; (split; [apply catch_outcome|]);
      (eexists; split; [by apply catch_getRun|done]).
Qed.

Lemma completeRun_sessionToRun h runId status error_ w active :
  JsMap.get runId (activeRuns w) = Some active →
  sessionToRun (completeRun h runId status error_ w)
  = JsMap.delete (ar_sessionId active) (sessionToRun w).
Proof. intros H. unfold completeRun. rewrite H. manager_cases. Qed.


(** ** The claims on the sample data *)

Lemma executeAutomation_admission_witness :
  (maxConcurrentRuns ≤ JsMap.size (activeRuns twoRunning))%nat
  ∧ ∃ message,
      executeAutomation demoHost "ws-1" "auto-1" manual None twoRunning
      = (twoRunning, Threw message)
      ∧ step demoHost (OpExecute "ws-1" "auto-1" manual None) twoRunning = twoRunning.
Proof.
  split; [vm_compute; lia|].
  apply (executeAutomation_admission demoHost "ws-1" "auto-1" manual None twoRunning
           demoWorkspace demoAutomation); vm_compute; (reflexivity || lia).
Defined.

(** C3, as stated, fails: the sample run is on file as running once its
    session is created, and when sending the prompt then fails the call
    throws and the run goes from running to failure. *)
Lemma running_before_delivery_failure :
  r_status <$> getRun "/work/main" "run-0" (storage oneRunning.1) = Some running
  ∧ failedToSend.2 = Threw "session closed"
  ∧ r_status <$> getRun "/work/main" "run-0" (storage failedToSend.1) = Some failure.
Proof. vm_compute. done. Qed.

(** C2 on the code: when sending the prompt fails, the [catch] block
    records the failure but leaves the run in the active-run table with its
    timeout pending.  The run is then finished a second time: by a
    completion event, which turns the recorded failure into a success, or
    by its timeout, which replaces the recorded error; either way the
    automation counts two runs for one. *)
Theorem failed_start_is_finished_twice :
  let w := failedToSend.1 in
  r_status <$> getRun "/work/main" "run-0" (storage w) = Some failure
  ∧ r_error <$> getRun "/work/main" "run-0" (storage w) = Some (Some "session closed")
  ∧ is_Some (JsMap.get "run-0" (activeRuns w))
  ∧ timers w !! 0 = Some ("run-0", 1000%Z)
  ∧ a_runCount <$> getAutomation "/work/main" "auto-1" (storage w) = Some 1%Z
  ∧ (let w' := sessionEmits demoHost (completeEvent "sess-1") w in
     r_status <$> getRun "/work/main" "run-0" (storage w') = Some success
     ∧ a_runCount <$> getAutomation "/work/main" "auto-1" (storage w') = Some 2%Z)
  ∧ (let w' := timerExpires demoHost 0 w in
     r_status <$> getRun "/work/main" "run-0" (storage w') = Some failure
     ∧ r_error <$> getRun "/work/main" "run-0" (storage w')
       = Some (Some "Automation timed out")
     ∧ a_runCount <$> getAutomation "/work/main" "auto-1" (storage w') = Some 2%Z).
Proof. vm_compute. split_and!; (done || by eexists). Qed.

(** C4 on the code: [createSession] is awaited between the admission check
    and the insertion into the active-run table, so three requests that
    arrive before any session is created are all admitted, and the table
    then holds three runs against a limit of two. *)
Theorem admission_check_races :
  forallb isAdmitted threeAtOnce.1 = true
  ∧ getActiveRunCount threeAtOnce.2 = 3
  ∧ (maxConcurrentRuns < getActiveRunCount threeAtOnce.2)%nat
  ∧ (r_status <$> getRun "/work/main" "run-0" (storage threeAtOnce.2) = Some running
     ∧ r_status <$> getRun "/work/main" "run-1" (storage threeAtOnce.2) = Some running
     ∧ r_status <$> getRun "/work/main" "run-2" (storage threeAtOnce.2) = Some running).
Proof. vm_compute. split_and!; (done || lia). Qed.

Lemma runFilesNamed_check st :
  bool_decide (map_Forall (λ key run, r_id run = key.2) (runFiles st)) = true →
  runFilesNamed st.
Proof.
  intros H workspaceRoot runId run Hget. apply bool_decide_eq_true in H.
  apply (H (workspaceRoot, runId) run Hget).
Qed.

(** ** The claims on the sample data, continued *)

Lemma updateRun_frame_witness :
  getRun "/work/main" "run-7" (storage oneRunning.1) = None
  ∧ updateRun "/work/main" "run-7" demoUpdates (storage oneRunning.1)
    = (None, storage oneRunning.1)
  ∧ getRun "/work/main" "run-0" (storage oneRunning.1) = Some demoRun
  ∧ ∃ updated st',
      updateRun "/work/main" "run-0" demoUpdates (storage oneRunning.1) = (Some updated, st')
      ∧ r_status updated = failure
      ∧ r_error updated = Some "stopped"
      ∧ r_sessionId updated = Some "sess-1"
      ∧ r_startedAt updated = "T+1700000000000".
Proof.
  assert (getRun "/work/main" "run-7" (storage oneRunning.1) = None) as Hnone
    by (vm_compute; reflexivity).
  assert (getRun "/work/main" "run-0" (storage oneRunning.1) = Some demoRun) as Hsome
    by (vm_compute; reflexivity).
  split; [exact Hnone|].
  split; [exact (proj1 (updateRun_frame "/work/main" "run-7" demoUpdates
                          (storage oneRunning.1)) Hnone)|].
  split; [exact Hsome|].
  destruct (proj2 (updateRun_frame "/work/main" "run-0" demoUpdates (storage oneRunning.1))
              demoRun Hsome)
    as (updated & st' & Hup & Hstatus & _ & Hsession & _ & Herror & _ & _ & Hstarted & _).
  exists updated, st'.
  split; [exact Hup|]. split; [exact Hstatus|]. split; [exact Herror|].
  split; [exact Hsession | exact Hstarted].
Defined.

Lemma updateAutomationAfterRun_aggregates_witness :
  findAutomation "auto-1" (loadAutomations "/work/main" demoStorage) = Some (0, demoAutomation)
  ∧ ∃ automation',
      getAutomation "/work/main" "auto-1"
        (updateAutomationAfterRun "/work/main" "auto-1" demoFinished "T+2" demoStorage)
      = Some automation'
      ∧ a_lastRunAt automation' = Some "T+1"
      ∧ a_runCount automation' = 1%Z
      ∧ a_lastStatus automation' = None
      ∧ a_updatedAt automation' = "T+2".
Proof.
  assert (findAutomation "auto-1" (loadAutomations "/work/main" demoStorage)
          = Some (0, demoAutomation)) as Hfind by (vm_compute; reflexivity).
  split; [exact Hfind|].
  destruct (updateAutomationAfterRun_aggregates "/work/main" "auto-1" demoFinished "T+2"
              demoStorage 0 demoAutomation Hfind)
    as (automation' & _ & Hget & Hlast & Hcount & Hstatus & Hupdated & _).
  exists automation'.
  split; [exact Hget|]. split; [exact Hlast|]. split; [exact Hcount|].
  split; [exact Hstatus | exact Hupdated].
Defined.

Lemma timeout_enforced_witness :
  getRun "/work/main" "run-0" (storage (request demoWorld).1) = Some (f_run demoFrame)
  ∧ timers (executeAutomation_afterCreateSession demoHost demoFrame (Fulfilled "sess-1")
              (request demoWorld).1).1 !! 0
    = Some ("run-0", 1000%Z)
  ∧ JsMap.wf (activeRuns oneRunning.1)
  ∧ timers oneRunning.1 !! 0 = Some ("run-0", 1000%Z)
  ∧ JsMap.get "run-0" (activeRuns oneRunning.1) = Some demoActive
  ∧ getRun "/work/main" "run-0" (storage oneRunning.1) = Some demoRun
  ∧ JsMap.get "run-0" (activeRuns (timerExpires demoHost 0 oneRunning.1)) = None
  ∧ ∃ updated,
      getRun "/work/main" "run-0" (storage (timerExpires demoHost 0 oneRunning.1))
      = Some updated
      ∧ r_status updated = failure
      ∧ r_error updated = Some "Automation timed out".
Proof.
  destruct (timeout_enforced demoHost) as [Hregistered Hexpires].
  assert (getRun "/work/main" "run-0" (storage (request demoWorld).1)
          = Some (f_run demoFrame)) as Hpending by (vm_compute; reflexivity).
  assert (JsMap.wf (activeRuns oneRunning.1)) as Hwf
    by (vm_compute; apply NoDup_singleton).
  assert (timers oneRunning.1 !! 0 = Some ("run-0", 1000%Z)) as Htimer
    by (vm_compute; reflexivity).
  assert (JsMap.get "run-0" (activeRuns oneRunning.1) = Some demoActive) as Hactive
    by (vm_compute; reflexivity).
  assert (getRun "/work/main" "run-0" (storage oneRunning.1) = Some demoRun) as Hstored
    by (vm_compute; reflexivity).
  split; [exact Hpending|].
  split.
  { destruct (Hregistered demoFrame "sess-1" (request demoWorld).1 (f_run demoFrame) Hpending)
      as (_ & Ht & _). exact Ht. }
  split; [exact Hwf|]. split; [exact Htimer|]. split; [exact Hactive|].
  split; [exact Hstored|].
  destruct (Hexpires 0 "run-0" 1000%Z demoActive oneRunning.1 Hwf Htimer Hactive)
    as (_ & Hgone & _ & Hfailed & _).
  split; [exact Hgone|].
  destruct (Hfailed demoRun Hstored eq_refl) as (updated & Hget & Hstatus & Herror & _).
  exists updated. split; [exact Hget|]. split; [exact Hstatus | exact Herror].
Defined.

Lemma cleanup_cancels_active_runs_witness :
  JsMap.wf (activeRuns twoRunning)
  ∧ runFilesNamed (storage twoRunning)
  ∧ JsMap.get "run-0" (activeRuns twoRunning) = Some demoActive
  ∧ getRun "/work/main" "run-0" (storage twoRunning) = Some demoRun
  ∧ getAutomation "/work/main" "auto-1" (storage twoRunning) = Some demoAutomation
  ∧ (∃ updated,
       getRun "/work/main" "run-0" (storage (cleanup demoHost twoRunning)) = Some updated
       ∧ r_status updated = cancelled
       ∧ r_error updated = Some "App shutting down")
  ∧ (∃ automation',
       getAutomation "/work/main" "auto-1" (storage (cleanup demoHost twoRunning))
       = Some automation'
       ∧ a_runCount automation' = 2%Z
       ∧ a_lastStatus automation' = None)
  ∧ activeRuns (cleanup demoHost twoRunning) = JsMap.empty
  ∧ sessionEmits demoHost (completeEvent "sess-1") (cleanup demoHost twoRunning)
    = cleanup demoHost twoRunning.
Proof.
  assert (JsMap.wf (activeRuns twoRunning)) as Hwf.
  { vm_compute. apply NoDup_cons. split; [|apply NoDup_singleton].
    intros Hin. apply list_elem_of_singleton in Hin. discriminate Hin. }
  assert (runFilesNamed (storage twoRunning)) as Hnamed.
  { apply runFilesNamed_check. vm_compute. reflexivity. }
  assert (JsMap.get "run-0" (activeRuns twoRunning) = Some demoActive) as Hactive
    by (vm_compute; reflexivity).
  assert (getRun "/work/main" "run-0" (storage twoRunning) = Some demoRun) as Hstored
    by (vm_compute; reflexivity).
  assert (getAutomation "/work/main" "auto-1" (storage twoRunning) = Some demoAutomation)
    as Hauto by (vm_compute; reflexivity).
  destruct (cleanup_cancels_active_runs demoHost twoRunning Hwf Hnamed)
    as (_ & _ & _ & Hruns & Hstats & Hempty & _ & _ & Hevents).
  split; [exact Hwf|]. split; [exact Hnamed|]. split; [exact Hactive|].
  split; [exact Hstored|]. split; [exact Hauto|].
  split.
  { destruct (Hruns "run-0" demoActive demoRun Hactive Hstored)
      as (updated & Hget & Hstatus & Herror & _).
    exists updated. split; [exact Hget|]. split; [exact Hstatus | exact Herror]. }
  split.
  { destruct (Hstats "/work/main" "auto-1" demoAutomation Hauto)
      as (automation' & Hget & Hcount & Hlast).
    exists automation'. split; [exact Hget|]. split; [|exact Hlast].
    rewrite Hcount. vm_compute. reflexivity. }
  split; [exact Hempty|].
  exact (proj1 (Hevents (completeEvent "sess-1"))).
Defined.

Lemma running_follows_session_creation_witness :
  getRun "/work/main" "run-0" (storage (request demoWorld).1) = Some (f_run demoFrame)
  ∧ r_status (f_run demoFrame) = pending
  ∧ (executeAutomation_afterCreateSession demoHost demoFrame (Rejected "no session")
       (request demoWorld).1).2 = Threw "no session"
  ∧ (∃ updated,
       getRun "/work/main" "run-0"
         (storage (executeAutomation_afterCreateSession demoHost demoFrame
                     (Rejected "no session") (request demoWorld).1).1) = Some updated
       ∧ r_status updated = failure
       ∧ r_error updated = Some "no session")
  ∧ getRun "/work/main" "run-0" (storage oneRunning.1) = Some demoRun
  ∧ r_status demoRun = running
  ∧ ∃ updated,
      getRun "/work/main" "run-0"
        (storage (executeAutomation_afterSendMessage demoHost demoSessionFrame
                    (Rejected "session closed") oneRunning.1).1) = Some updated
      ∧ r_status updated = failure
      ∧ r_error updated = Some "session closed".
Proof.
  destruct (running_follows_session_creation demoHost) as (_ & _ & Hcreate & Hdeliver).
  assert (getRun "/work/main" "run-0" (storage (request demoWorld).1)
          = Some (f_run demoFrame)) as Hpending by (vm_compute; reflexivity).
  assert (getRun "/work/main" "run-0" (storage oneRunning.1) = Some demoRun) as Hstored
    by (vm_compute; reflexivity).
  destruct (Hcreate demoFrame "no session" (request demoWorld).1 Hpending eq_refl)
    as (Hthrew & updated & Hget & Hstatus & Herror & _).
  destruct (Hdeliver demoSessionFrame "session closed" oneRunning.1 demoRun
              Hstored eq_refl eq_refl)
    as (_ & _ & updated' & Hget' & Hstatus' & Herror').
  split; [exact Hpending|]. split; [reflexivity|]. split; [exact Hthrew|].
  split.
  { exists updated. split; [exact Hget|]. split; [exact Hstatus | exact Herror]. }
  split; [exact Hstored|]. split; [reflexivity|].
  exists updated'. split; [exact Hget'|]. split; [exact Hstatus' | exact Herror'].
Defined.

Lemma register_replaces_witness :
  reachable newRegistry
  ∧ a_id (onClipboard (Some "http")) = a_id onHotkey
  ∧ let r1 := register demoTriggerHost demoClock onHotkey newRegistry in
    let r2 := register demoTriggerHost demoClock (onClipboard (Some "http")) r1 in
    listeners r1 !! 0 = Some {| hl_automation := onHotkey; hl_type := hotkey;
                                hl_sub := GlobalShortcut "CommandOrControl+Shift+D" |}
    ∧ listeners r2 !! 0 = None
    ∧ hostSignal demoTriggerHost 0 ShortcutPressed "T+5" r2 = r2
    ∧ (length (filter (λ kv, kv.1 = "auto-1") (triggers r2)) ≤ 1)%nat
    ∧ consistent r2.
Proof.
  split; [apply reach_new|]. split; [reflexivity|].
  intros r1 r2.
  assert (listeners r1 !! 0 = Some {| hl_automation := onHotkey; hl_type := hotkey;
                                      hl_sub := GlobalShortcut "CommandOrControl+Shift+D" |})
    as Hlive by (vm_compute; reflexivity).
  destruct (register_replaces demoTriggerHost demoTriggerHost demoClock demoClock
              onHotkey (onClipboard (Some "http")) newRegistry reach_new eq_refl)
    as (_ & _ & _ & Hcons & Hone & _ & Hstale & _).
  destruct (Hstale 0 _ Hlive eq_refl) as [Hgone Hquiet].
  split; [exact Hlive|]. split; [exact Hgone|].
  split; [exact (Hquiet demoTriggerHost ShortcutPressed "T+5")|].
  split; [exact Hone | exact Hcons].
Defined.

Lemma clipboard_fires_on_new_content_witness :
  let config := {| cb_pattern := Some "http"; cb_pollIntervalMs := None |} in
  let regex := compilePattern demoTriggerHost (cb_pattern config) in
  is_Some (clipboardPoll demoTriggerHost demoAutomation "copied before" regex
             "see http://example.org" "T+1").2
  ∧ (clipboardPoll demoTriggerHost demoAutomation "copied before" regex
       "no link here" "T+1").2 = None
  ∧ (clipboardPoll demoTriggerHost demoAutomation "see http://example.org" regex
       "see http://example.org" "T+2").2 = None.
Proof.
  intros config regex.
  destruct (clipboard_fires_on_new_content demoTriggerHost demoAutomation config
              "copied before" "see http://example.org" "T+1")
    as (Hfires & _ & Hlast & Hagain & _).
  split_and!.
  - apply Hfires. split; [done|]. right. right. exists "http".
    split_and!; vm_compute; reflexivity.
  - vm_compute. reflexivity.
  - fold config regex in Hlast, Hagain. rewrite Hlast in Hagain. apply (Hagain "T+2").
Defined.

(** ** Storage, continued *)

Lemma findAutomation_None automationId automations :
  findAutomation automationId automations = None
  ↔ ∀ a, a ∈ automations → a_id a ≠ automationId.
Proof.
  unfold findAutomation. rewrite list_find_None, Forall_forall. done.
Qed.

Lemma findAutomation_cons automationId a l :
  findAutomation automationId (a :: l)
  = if decide (a_id a = automationId) then Some (0, a)
    else prod_map S id <$> findAutomation automationId l.
Proof. done. Qed.

Lemma snd_shift (found : option (nat * Automation)) :
  snd <$> (prod_map S id <$> found) = snd <$> found.
Proof. by destruct found as [[??]|]. Qed.

Lemma find_app_one automationId l a :
  snd <$> findAutomation automationId (l ++ [a])
  = match snd <$> findAutomation automationId l with
    | Some found => Some found
    | None => if decide (a_id a = automationId) then Some a else None
    end.
Proof.
  induction l as [|b l IH].
  - unfold findAutomation. simpl. by destruct (decide _).
  - rewrite <- app_comm_cons, !findAutomation_cons.
    destruct (decide (a_id b = automationId)); [done|].
    by rewrite !snd_shift.
Qed.

Lemma find_insert automationId l index existing updated id' :
  findAutomation automationId l = Some (index, existing) →
  a_id updated = automationId →
  snd <$> findAutomation id' (<[index := updated]> l)
  = if decide (id' = automationId) then Some updated
    else snd <$> findAutomation id' l.
Proof.
  intros Hfind Hid.
  rewrite (findAutomation_insert _ _ _ _ _ _ Hfind Hid).
  destruct (decide (id' = automationId)) as [->|Hne].
  - rewrite Hfind. simpl. by rewrite decide_True.
  - destruct (findAutomation id' l) as [[j b]|] eqn:E; [|done]. simpl.
    destruct (decide (j = index)) as [->|]; [|done].
    apply findAutomation_Some in E as [E1 E2].
    apply findAutomation_Some in Hfind as [H1 H2]. congruence.
Qed.

Lemma find_delete automationId l index existing id' :
  findAutomation automationId l = Some (index, existing) →
  id' ≠ automationId →
  snd <$> findAutomation id' (delete index l) = snd <$> findAutomation id' l.
Proof.
  revert index. induction l as [|b l IH]; intros index Hfind Hne; [done|].
  rewrite findAutomation_cons in Hfind.
  destruct (decide (a_id b = automationId)) as [Hb|Hb].
  - injection Hfind as <- <-. change (delete 0 (b :: l)) with l.
    rewrite findAutomation_cons, decide_False by congruence.
    by rewrite snd_shift.
  - destruct (findAutomation automationId l) as [[j c]|] eqn:E; [|done].
    injection Hfind as <- <-. change (delete (S j) (b :: l)) with (b :: delete j l).
    rewrite !findAutomation_cons.
    destruct (decide (a_id b = id')); [done|].
    rewrite !snd_shift. by apply IH.
Qed.

Lemma find_delete_same automationId l index existing :
  findAutomation automationId l = Some (index, existing) →
  snd <$> findAutomation automationId (delete index l)
  = snd <$> findAutomation automationId (drop (S index) l).
Proof.
  revert index. induction l as [|b l IH]; intros index Hfind; [done|].
  rewrite findAutomation_cons in Hfind.
  destruct (decide (a_id b = automationId)) as [Hb|Hb].
  - injection Hfind as <- <-. change (delete 0 (b :: l)) with l.
    by rewrite skipn_cons, drop_0.
  - destruct (findAutomation automationId l) as [[j c]|] eqn:E; [|done].
    injection Hfind as <- <-. change (delete (S j) (b :: l)) with (b :: delete j l).
    rewrite findAutomation_cons, decide_False by done.
    rewrite snd_shift, skipn_cons. by apply IH.
Qed.

Lemma getAutomation_saveAutomations workspaceRoot automations st root' automationId :
  getAutomation root' automationId (saveAutomations workspaceRoot automations st)
  = if decide (workspaceRoot = root')
    then snd <$> findAutomation automationId automations
    else getAutomation root' automationId st.
Proof.
  unfold getAutomation. rewrite loadAutomations_saveAutomations.
  by destruct (decide _).
Qed.

Lemma getAutomation_createAutomation workspaceRoot workspaceId input id now st root' id' :
  getAutomation root' id' (createAutomation workspaceRoot workspaceId input id now st).2
  = if decide (workspaceRoot = root') then
      match getAutomation workspaceRoot id' st with
      | Some found => Some found
      | None =>
          if decide (id = id')
          then Some (createAutomation workspaceRoot workspaceId input id now st).1
          else None
      end
    else getAutomation root' id' st.
Proof.
  unfold createAutomation. cbn [fst snd].
  rewrite getAutomation_saveAutomations.
  destruct (decide (workspaceRoot = root')); [|done].
  by rewrite find_app_one.
Qed.

(** X2. [createAutomation] appends one automation with the given content,
    disabled unless asked otherwise, with no run recorded; it is what
    [getAutomation] finds under the new id when no older automation has that
    id (an older one with the same id keeps answering); every other
    automation, every other workspace and every run file is as before. *)
Theorem createAutomation_appends (workspaceRoot workspaceId : string)
    (input : CreateAutomationInput) (id now : string) (st : Storage) :
  let created := (createAutomation workspaceRoot workspaceId input id now st).1 in
  let st' := (createAutomation workspaceRoot workspaceId input id now st).2 in
  loadAutomations workspaceRoot st' = loadAutomations workspaceRoot st ++ [created]
  ∧ a_id created = id
  ∧ a_name created = ci_name input
  ∧ a_prompt created = ci_prompt input
  ∧ a_triggerConfig created = ci_triggerConfig input
  ∧ a_actionConfig created
    = match ci_actionConfig input with Some c => c | None => emptyActionConfig end
  ∧ a_enabled created = match ci_enabled input with Some b => b | None => false end
  ∧ a_workspaceId created = workspaceId
  ∧ a_createdAt created = now ∧ a_updatedAt created = now
  ∧ a_runCount created = 0%Z ∧ a_lastStatus created = None
  ∧ a_lastRunAt created = None ∧ a_nextRunAt created = None
  ∧ (getAutomation workspaceRoot id st = None →
     getAutomation workspaceRoot id st' = Some created)
  ∧ (∀ older, getAutomation workspaceRoot id st = Some older →
       getAutomation workspaceRoot id st' = Some older)
  ∧ (∀ id', id' ≠ id →
       getAutomation workspaceRoot id' st' = getAutomation workspaceRoot id' st)
  ∧ (∀ root' id', root' ≠ workspaceRoot →
       getAutomation root' id' st' = getAutomation root' id' st)
  ∧ runFiles st' = runFiles st.
Proof.
  intros created st'.
  assert (Hget : ∀ id', getAutomation workspaceRoot id' st'
                        = match getAutomation workspaceRoot id' st with
                          | Some found => Some found
                          | None => if decide (id = id') then Some created else None
                          end).
  { intros id'. unfold st'.
    by rewrite getAutomation_createAutomation, decide_True. }
  split_and!; try done.
  - unfold st', createAutomation. simpl.
    by rewrite loadAutomations_saveAutomations, decide_True.
  - intros Hnone. by rewrite Hget, Hnone, decide_True.
  - intros older Hsome. by rewrite Hget, Hsome.
  - intros id' Hne. rewrite Hget.
    destruct (getAutomation workspaceRoot id' st); [done|].
    by rewrite decide_False.
  - intros root' id' Hne. unfold st'.
    by rewrite getAutomation_createAutomation, decide_False.
Qed.

(** X3. [updateAutomation] returns [null] and writes nothing when no
    automation has the id; otherwise the first automation with the id gets
    exactly the fields given in the input and a new [updatedAt], keeps its
    id, workspace, creation time and run statistics, stays at its place in
    the list, and is what [getAutomation] then finds; every other
    automation, every other workspace and every run file is as before. *)
Theorem updateAutomation_frame (workspaceRoot automationId : string)
    (input : UpdateAutomationInput) (now : string) (st : Storage) :
  (getAutomation workspaceRoot automationId st = None →
   updateAutomation workspaceRoot automationId input now st = (None, st))
  ∧ (∀ index existing,
       findAutomation automationId (loadAutomations workspaceRoot st)
       = Some (index, existing) →
       ∃ updated st',
         updateAutomation workspaceRoot automationId input now st = (Some updated, st')
         ∧ loadAutomations workspaceRoot st'
           = <[index := updated]> (loadAutomations workspaceRoot st)
         ∧ getAutomation workspaceRoot automationId st' = Some updated
         ∧ a_name updated
           = match ui_name input with Some v => v | None => a_name existing end
         ∧ a_prompt updated
           = match ui_prompt input with Some v => v | None => a_prompt existing end
         ∧ a_triggerConfig updated
           = match ui_triggerConfig input with
             | Some v => v
             | None => a_triggerConfig existing
             end
         ∧ a_actionConfig updated
           = match ui_actionConfig input with
             | Some v => v
             | None => a_actionConfig existing
             end
         ∧ a_enabled updated
           = match ui_enabled input with Some v => v | None => a_enabled existing end
         ∧ a_updatedAt updated = now
         ∧ a_id updated = automationId
         ∧ a_workspaceId updated = a_workspaceId existing
         ∧ a_createdAt updated = a_createdAt existing
         ∧ a_lastRunAt updated = a_lastRunAt existing
         ∧ a_nextRunAt updated = a_nextRunAt existing
         ∧ a_runCount updated = a_runCount existing
         ∧ a_lastStatus updated = a_lastStatus existing
         ∧ (∀ id', id' ≠ automationId →
              getAutomation workspaceRoot id' st' = getAutomation workspaceRoot id' st)
         ∧ (∀ root' id', root' ≠ workspaceRoot →
              getAutomation root' id' st' = getAutomation root' id' st)
         ∧ runFiles st' = runFiles st).
Proof.
  split.
  - unfold getAutomation, updateAutomation. intros Hnone.
    destruct (findAutomation _ _) as [[??]|]; [done|done].
  - intros index existing Hfind.
    pose proof (findAutomation_Some _ _ _ _ Hfind) as [_ Hid].
    eexists _, _. unfold updateAutomation. rewrite Hfind.
    split; [reflexivity|].
    split_and!; try done.
    + by rewrite loadAutomations_saveAutomations, decide_True.
    + rewrite getAutomation_saveAutomations, decide_True by done.
      by rewrite (find_insert _ _ _ _ _ _ Hfind), decide_True.
    + intros id' Hne.
      rewrite getAutomation_saveAutomations, decide_True by done.
      by rewrite (find_insert _ _ _ _ _ _ Hfind), decide_False.
    + intros root' id' Hne.
      by rewrite getAutomation_saveAutomations, decide_False.
Qed.

Lemma findAutomation_insert_same automationId l index existing updated :
  findAutomation automationId l = Some (index, existing) →
  a_id updated = automationId →
  findAutomation automationId (<[index := updated]> l) = Some (index, updated).
Proof.
  intros Hfind Hid.
  rewrite (findAutomation_insert _ _ _ _ _ _ Hfind Hid), Hfind. simpl.
  by rewrite decide_True.
Qed.

Lemma spreadAutomation_twice existing first second t1 t2 :
  spreadAutomation (spreadAutomation existing first t1) second t2
  = spreadAutomation existing (laterInput first second) t2.
Proof.
  unfold spreadAutomation, laterInput. simpl.
  destruct (ui_name second), (ui_prompt second), (ui_triggerConfig second),
    (ui_actionConfig second), (ui_enabled second); reflexivity.
Qed.

(** X4. Two [updateAutomation] calls on the same automation, one after the
    other, return and store what a single call with the later values
    returns and stores: the second call's fields win, the first call's
    other fields stay, and [updatedAt] is the time of the second call.  In
    particular a disabled and then enabled automation is stored as by
    [enableAutomation] alone, and the other way round. *)
Theorem updateAutomation_twice (workspaceRoot automationId : string)
    (first second : UpdateAutomationInput) (t1 t2 : string) (st : Storage) :
  updateAutomation workspaceRoot automationId second t2
    (updateAutomation workspaceRoot automationId first t1 st).2
  = updateAutomation workspaceRoot automationId (laterInput first second) t2 st
  ∧ enableAutomation workspaceRoot automationId t2
      (disableAutomation workspaceRoot automationId t1 st).2
    = enableAutomation workspaceRoot automationId t2 st
  ∧ disableAutomation workspaceRoot automationId t2
      (enableAutomation workspaceRoot automationId t1 st).2
    = disableAutomation workspaceRoot automationId t2 st.
Proof.
  assert (Htwice : ∀ first second,
    updateAutomation workspaceRoot automationId second t2
      (updateAutomation workspaceRoot automationId first t1 st).2
    = updateAutomation workspaceRoot automationId (laterInput first second) t2 st).
  { clear first second. intros first second. unfold updateAutomation at 2 3.
    destruct (findAutomation automationId (loadAutomations workspaceRoot st))
      as [[index existing]|] eqn:Hfind.
    - pose proof (findAutomation_Some _ _ _ _ Hfind) as [_ Hid].
      unfold updateAutomation. cbn [snd].
      rewrite loadAutomations_saveAutomations, decide_True by done.
      rewrite (findAutomation_insert_same _ _ _ existing) by done.
      rewrite spreadAutomation_twice, list_insert_insert_eq.
      unfold saveAutomations. simpl. by rewrite insert_insert_eq.
    - unfold updateAutomation. cbn [snd]. by rewrite Hfind. }
  split_and!.
  - apply Htwice.
  - apply (Htwice (onlyEnabled false) (onlyEnabled true)).
  - apply (Htwice (onlyEnabled true) (onlyEnabled false)).
Qed.

(** X5. [duplicateAutomation] returns [null] and writes nothing when the
    automation does not exist; otherwise it appends a copy with the
    original's prompt, trigger, action configuration and workspace, the name
    followed by " (copy)", disabled whatever the original is, and with no run
    recorded; the original is still what its id finds, and the copy is what
    the new id finds when no automation had that id. *)
Theorem duplicateAutomation_copies (workspaceRoot automationId : string)
    (id now : string) (st : Storage) :
  (getAutomation workspaceRoot automationId st = None →
   duplicateAutomation workspaceRoot automationId id now st = (None, st))
  ∧ (∀ original,
       getAutomation workspaceRoot automationId st = Some original →
       ∃ copy st',
         duplicateAutomation workspaceRoot automationId id now st = (Some copy, st')
         ∧ loadAutomations workspaceRoot st' = loadAutomations workspaceRoot st ++ [copy]
         ∧ a_id copy = id
         ∧ a_name copy = a_name original +:+ " (copy)"
         ∧ a_prompt copy = a_prompt original
         ∧ a_triggerConfig copy = a_triggerConfig original
         ∧ a_actionConfig copy = a_actionConfig original
         ∧ a_workspaceId copy = a_workspaceId original
         ∧ a_enabled copy = false
         ∧ a_runCount copy = 0%Z ∧ a_lastStatus copy = None ∧ a_lastRunAt copy = None
         ∧ a_createdAt copy = now
         ∧ getAutomation workspaceRoot automationId st' = Some original
         ∧ (getAutomation workspaceRoot id st = None →
            getAutomation workspaceRoot id st' = Some copy)
         ∧ runFiles st' = runFiles st).
Proof.
  split.
  - intros Hnone. unfold duplicateAutomation. by rewrite Hnone.
  - intros original Hsome.
    set (input := {| ci_name := a_name original +:+ " (copy)";
                     ci_prompt := a_prompt original;
                     ci_triggerConfig := a_triggerConfig original;
                     ci_actionConfig := Some (a_actionConfig original);
                     ci_enabled := Some false |}).
    exists (createAutomation workspaceRoot (a_workspaceId original) input id now st).1,
           (createAutomation workspaceRoot (a_workspaceId original) input id now st).2.
    split.
    { unfold duplicateAutomation. rewrite Hsome. fold input.
      by destruct (createAutomation _ _ _ _ _ _). }
    split_and!; try done.
    + unfold createAutomation. cbn [fst snd].
      by rewrite loadAutomations_saveAutomations, decide_True.
    + by rewrite getAutomation_createAutomation, decide_True, Hsome.
    + intros Hnone.
      by rewrite getAutomation_createAutomation, decide_True, Hnone, decide_True.
Qed.

(** *** Run history *)

Lemma elem_of_runsOf workspaceRoot st run :
  run ∈ runsOf workspaceRoot st ↔ ∃ runId, getRun workspaceRoot runId st = Some run.
Proof.
  unfold runsOf, getRun. rewrite list_elem_of_fmap. split.
  - intros ([[root runId] run'] & -> & Hin).
    apply list_elem_of_filter in Hin as [Hroot Hin]. simpl in Hroot. subst root.
    apply elem_of_map_to_list in Hin. by exists runId.
  - intros [runId Hget]. exists (workspaceRoot, runId, run). split; [done|].
    apply list_elem_of_filter. split; [done|]. by apply elem_of_map_to_list.
Qed.

Lemma NoDup_runsOf workspaceRoot st : runFilesNamed st → NoDup (runsOf workspaceRoot st).
Proof.
  intros Hnamed. unfold runsOf. apply NoDup_fmap_2_strong.
  - intros [[root1 id1] run1] [[root2 id2] run2] Hin1 Hin2 Heq. simpl in Heq. subst run2.
    apply list_elem_of_filter in Hin1 as [Hr1 Hin1].
    apply list_elem_of_filter in Hin2 as [Hr2 Hin2].
    simpl in Hr1, Hr2. subst root1 root2.
    apply elem_of_map_to_list in Hin1, Hin2.
    apply (Hnamed workspaceRoot id1 run1) in Hin1.
    apply (Hnamed workspaceRoot id2 run1) in Hin2. congruence.
  - apply NoDup_filter, NoDup_map_to_list.
Qed.

Global Instance notOlder_total hh : Total (notOlder hh).
Proof.
  intros a b. unfold notOlder.
  destruct (Date_getTime hh (r_startedAt a)), (Date_getTime hh (r_startedAt b));
    auto; lia.
Qed.

Lemma Sorted_newest_first hh (l : list AutomationRun) :
  Sorted (notOlder hh) l →
  Forall (λ run, is_Some (Date_getTime hh (r_startedAt run))) l →
  StronglySorted (startedNotAfter hh) l.
Proof.
  induction 1 as [|a l Hsorted IH Hhd]; intros Hall; [constructor|].
  apply Forall_cons in Hall as [[ta Ha] Hall].
  specialize (IH Hall). constructor; [done|].
  destruct Hhd as [|b l Hab]; [constructor|].
  assert (Hfirst : startedNotAfter hh a b).
  { apply Forall_cons in Hall as [[tb Hb] _].
    unfold notOlder in Hab. rewrite Ha, Hb in Hab.
    exists ta, tb. split_and!; [done..|lia]. }
  constructor; [done|].
  apply StronglySorted_inv in IH as [_ Hrest].
  eapply Forall_impl; [exact Hrest|].
  intros c (tb & tc & Hb & Hc & Hle).
  destruct Hfirst as (ta' & tb' & Ha' & Hb' & Hle').
  exists ta', tc. split_and!; [done..|]. simplify_eq. lia.
Qed.

Lemma loadRuns_Permutation hh workspaceRoot automationId st :
  loadRuns hh workspaceRoot automationId st
  ≡ₚ filter (λ run, r_automationId run = automationId) (runsOf workspaceRoot st).
Proof. apply merge_sort_Permutation. Qed.

Lemma elem_of_loadRuns hh workspaceRoot automationId st run :
  run ∈ loadRuns hh workspaceRoot automationId st
  ↔ r_automationId run = automationId
    ∧ ∃ runId, getRun workspaceRoot runId st = Some run.
Proof.
  rewrite loadRuns_Permutation, list_elem_of_filter, elem_of_runsOf. done.
Qed.

(** X6. [loadRuns] lists the runs of the automation that have a file in the
    workspace, and no other run; with every file under its run's id no run
    is listed twice; neighbours in the list are in the order of the
    comparator, and when every listed start time parses the whole list is
    newest first. *)
Theorem loadRuns_lists_newest_first (hh : HistoryHost) (workspaceRoot automationId : string)
    (st : Storage) :
  let runs := loadRuns hh workspaceRoot automationId st in
  (∀ run, run ∈ runs
          ↔ r_automationId run = automationId
            ∧ ∃ runId, getRun workspaceRoot runId st = Some run)
  ∧ ((∀ runId, getRun workspaceRoot runId st = None) → runs = [])
  ∧ (runFilesNamed st → NoDup runs ∧ NoDup (r_id <$> runs))
  ∧ Sorted (notOlder hh) runs
  ∧ (Forall (λ run, is_Some (Date_getTime hh (r_startedAt run))) runs →
     StronglySorted (startedNotAfter hh) runs).
Proof.
  intros runs. split_and!.
  - intros run. apply elem_of_loadRuns.
  - intros Hempty. apply elem_of_nil_inv. intros run Hin.
    apply elem_of_loadRuns in Hin as (_ & runId & Hget).
    by rewrite Hempty in Hget.
  - intros Hnamed.
    assert (Hnodup : NoDup runs).
    { unfold runs. rewrite loadRuns_Permutation.
      by apply NoDup_filter, NoDup_runsOf. }
    split; [done|]. apply NoDup_fmap_2_strong; [|done].
    intros a b Ha Hb Hid.
    apply elem_of_loadRuns in Ha as (_ & ida & Ha).
    apply elem_of_loadRuns in Hb as (_ & idb & Hb).
    pose proof (Hnamed _ _ _ Ha). pose proof (Hnamed _ _ _ Hb).
    unfold getRun in *. congruence.
  - apply Sorted_merge_sort, _.
  - apply Sorted_newest_first, Sorted_merge_sort, _.
Qed.

Lemma deleteRun_getRun hh workspaceRoot runId st root' runId' :
  getRun root' runId' (deleteRun hh workspaceRoot runId st).2
  = if decide ((root', runId') = (workspaceRoot, runId)
               ∧ unlinkSync_ok hh workspaceRoot runId = true)
    then None else getRun root' runId' st.
Proof.
  unfold deleteRun, getRun.
  destruct (runFiles st !! (workspaceRoot, runId)) as [run|] eqn:Hfile; simpl.
  - destruct (unlinkSync_ok hh workspaceRoot runId) eqn:Hok; simpl.
    + destruct (decide _) as [[[= -> ->] _]|Hne].
      * apply lookup_delete_eq.
      * apply lookup_delete_ne. intros [= <- <-]. by apply Hne.
    + rewrite decide_False; [done|]. by intros [_ ?].
  - destruct (decide _) as [[[= -> ->] _]|Hne]; done.
Qed.

Lemma deleteRun_configFiles hh workspaceRoot runId st :
  configFiles (deleteRun hh workspaceRoot runId st).2 = configFiles st.
Proof. unfold deleteRun. by repeat case_match. Qed.


Lemma deleteRuns_getRun hh workspaceRoot (runs : list AutomationRun) st root' runId' :
  getRun root' runId'
    (foldl (λ st run, (deleteRun hh workspaceRoot (r_id run) st).2) st runs)
  = if decide (root' = workspaceRoot ∧ runId' ∈ r_id <$> runs
               ∧ unlinkSync_ok hh workspaceRoot runId' = true)
    then None else getRun root' runId' st.
Proof.
  revert st. induction runs as [|run runs IH]; intros st.
  - cbn [foldl]. rewrite decide_False; [done|].
    intros (_ & Hin & _). by apply elem_of_nil in Hin.
  - cbn [foldl]. rewrite IH, deleteRun_getRun. csimpl.
    destruct (decide (root' = workspaceRoot ∧ runId' ∈ r_id <$> runs ∧ _))
      as [(-> & Hin & Hok)|Hrest].
    + rewrite decide_True; [done|]. split_and!; [done| |done]. by right.
    + destruct (decide ((root', runId') = (workspaceRoot, r_id run) ∧ _))
        as [[[= -> ->] Hok]|Hhere].
      * rewrite decide_True; [done|]. split_and!; [done| |done]. by left.
      * rewrite decide_False; [done|].
        intros (-> & Hin & Hok). apply elem_of_cons in Hin as [->|Hin].
        -- by apply Hhere.
        -- by apply Hrest.
Qed.

Lemma deleteRuns_configFiles hh workspaceRoot (runs : list AutomationRun) st :
  configFiles (foldl (λ st run, (deleteRun hh workspaceRoot (r_id run) st).2) st runs)
  = configFiles st.
Proof.
  revert st. induction runs as [|run runs IH]; intros st; [done|].
  cbn [foldl]. by rewrite IH, deleteRun_configFiles.
Qed.

(** X8. [deleteAutomation] answers [false] and writes nothing when no
    automation has the id.  Otherwise it answers [true], takes the first
    automation with the id out of the list and removes the run files of that
    automation in the workspace (those the file system lets it remove); the
    run files of other automations and of other workspaces, and every other
    automation, are as before.  When ids are not repeated in the list the id
    no longer finds an automation. *)
Theorem deleteAutomation_removes_history (hh : HistoryHost)
    (workspaceRoot automationId : string) (st : Storage) :
  runFilesNamed st →
  (getAutomation workspaceRoot automationId st = None →
   deleteAutomation hh workspaceRoot automationId st = (false, st))
  ∧ (∀ index existing,
       findAutomation automationId (loadAutomations workspaceRoot st)
       = Some (index, existing) →
       let st' := (deleteAutomation hh workspaceRoot automationId st).2 in
       (deleteAutomation hh workspaceRoot automationId st).1 = true
       ∧ loadAutomations workspaceRoot st' = delete index (loadAutomations workspaceRoot st)
       ∧ (NoDup (a_id <$> loadAutomations workspaceRoot st) →
          getAutomation workspaceRoot automationId st' = None)
       ∧ (∀ id', id' ≠ automationId →
            getAutomation workspaceRoot id' st' = getAutomation workspaceRoot id' st)
       ∧ (∀ root' id', root' ≠ workspaceRoot →
            getAutomation root' id' st' = getAutomation root' id' st)
       ∧ (∀ runId run,
            getRun workspaceRoot runId st = Some run →
            getRun workspaceRoot runId st'
            = if decide (r_automationId run = automationId
                         ∧ unlinkSync_ok hh workspaceRoot runId = true)
              then None else Some run)
       ∧ (∀ root' runId,
            getRun root' runId st = None → getRun root' runId st' = None)
       ∧ (∀ root' runId,
            root' ≠ workspaceRoot → getRun root' runId st' = getRun root' runId st)).
Proof.
  intros Hnamed. split.
  - unfold getAutomation, deleteAutomation. intros Hnone.
    by destruct (findAutomation _ _) as [[??]|].
  - intros index existing Hfind st'.
    set (st1 := saveAutomations workspaceRoot
                  (delete index (loadAutomations workspaceRoot st)) st).
    set (runs := loadRuns hh workspaceRoot automationId st1).
    assert (Hst' : st' = foldl (λ st run, (deleteRun hh workspaceRoot (r_id run) st).2)
                           st1 runs).
    { unfold st', deleteAutomation. by rewrite Hfind. }
    assert (Hconfig : ∀ root' id', getAutomation root' id' st' = getAutomation root' id' st1).
    { intros root' id'. unfold getAutomation, loadAutomations.
      by rewrite Hst', deleteRuns_configFiles. }
    assert (Hin : ∀ runId, runId ∈ r_id <$> runs
                           ↔ ∃ run, getRun workspaceRoot runId st = Some run
                                    ∧ r_automationId run = automationId).
    { intros runId. rewrite list_elem_of_fmap. split.
      - intros (run & -> & Hrun).
        apply elem_of_loadRuns in Hrun as (Hauto & runId & Hget).
        change (getRun workspaceRoot runId st1) with (getRun workspaceRoot runId st) in Hget.
        rewrite <- (Hnamed _ _ _ Hget) in Hget. by exists run.
      - intros (run & Hget & Hauto). exists run. split.
        + symmetry. by apply (Hnamed _ _ _ Hget).
        + apply elem_of_loadRuns. split; [done|]. by exists runId. }
    assert (Hruns : ∀ root' runId,
              getRun root' runId st'
              = if decide (root' = workspaceRoot ∧ runId ∈ r_id <$> runs
                           ∧ unlinkSync_ok hh workspaceRoot runId = true)
                then None else getRun root' runId st).
    { intros root' runId. by rewrite Hst', deleteRuns_getRun. }
    split_and!.
    + unfold deleteAutomation. by rewrite Hfind.
    + unfold loadAutomations. rewrite Hst', deleteRuns_configFiles.
      unfold st1. simpl. by rewrite lookup_insert_eq.
    + intros Hnodup. rewrite Hconfig. unfold st1.
      rewrite getAutomation_saveAutomations, decide_True by done.
      rewrite (find_delete_same _ _ _ _ Hfind).
      apply fmap_None, findAutomation_None. intros a Ha Hid.
      apply findAutomation_Some in Hfind as [Hlookup Hexisting].
      apply list_elem_of_lookup in Ha as [j Hj]. rewrite lookup_drop in Hj.
      apply (NoDup_lookup _ index (S index + j) automationId) in Hnodup; [lia|..].
      * by rewrite list_lookup_fmap, Hlookup; simpl; rewrite Hexisting.
      * by rewrite list_lookup_fmap, Hj; simpl; rewrite Hid.
    + intros id' Hne. rewrite Hconfig. unfold st1.
      rewrite getAutomation_saveAutomations, decide_True by done.
      by rewrite (find_delete _ _ _ _ _ Hfind).
    + intros root' id' Hne. rewrite Hconfig. unfold st1.
      by rewrite getAutomation_saveAutomations, decide_False.
    + intros runId run Hget. rewrite Hruns, Hget.
      destruct (decide (r_automationId run = automationId ∧ _)) as [[Hauto Hok]|Hnot].
      * rewrite decide_True; [done|]. split_and!; [done| |done].
        apply Hin. by exists run.
      * rewrite decide_False; [done|]. intros (_ & Hrun & Hok).
        apply Hin in Hrun as (run' & Hget' & Hauto). apply Hnot.
        split; [|done]. congruence.
    + intros root' runId Hnone. rewrite Hruns, Hnone. by destruct (decide _).
    + intros root' runId Hne. rewrite Hruns, decide_False; [done|]. by intros [? _].
Qed.

(** ** Run manager, continued *)

Lemma storeUpdate_runFilesNamed workspaceRoot runId updates w :
  runFilesNamed (storage w) →
  runFilesNamed (storage (storeUpdate workspaceRoot runId updates w).2).
Proof.
  intros Hnamed. unfold storeUpdate.
  pose proof (runFilesNamed_updateRun workspaceRoot runId updates _ Hnamed) as H.
  by destruct (updateRun _ _ _ _).
Qed.

Lemma catch_tables h f message w :
  let w' := (executeAutomation_catch h f message w).1 in
  activeRuns w' = activeRuns w ∧ sessionToRun w' = sessionToRun w
  ∧ timers w' = timers w ∧ nextTimer w' = nextTimer w.
Proof. unfold executeAutomation_catch. manager_cases. Qed.

Lemma catch_runFilesNamed h f message w :
  runFilesNamed (storage w) →
  runFilesNamed (storage (executeAutomation_catch h f message w).1).
Proof.
  intros Hnamed. unfold executeAutomation_catch, isoNow, readClock, logged.
  pose proof (storeUpdate_runFilesNamed (ws_rootPath (f_workspace f)) (r_id (f_run f))
                {| u_status := Some failure;
                   u_completedAt := Some (Some (toISOString h (Date_now h (clockReads w))));
                   u_sessionId := None; u_summary := None;
                   u_error := Some (Some message) |}
                (set_clockReads S (set_log (λ old, old ++ [Log error "Run {} failed to start: {}"
                                     [LStr (r_id (f_run f)); LStr message]]) w)) Hnamed) as H.
  cbn [clockReads set_log] in *.
  destruct (storeUpdate _ _ _ _) as [[failedRun|] w1]; cbn [fst snd] in *; [|done].
  unfold broadcastAutomationsChanged, broadcastAutomationEvent.
  cbn [storage set_broadcasts]. by apply recordRun_runFilesNamed.
Qed.

Lemma completeRun_runFilesNamed h runId status error_ w :
  runFilesNamed (storage w) →
  runFilesNamed (storage (completeRun h runId status error_ w)).
Proof.
  intros Hnamed. unfold completeRun.
  destruct (JsMap.get runId (activeRuns w)) as [active|]; [|done].
  unfold isoNow, readClock.
  pose proof (storeUpdate_runFilesNamed (ar_workspaceRoot active) runId
                {| u_status := Some (statusOf status);
                   u_completedAt := Some (Some (toISOString h (Date_now h (clockReads w))));
                   u_sessionId := None; u_summary := None;
                   u_error := Some (truthy error_) |}
                (set_clockReads S w) Hnamed) as H.
  destruct (storeUpdate _ _ _ _) as [[updatedRun|] w1]; cbn [fst snd] in *.
  - unfold clearTimeout, logged, broadcastAutomationsChanged, broadcastAutomationEvent.
    destruct (ar_timeoutTimer active);
      cbn [storage set_activeRuns set_sessionToRun set_timers set_log set_broadcasts];
      by apply recordRun_runFilesNamed.
  - unfold clearTimeout. by destruct (ar_timeoutTimer active).
Qed.

Lemma completeRun_wf_sessionToRun h runId status error_ w :
  JsMap.wf (sessionToRun w) → JsMap.wf (sessionToRun (completeRun h runId status error_ w)).
Proof.
  intros Hwf. destruct (JsMap.get runId (activeRuns w)) as [active|] eqn:Hactive.
  - rewrite (completeRun_sessionToRun _ _ _ _ _ active) by done. by apply jsmap_wf_delete.
  - by rewrite completeRun_inactive.
Qed.

Lemma completeRun_tablesOk h runId status error_ w :
  tablesOk w → tablesOk (completeRun h runId status error_ w).
Proof.
  intros (Hactive & Hsession & Hnamed). split_and!.
  - rewrite completeRun_activeRuns. by apply jsmap_wf_delete.
  - by apply completeRun_wf_sessionToRun.
  - by apply completeRun_runFilesNamed.
Qed.

Lemma tablesOk_same w w' :
  activeRuns w' = activeRuns w → sessionToRun w' = sessionToRun w →
  storage w' = storage w → tablesOk w → tablesOk w'.
Proof. unfold tablesOk. by intros -> -> ->. Qed.

Lemma catch_tablesOk h f message w :
  tablesOk w → tablesOk (executeAutomation_catch h f message w).1.
Proof.
  intros (Hactive & Hsession & Hnamed).
  destruct (catch_tables h f message w) as (Ha & Hs & _).
  unfold tablesOk. rewrite Ha, Hs.
  split_and!; [done..|]. by apply catch_runFilesNamed.
Qed.

Lemma cleanup_loop_runFilesNamed h (l : list (string * ActiveRun)) w :
  runFilesNamed (storage w) → runFilesNamed (storage (foldl (cleanupRun h) w l)).
Proof.
  revert w. induction l as [|entry l IH]; intros w Hnamed; [done|].
  cbn [foldl]. by apply IH, cleanupRun_runFilesNamed.
Qed.

Lemma step_tablesOk h op w : tablesOk w → tablesOk (step h op w).
Proof.
  intros Hok.
  destruct op as [workspaceId automationId triggeredBy triggerContext
                 | f [sessionId|message] | sf [[]|message] | sf [[]|message]
                 | workspaceId runId | runId [[]|message] | event | timer | message | ];
    cbn [step].
  - destruct Hok as (Hactive & Hsession & Hnamed).
    unfold executeAutomation, freshId, isoNow, readClock, createRun.
    repeat case_match; simplify_eq/=; try done.
    split_and!; [done..|]. by apply runFilesNamed_saveRun.
  - unfold executeAutomation_afterCreateSession.
    pose proof (storeUpdate_runFilesNamed (ws_rootPath (f_workspace f)) (r_id (f_run f))
                  {| u_status := Some running; u_completedAt := None;
                     u_sessionId := Some (Some sessionId); u_summary := None;
                     u_error := None |} w (proj2 (proj2 Hok))) as Hnamed.
    assert (Htables : let w1 := (storeUpdate (ws_rootPath (f_workspace f)) (r_id (f_run f))
                  {| u_status := Some running; u_completedAt := None;
                     u_sessionId := Some (Some sessionId); u_summary := None;
                     u_error := None |} w).2 in
              activeRuns w1 = activeRuns w ∧ sessionToRun w1 = sessionToRun w).
    { unfold storeUpdate. by destruct (updateRun _ _ _ _). }
    destruct (storeUpdate _ _ _ _) as [[updatedRun|] w1]; cbn [fst snd] in *.
    + destruct Htables as [Ha Hs]. destruct Hok as (Hactive & Hsession & _).
      unfold executeAutomation_send, readClock, setTimeout, call.
      repeat case_match; simplify_eq/=;
        (split_and!; cbn; [rewrite Ha; by apply jsmap_wf_set
                          |rewrite Hs; by apply jsmap_wf_set|done]).
    + apply catch_tablesOk. destruct Htables as [Ha Hs].
      destruct Hok as (Hactive & Hsession & _). split_and!; by rewrite ?Ha, ?Hs.
  - by apply catch_tablesOk.
  - done.
  - by apply catch_tablesOk.
  - done.
  - by apply catch_tablesOk.
  - unfold cancelRun. by case_match.
  - by apply completeRun_tablesOk.
  - done.
  - unfold sessionEmits, handleSessionEvent.
    repeat case_match; try done; by apply completeRun_tablesOk.
  - unfold timerExpires. repeat case_match; try done.
    unfold handleTimeout. cbn [activeRuns set_timers].
    case_match; [|done]. by apply completeRun_tablesOk.
  - done.
  - unfold cleanup. split_and!; cbn; try apply NoDup_nil_2.
    apply cleanup_loop_runFilesNamed. apply Hok.
Qed.

(** X9. Every segment of the manager keeps its two tables [Map]s (one entry
    per key) and every run file under the id of the run it holds; so both
    hold after any sequence of segments from a new manager over such files. *)
Theorem manager_keeps_tables (h : ManagerHost) :
  (∀ op w, tablesOk w → tablesOk (step h op w))
  ∧ (∀ st ops, runFilesNamed st → tablesOk (steps h ops (newManager st))).
Proof.
  split; [apply step_tablesOk|].
  intros st ops Hnamed.
  assert (Hnew : tablesOk (newManager st)).
  { split_and!; [apply NoDup_nil_2..|done]. }
  revert Hnew. generalize (newManager st). unfold steps.
  induction ops as [|op ops IH]; intros w Hok; [done|].
  cbn [foldl]. by apply IH, step_tablesOk.
Qed.

Lemma completeRun_nextTimer h runId status error_ w :
  nextTimer (completeRun h runId status error_ w) = nextTimer w.
Proof. unfold completeRun. manager_cases. Qed.

(** [completeRun] on a world where the runs other than [runId] hold pending
    timeouts and the timeout of [runId], if still pending, is its own. *)
Lemma completeRun_pending h runId status error_ w :
  JsMap.wf (activeRuns w) →
  (∀ runId' active',
     runId' ≠ runId → JsMap.get runId' (activeRuns w) = Some active' →
     ∃ timer delay,
       ar_timeoutTimer active' = Some timer ∧ timers w !! timer = Some (runId', delay)) →
  (∀ active timer x,
     JsMap.get runId (activeRuns w) = Some active → ar_timeoutTimer active = Some timer →
     timers w !! timer = Some x → x.1 = runId) →
  (∀ timer x, timers w !! timer = Some x → timer < nextTimer w) →
  timeoutsPending (completeRun h runId status error_ w).
Proof.
  intros Hwf Hothers Hown Hbound. split.
  - intros runId' active'. rewrite completeRun_activeRuns. intros Hget.
    assert (Hne : runId' ≠ runId).
    { intros ->. by rewrite jsmap_get_delete_eq in Hget. }
    rewrite jsmap_get_delete_ne in Hget by done.
    destruct (Hothers _ _ Hne Hget) as (timer & delay & Htimer & Hpending).
    exists timer, delay. split; [done|].
    destruct (JsMap.get runId (activeRuns w)) as [active|] eqn:Hactive.
    + rewrite (completeRun_timers _ _ _ _ _ active) by done.
      destruct (ar_timeoutTimer active) as [t|] eqn:Ht; [|done].
      rewrite lookup_delete_ne; [done|]. intros ->.
      by specialize (Hown _ _ _ eq_refl Ht Hpending).
    + by rewrite completeRun_inactive.
  - intros timer x. rewrite completeRun_nextTimer.
    destruct (JsMap.get runId (activeRuns w)) as [active|] eqn:Hactive.
    + rewrite (completeRun_timers _ _ _ _ _ active) by done.
      destruct (ar_timeoutTimer active) as [t|]; [|apply Hbound].
      intros [_ ?]%lookup_delete_Some. by eapply Hbound.
    + rewrite completeRun_inactive by done. apply Hbound.
Qed.

Lemma completeRun_timeoutsPending h runId status error_ w :
  JsMap.wf (activeRuns w) → timeoutsPending w →
  timeoutsPending (completeRun h runId status error_ w).
Proof.
  intros Hwf [Hruns Hbound]. apply completeRun_pending; [done| | |done].
  - intros runId' active' _. apply Hruns.
  - intros active timer x Hactive Htimer Hpending.
    destruct (Hruns _ _ Hactive) as (t & delay & Ht & Hp). by simplify_eq.
Qed.

Lemma timeoutsPending_same w w' :
  activeRuns w' = activeRuns w → timers w' = timers w → nextTimer w' = nextTimer w →
  timeoutsPending w → timeoutsPending w'.
Proof. unfold timeoutsPending. by intros -> -> ->. Qed.

Lemma catch_timeoutsPending h f message w :
  timeoutsPending w → timeoutsPending (executeAutomation_catch h f message w).1.
Proof.
  destruct (catch_tables h f message w) as (Ha & _ & Ht & Hn).
  by apply timeoutsPending_same.
Qed.

Lemma cleanupRun_timers h w entry timer x :
  timers (cleanupRun h w entry) !! timer = Some x → timers w !! timer = Some x.
Proof.
  destruct entry as [runId active]. unfold cleanupRun.
  manager_cases; by intros [_ ?]%lookup_delete_Some.
Qed.

Lemma cleanupRun_nextTimer h w entry : nextTimer (cleanupRun h w entry) = nextTimer w.
Proof. destruct entry as [runId active]. unfold cleanupRun. manager_cases. Qed.

Lemma cleanup_loop_timers h (l : list (string * ActiveRun)) w :
  (∀ timer x, timers (foldl (cleanupRun h) w l) !! timer = Some x → timers w !! timer = Some x)
  ∧ nextTimer (foldl (cleanupRun h) w l) = nextTimer w.
Proof.
  revert w. induction l as [|entry l IH]; intros w; [done|].
  cbn [foldl]. destruct (IH (cleanupRun h w entry)) as [IH1 IH2]. split.
  - intros timer x Hx. by eapply cleanupRun_timers, IH1.
  - by rewrite IH2, cleanupRun_nextTimer.
Qed.

Lemma step_timeoutsPending h op w :
  JsMap.wf (activeRuns w) → timeoutsPending w → timeoutsPending (step h op w).
Proof.
  intros Hwf Hok.
  destruct op as [workspaceId automationId triggeredBy triggerContext
                 | f [sessionId|message] | sf [[]|message] | sf [[]|message]
                 | workspaceId runId | runId [[]|message] | event | timer | message | ];
    cbn [step].
  - unfold executeAutomation, freshId, isoNow, readClock, createRun.
    repeat case_match; simplify_eq/=; done.
  - unfold executeAutomation_afterCreateSession.
    assert (Htables : let w1 := (storeUpdate (ws_rootPath (f_workspace f)) (r_id (f_run f))
                  {| u_status := Some running; u_completedAt := None;
                     u_sessionId := Some (Some sessionId); u_summary := None;
                     u_error := None |} w).2 in
              activeRuns w1 = activeRuns w ∧ timers w1 = timers w
              ∧ nextTimer w1 = nextTimer w).
    { unfold storeUpdate. by destruct (updateRun _ _ _ _). }
    destruct (storeUpdate _ _ _ _) as [[updatedRun|] w1]; cbn [fst snd] in *.
    + destruct Htables as (Ha & Ht & Hn). destruct Hok as [Hruns Hbound].
      assert (Hshape : ∀ w2,
                activeRuns w2
                = JsMap.set (r_id (f_run f))
                    {| ar_runId := r_id (f_run f); ar_automationId := f_automationId f;
                       ar_workspaceId := f_workspaceId f;
                       ar_workspaceRoot := ws_rootPath (f_workspace f);
                       ar_sessionId := sessionId;
                       ar_startTime := Date_now h (clockReads w1);
                       ar_timeoutTimer := Some (nextTimer w) |} (activeRuns w) →
                timers w2
                = <[nextTimer w := (r_id (f_run f),
                      (orNumber (ac_timeoutSeconds (a_actionConfig (f_automation f))) 300
                       * 1000)%Z)]> (timers w) →
                nextTimer w2 = S (nextTimer w) →
                timeoutsPending w2).
      { intros w2 Ha2 Ht2 Hn2. split.
        - intros runId active. rewrite Ha2, Ht2.
          destruct (decide (r_id (f_run f) = runId)) as [<-|Hne].
          + rewrite jsmap_get_set_eq. intros [= <-]. eexists _, _.
            split; [done|]. by rewrite lookup_insert_eq.
          + rewrite jsmap_get_set_ne by done. intros Hget.
            destruct (Hruns _ _ Hget) as (timer & delay & Htimer & Hpending).
            exists timer, delay. split; [done|].
            rewrite lookup_insert_ne; [done|].
            intros <-. apply Hbound in Hpending. lia.
        - intros timer x. rewrite Ht2, Hn2.
          intros [[<- _]|[_ Hx]]%lookup_insert_Some; [lia|].
          apply Hbound in Hx. lia. }
      unfold executeAutomation_send, readClock, setTimeout, call.
      repeat case_match; simplify_eq/=; apply Hshape; cbn; by rewrite ?Ha, ?Ht, ?Hn.
    + apply catch_timeoutsPending. destruct Htables as (Ha & Ht & Hn).
      by apply (timeoutsPending_same w).
  - by apply catch_timeoutsPending.
  - done.
  - by apply catch_timeoutsPending.
  - done.
  - by apply catch_timeoutsPending.
  - unfold cancelRun. by case_match.
  - by apply completeRun_timeoutsPending.
  - done.
  - unfold sessionEmits, handleSessionEvent.
    repeat case_match; try done; by apply completeRun_timeoutsPending.
  - unfold timerExpires.
    destruct (timers w !! timer) as [[runId delay]|] eqn:Htimer; [|done].
    destruct Hok as [Hruns Hbound].
    unfold handleTimeout. cbn [activeRuns set_timers].
    destruct (JsMap.get runId (activeRuns w)) as [active|] eqn:Hactive.
    + unfold readClock, logged, call. apply completeRun_pending; cbn.
      * done.
      * intros runId' active' Hne Hget.
        destruct (Hruns _ _ Hget) as (t & d & Ht & Hp).
        exists t, d. split; [done|]. rewrite lookup_delete_ne; [done|].
        intros <-. congruence.
      * intros active0 t x Hget Ht [_ Hp]%lookup_delete_Some.
        destruct (Hruns _ _ Hget) as (t' & d' & Ht' & Hp'). by simplify_eq.
      * intros t x [_ Hp]%lookup_delete_Some. by eapply Hbound.
    + split; cbn.
      * intros runId' active' Hget.
        destruct (Hruns _ _ Hget) as (t & d & Ht & Hp).
        exists t, d. split; [done|]. rewrite lookup_delete_ne; [done|].
        intros <-. congruence.
      * intros t x [_ Hp]%lookup_delete_Some. by eapply Hbound.
  - done.
  - unfold cleanup. split; cbn.
    + done.
    + intros timer x Hx.
      destruct (cleanup_loop_timers h (activeRuns w)
                  (set_triggerRegistry unregisterAll
                     (logged info "Cleaning up {} active run(s)"
                        [LNum (Z.of_nat (JsMap.size (activeRuns w)))] w))) as [H1 H2].
      unfold logged in *. cbn in *. rewrite H2. apply H1 in Hx.
      destruct Hok as [_ Hbound]. by eapply Hbound.
Qed.

(** X10. Every run of the active-run table holds at all times a timeout
    that is still pending and was set for that run, so no admitted run
    stays in the table without a timeout that will end it: every segment of
    the manager keeps this, and it holds after any sequence of segments from
    a new manager. *)
Theorem active_runs_hold_pending_timeouts (h : ManagerHost) :
  (∀ op w, JsMap.wf (activeRuns w) → timeoutsPending w → timeoutsPending (step h op w))
  ∧ (∀ st ops runId active,
       runFilesNamed st →
       JsMap.get runId (activeRuns (steps h ops (newManager st))) = Some active →
       ∃ timer delay,
         ar_timeoutTimer active = Some timer
         ∧ timers (steps h ops (newManager st)) !! timer = Some (runId, delay)
         ∧ JsMap.get runId
             (activeRuns (timerExpires h timer (steps h ops (newManager st)))) = None).
Proof.
  split; [apply step_timeoutsPending|].
  intros st ops runId active Hnamed.
  assert (Hnew : tablesOk (newManager st) ∧ timeoutsPending (newManager st)).
  { split; [split_and!; [apply NoDup_nil_2..|done]|]. split; [done|].
    intros timer x. cbn. by rewrite lookup_empty. }
  revert Hnew. generalize (newManager st). unfold steps.
  induction ops as [|op ops IH]; intros w [Hok Hpending]; cbn [foldl].
  - intros Hactive. destruct Hpending as [Hruns _].
    destruct (Hruns _ _ Hactive) as (timer & delay & Htimer & Hp).
    exists timer, delay. split_and!; [done..|].
    unfold timerExpires. rewrite Hp. unfold handleTimeout.
    cbn [activeRuns set_timers]. rewrite Hactive. unfold readClock, logged, call.
    rewrite completeRun_activeRuns. cbn. apply jsmap_get_delete_eq, Hok.
  - apply IH. split.
    + by apply step_tablesOk.
    + apply step_timeoutsPending; [apply Hok|done].
Qed.

(** What [completeRun] records for a run of the table whose file exists. *)
Lemma storage_completeRun_active h runId status error_ w active stored :
  JsMap.get runId (activeRuns w) = Some active →
  getRun (ar_workspaceRoot active) runId (storage w) = Some stored →
  let completedAt := toISOString h (Date_now h (clockReads w)) in
  let updated := finished (statusOf status) completedAt (truthy error_) stored in
  let w1 := set_storage (λ _, saveRun (ar_workspaceRoot active) updated (storage w))
              (set_clockReads S w) in
  storage (completeRun h runId status error_ w)
  = storage (recordRun h (ar_workspaceRoot active) (ar_automationId active) updated w1)
  ∧ broadcasts (completeRun h runId status error_ w)
    = broadcasts w
      ++ [AUTOMATION_EVENT (eventTypeOf status) updated;
          AUTOMATIONS_CHANGED
            (loadAutomations (ar_workspaceRoot active)
               (storage (completeRun h runId status error_ w)))].
Proof.
  intros Hactive Hstored completedAt updated w1.
  unfold completeRun. rewrite Hactive.
  unfold isoNow, readClock, storeUpdate. cbn [storage set_clockReads clockReads].
  rewrite (updateRun_Some _ _ _ _ _ Hstored).
  fold completedAt. change (spreadRun stored _) with updated. fold w1.
  unfold clearTimeout, logged, broadcastAutomationsChanged, broadcastAutomationEvent.
  assert (Hb : broadcasts (recordRun h (ar_workspaceRoot active) (ar_automationId active)
                             updated w1) = broadcasts w).
  { unfold recordRun. manager_cases. }
  destruct (ar_timeoutTimer active); cbn; rewrite Hb, <- app_assoc; done.
Qed.

Lemma completeRun_getAutomation h runId status error_ w active stored root' id' :
  JsMap.get runId (activeRuns w) = Some active →
  getRun (ar_workspaceRoot active) runId (storage w) = Some stored →
  getAutomation root' id' (storage (completeRun h runId status error_ w))
  = if decide (root' = ar_workspaceRoot active ∧ id' = ar_automationId active)
    then (λ a, afterRun a
                 (finished (statusOf status) (toISOString h (Date_now h (clockReads w)))
                    (truthy error_) stored)
                 (toISOString h (Date_now h (S (clockReads w)))))
           <$> getAutomation root' id' (storage w)
    else getAutomation root' id' (storage w).
Proof.
  intros Hactive Hstored.
  destruct (storage_completeRun_active h runId status error_ w active stored Hactive Hstored)
    as [-> _].
  rewrite recordRun_getAutomation. cbn [clockReads set_storage set_clockReads storage].
  by rewrite !getAutomation_saveRun.
Qed.

Lemma jsmap_delete_set_fresh {V} k (v : V) (m : JsMap.t V) :
  JsMap.get k m = None → JsMap.delete k (JsMap.set k v m) = m.
Proof.
  induction m as [|[k' v'] m IH]; simpl.
  - by rewrite String.eqb_refl.
  - destruct (String.eqb k' k) eqn:E; [done|]. intros Hget.
    simpl. rewrite E. by rewrite IH.
Qed.

(** What [completeRun] leaves of a run of the table whose file exists. *)
Lemma completeRun_finishes h runId status error_ w active stored :
  tablesOk w →
  JsMap.get runId (activeRuns w) = Some active →
  getRun (ar_workspaceRoot active) runId (storage w) = Some stored →
  let w' := completeRun h runId status error_ w in
  (∃ updated,
     getRun (ar_workspaceRoot active) runId (storage w') = Some updated
     ∧ r_status updated = statusOf status
     ∧ r_error updated = truthy error_
     ∧ r_completedAt updated = Some (toISOString h (Date_now h (clockReads w)))
     ∧ r_sessionId updated = r_sessionId stored
     ∧ r_automationId updated = r_automationId stored
     ∧ r_startedAt updated = r_startedAt stored
     ∧ (∃ changed,
          broadcasts w'
          = broadcasts w ++ [AUTOMATION_EVENT (eventTypeOf status) updated;
                             AUTOMATIONS_CHANGED changed])
     ∧ (∀ automation,
          getAutomation (ar_workspaceRoot active) (ar_automationId active) (storage w)
          = Some automation →
          ∃ automation',
            getAutomation (ar_workspaceRoot active) (ar_automationId active) (storage w')
            = Some automation'
            ∧ a_runCount automation' = (a_runCount automation + 1)%Z
            ∧ a_lastStatus automation'
              = nextLastStatus (statusOf status) (a_lastStatus automation)
            ∧ a_lastRunAt automation' = r_completedAt updated))
  ∧ JsMap.get runId (activeRuns w') = None
  ∧ JsMap.get (ar_sessionId active) (sessionToRun w') = None
  ∧ (∀ timer, ar_timeoutTimer active = Some timer → timers w' !! timer = None)
  ∧ sessionCalls w' = sessionCalls w.
Proof.
  intros (Hwf & Hwfs & Hnamed) Hactive Hstored w'.
  pose proof (Hnamed _ _ _ Hstored) as Hid.
  split_and!.
  - eexists. split; [by apply (completeRun_getRun _ _ _ _ _ active stored)|].
    split_and!; try done.
    + destruct (storage_completeRun_active h runId status error_ w active stored
                  Hactive Hstored) as [_ Hb].
      eexists. exact Hb.
    + intros automation Hauto. unfold w'.
      rewrite (completeRun_getAutomation _ _ _ _ _ active stored) by done.
      rewrite decide_True by done. rewrite Hauto. eexists. split; [done|]. done.
  - unfold w'. rewrite completeRun_activeRuns. by apply jsmap_get_delete_eq.
  - unfold w'. rewrite (completeRun_sessionToRun _ _ _ _ _ active) by done.
    by apply jsmap_get_delete_eq.
  - intros timer Htimer. unfold w'.
    rewrite (completeRun_timers _ _ _ _ _ active) by done.
    rewrite Htimer. apply lookup_delete_eq.
  - apply completeRun_sessionCalls.
Qed.

(** X11. [cancelRun] on a run that is not in the active-run table answers
    [false] and only logs a warning.  On an active run it asks the session
    manager to cancel the run's session and waits; when that request
    fulfils, the run is recorded as cancelled with no error, leaves both
    tables, its timeout is cleared and the automation counts one more run
    with its last status unchanged; when the request is rejected nothing
    changes, so the run stays active; and when the run was finished in the
    meantime, the resumption still answers [true] and changes nothing. *)
Theorem cancelRun_cancels (h : ManagerHost) (workspaceId runId : string) (w : World) :
  (JsMap.get runId (activeRuns w) = None →
   (cancelRun workspaceId runId w).2 = inl false
   ∧ ∃ line, (cancelRun workspaceId runId w).1 = set_log (λ old, old ++ [line]) w
             ∧ log_level line = warn)
  ∧ (∀ active,
       JsMap.get runId (activeRuns w) = Some active →
       let w1 := (cancelRun workspaceId runId w).1 in
       (cancelRun workspaceId runId w).2 = inr runId
       ∧ sessionCalls w1 = sessionCalls w ++ [cancelProcessing (ar_sessionId active)]
       ∧ storage w1 = storage w ∧ activeRuns w1 = activeRuns w
       ∧ sessionToRun w1 = sessionToRun w ∧ timers w1 = timers w
       ∧ broadcasts w1 = broadcasts w
       ∧ (∀ message, cancelRun_afterCancelProcessing h runId (Rejected message) w1
                     = (w1, None))
       ∧ (∀ stored,
            tablesOk w →
            getRun (ar_workspaceRoot active) runId (storage w) = Some stored →
            let w' := (cancelRun_afterCancelProcessing h runId (Fulfilled ()) w1).1 in
            (cancelRun_afterCancelProcessing h runId (Fulfilled ()) w1).2 = Some true
            ∧ (∃ updated,
                 getRun (ar_workspaceRoot active) runId (storage w') = Some updated
                 ∧ r_status updated = cancelled
                 ∧ r_error updated = None
                 ∧ is_Some (r_completedAt updated)
                 ∧ r_sessionId updated = r_sessionId stored
                 ∧ (∃ changed,
                      broadcasts w'
                      = broadcasts w ++ [AUTOMATION_EVENT run_cancelled updated;
                                         AUTOMATIONS_CHANGED changed])
                 ∧ (∀ automation,
                      getAutomation (ar_workspaceRoot active) (ar_automationId active)
                        (storage w) = Some automation →
                      ∃ automation',
                        getAutomation (ar_workspaceRoot active) (ar_automationId active)
                          (storage w') = Some automation'
                        ∧ a_runCount automation' = (a_runCount automation + 1)%Z
                        ∧ a_lastStatus automation' = a_lastStatus automation
                        ∧ a_lastRunAt automation' = r_completedAt updated))
            ∧ JsMap.get runId (activeRuns w') = None
            ∧ JsMap.get (ar_sessionId active) (sessionToRun w') = None
            ∧ (∀ timer, ar_timeoutTimer active = Some timer → timers w' !! timer = None)
            ∧ sessionCalls w' = sessionCalls w1))
  ∧ (∀ w2, JsMap.get runId (activeRuns w2) = None →
           cancelRun_afterCancelProcessing h runId (Fulfilled ()) w2 = (w2, Some true)).
Proof.
  split_and!.
  - intros Hnone. unfold cancelRun. rewrite Hnone. split; [done|].
    eexists. split; [reflexivity|done].
  - intros active Hactive w1.
    assert (Hw1 : w1 = call (cancelProcessing (ar_sessionId active))
                         (logged info "Cancelling run {}" [LStr runId] w)).
    { unfold w1, cancelRun. by rewrite Hactive. }
    assert (Hout : (cancelRun workspaceId runId w).2 = inr runId).
    { unfold cancelRun. by rewrite Hactive. }
    clearbody w1. subst w1. split; [done|].
    split_and!; try done.
    intros stored Hok Hstored w'.
    assert (Hok0 : tablesOk (call (cancelProcessing (ar_sessionId active))
                               (logged info "Cancelling run {}" [LStr runId] w))) by done.
    destruct (completeRun_finishes h runId fin_cancelled None _ active stored Hok0
                Hactive Hstored)
      as ((updated & Hget & Hstatus & Herror & Hat & Hsession & _ & _ & Hb & Hauto)
          & Hgone & Hsgone & Htimer & Hcalls).
    split_and!; [done| |done..].
    exists updated. by split_and!.
  - intros w2 Hnone. unfold cancelRun_afterCancelProcessing.
    by rewrite completeRun_inactive.
Qed.

Lemma sessionEmits_routed h event sessionId runId active w :
  listening w = true →
  ev_type event = "complete" ∨ ev_type event = "error" →
  ev_sessionId event = Some sessionId → sessionId ≠ "" →
  JsMap.get sessionId (sessionToRun w) = Some runId → runId ≠ "" →
  JsMap.get runId (activeRuns w) = Some active →
  sessionEmits h event w
  = if String.eqb (ev_type event) "complete" then
      completeRun h runId fin_success None
        (logged info "Session {} completed for run {}" [LStr sessionId; LStr runId] w)
    else
      completeRun h runId fin_failure (ev_error event)
        (logged error "Session {} errored for run {}: {}" [LStr sessionId; LStr runId] w).
Proof.
  intros Hon Htype Hev Hs Hsession Hr Hactive.
  unfold sessionEmits, handleSessionEvent. rewrite Hon, Hev.
  assert (negb (String.eqb (ev_type event) "complete"
                || String.eqb (ev_type event) "error") = false) as ->.
  { by destruct Htype as [-> | ->]. }
  apply String.eqb_neq in Hs, Hr. unfold truthy at 1. rewrite Hs, Hsession.
  unfold truthy at 1. rewrite Hr, Hactive. done.
Qed.

(** X12. An event of the session manager reaches a run only when it is a
    [complete] or an [error] event whose session is mapped to a run of the
    active-run table: [complete] records the run as a success with no error
    and sets the automation's last status to success; [error] records it as
    a failure with the event's error and sets the last status to failure;
    either way the run leaves both tables, its timeout is cleared and the
    automation counts one more run.  Every other event, an event without a
    session id, an event of a session the manager does not know, and every
    event that arrives while the manager is not listening leave the world
    unchanged. *)
Theorem session_events_finish_runs (h : ManagerHost) (w : World) :
  (∀ event,
     ev_type event ≠ "complete" → ev_type event ≠ "error" →
     handleSessionEvent h event w = w)
  ∧ (∀ event,
       ev_sessionId event = None ∨ ev_sessionId event = Some "" →
       handleSessionEvent h event w = w)
  ∧ (∀ event sessionId,
       ev_sessionId event = Some sessionId →
       JsMap.get sessionId (sessionToRun w) = None →
       handleSessionEvent h event w = w)
  ∧ (∀ event sessionId runId,
       ev_sessionId event = Some sessionId →
       JsMap.get sessionId (sessionToRun w) = Some runId →
       JsMap.get runId (activeRuns w) = None →
       handleSessionEvent h event w = w)
  ∧ (∀ event, listening w = false → sessionEmits h event w = w)
  ∧ (∀ event sessionId runId active stored,
       tablesOk w →
       listening w = true →
       ev_type event = "complete" ∨ ev_type event = "error" →
       ev_sessionId event = Some sessionId → sessionId ≠ "" →
       JsMap.get sessionId (sessionToRun w) = Some runId → runId ≠ "" →
       JsMap.get runId (activeRuns w) = Some active →
       getRun (ar_workspaceRoot active) runId (storage w) = Some stored →
       let w' := sessionEmits h event w in
       let status := if String.eqb (ev_type event) "complete" then success else failure in
       (∃ updated,
          getRun (ar_workspaceRoot active) runId (storage w') = Some updated
          ∧ r_status updated = status
          ∧ r_error updated
            = (if String.eqb (ev_type event) "complete" then None
               else truthy (ev_error event))
          ∧ is_Some (r_completedAt updated)
          ∧ r_sessionId updated = r_sessionId stored
          ∧ (∃ changed,
               broadcasts w'
               = broadcasts w
                 ++ [AUTOMATION_EVENT
                       (if String.eqb (ev_type event) "complete"
                        then run_completed else run_failed) updated;
                     AUTOMATIONS_CHANGED changed])
          ∧ (∀ automation,
               getAutomation (ar_workspaceRoot active) (ar_automationId active)
                 (storage w) = Some automation →
               ∃ automation',
                 getAutomation (ar_workspaceRoot active) (ar_automationId active)
                   (storage w') = Some automation'
                 ∧ a_runCount automation' = (a_runCount automation + 1)%Z
                 ∧ a_lastStatus automation'
                   = Some (if String.eqb (ev_type event) "complete"
                           then last_success else last_failure)
                 ∧ a_lastRunAt automation' = r_completedAt updated))
       ∧ JsMap.get runId (activeRuns w') = None
       ∧ JsMap.get (ar_sessionId active) (sessionToRun w') = None
       ∧ (∀ timer, ar_timeoutTimer active = Some timer → timers w' !! timer = None)
       ∧ sessionCalls w' = sessionCalls w).
Proof.
  split_and!.
  - intros event Hc He. unfold handleSessionEvent.
    apply String.eqb_neq in Hc, He. by rewrite Hc, He.
  - intros event Hnone. unfold handleSessionEvent.
    destruct (negb _); [done|]. by destruct Hnone as [-> | ->].
  - intros event sessionId Hev Hnone. unfold handleSessionEvent.
    destruct (negb _); [done|]. rewrite Hev.
    destruct (truthy (Some sessionId)) as [s|] eqn:E; [|done].
    unfold truthy in E. destruct (String.eqb sessionId ""); [done|].
    injection E as <-. by rewrite Hnone.
  - intros event sessionId runId Hev Hsession Hnone. unfold handleSessionEvent.
    destruct (negb _); [done|]. rewrite Hev.
    destruct (truthy (Some sessionId)) as [s|] eqn:E; [|done].
    unfold truthy in E. destruct (String.eqb sessionId ""); [done|].
    injection E as <-. rewrite Hsession.
    destruct (truthy (Some runId)) as [r|] eqn:E; [|done].
    unfold truthy in E. destruct (String.eqb runId ""); [done|].
    injection E as <-. by rewrite Hnone.
  - intros event Hoff. unfold sessionEmits. by rewrite Hoff.
  - intros event sessionId runId active stored Hok Hon Htype Hev Hs Hsession Hr
      Hactive Hstored w' status.
    assert (Hw' : w' = if String.eqb (ev_type event) "complete" then
                         completeRun h runId fin_success None
                           (logged info "Session {} completed for run {}"
                              [LStr sessionId; LStr runId] w)
                       else
                         completeRun h runId fin_failure (ev_error event)
                           (logged error "Session {} errored for run {}: {}"
                              [LStr sessionId; LStr runId] w)).
    { by apply (sessionEmits_routed _ _ _ _ active). }
    unfold status. clear status. rewrite Hw'. clear Hw' w'.
    destruct (String.eqb (ev_type event) "complete").
    + destruct (completeRun_finishes h runId fin_success None
                  (logged info "Session {} completed for run {}"
                     [LStr sessionId; LStr runId] w) active stored Hok Hactive Hstored)
        as ((updated & Hget & Hstatus & Herror & Hat & Hsess & _ & _ & Hb & Hauto)
            & Hgone & Hsgone & Htimer & Hcalls).
      split_and!; try done.
      exists updated. by split_and!.
    + destruct (completeRun_finishes h runId fin_failure (ev_error event)
                  (logged error "Session {} errored for run {}: {}"
                     [LStr sessionId; LStr runId] w) active stored Hok Hactive Hstored)
        as ((updated & Hget & Hstatus & Herror & Hat & Hsess & _ & _ & Hb & Hauto)
            & Hgone & Hsgone & Htimer & Hcalls).
      split_and!; try done.
      exists updated. by split_and!.
Qed.

(** X13. [executeAutomation] refuses a request, with the world untouched,
    exactly when the workspace is unknown, the automation is not in the
    workspace, or the active-run table is full.  Otherwise it writes one
    pending run under a newly generated id, with the trigger and its
    context, tells the windows that the run started, asks the session
    manager for a hidden session (permission mode [safe] and working
    directory [user_default] unless configured) and waits; no other file and
    neither table changes.  A refused request that came from a trigger adds
    one error line to the log and nothing else. *)
Theorem executeAutomation_starts_or_refuses (h : ManagerHost)
    (workspaceId automationId : string) (triggeredBy : TriggerType)
    (triggerContext : option TriggerContext) (w : World) :
  let result := executeAutomation h workspaceId automationId triggeredBy triggerContext w in
  ((∃ message, result.2 = Threw message)
   ↔ getWorkspaceByNameOrId h workspaceId = None
     ∨ (∃ workspace, getWorkspaceByNameOrId h workspaceId = Some workspace
                     ∧ getAutomation (ws_rootPath workspace) automationId (storage w) = None)
     ∨ (maxConcurrentRuns ≤ JsMap.size (activeRuns w))%nat)
  ∧ (∀ message, result.2 = Threw message → result.1 = w)
  ∧ (∀ workspace automation,
       getWorkspaceByNameOrId h workspaceId = Some workspace →
       getAutomation (ws_rootPath workspace) automationId (storage w) = Some automation →
       (JsMap.size (activeRuns w) < maxConcurrentRuns)%nat →
       ∃ f,
         result.2 = AwaitCreateSession f
         ∧ f_workspace f = workspace ∧ f_automation f = automation
         ∧ f_run f
           = {| r_id := generateId h (idsGenerated w); r_automationId := automationId;
                r_status := pending;
                r_startedAt := toISOString h (Date_now h (clockReads w));
                r_completedAt := None; r_sessionId := None; r_summary := None;
                r_error := None; r_triggeredBy := triggeredBy;
                r_triggerContext := triggerContext |}
         ∧ getRun (ws_rootPath workspace) (generateId h (idsGenerated w)) (storage result.1)
           = Some (f_run f)
         ∧ (∀ root' runId',
              (root', runId') ≠ (ws_rootPath workspace, generateId h (idsGenerated w)) →
              getRun root' runId' (storage result.1) = getRun root' runId' (storage w))
         ∧ configFiles (storage result.1) = configFiles (storage w)
         ∧ broadcasts result.1 = broadcasts w ++ [AUTOMATION_EVENT run_started (f_run f)]
         ∧ sessionCalls result.1
           = sessionCalls w
             ++ [createSession workspaceId
                   (match ac_permissionMode (a_actionConfig automation) with
                    | Some mode => mode
                    | None => safe
                    end)
                   (ac_model (a_actionConfig automation))
                   (match ac_workingDirectory (a_actionConfig automation) with
                    | Some "" | None => "user_default"
                    | Some directory => directory
                    end)
                   true]
         ∧ activeRuns result.1 = activeRuns w
         ∧ sessionToRun result.1 = sessionToRun w
         ∧ timers result.1 = timers w)
  ∧ (∀ x message,
       (triggered h x w).2 = Threw message →
       ∃ line, (triggered h x w).1 = set_log (λ old, old ++ [line]) w
               ∧ log_level line = error).
Proof.
  intros result. split_and!.
  - unfold result, executeAutomation. split.
    + intros [message Hthrew].
      destruct (getWorkspaceByNameOrId h workspaceId) as [workspace|]; [|by left].
      destruct (getAutomation _ _ _) as [automation|] eqn:Hauto;
        [|right; left; by exists workspace].
      destruct (decide _) as [Hfull|Hroom]; [by right; right|].
      unfold freshId, isoNow, readClock, createRun in Hthrew. done.
    + intros [Hws|[(workspace & Hws & Hauto)|Hfull]].
      * rewrite Hws. by eexists.
      * rewrite Hws, Hauto. by eexists.
      * destruct (getWorkspaceByNameOrId h workspaceId) as [workspace|]; [|by eexists].
        destruct (getAutomation _ _ _) as [automation|]; [|by eexists].
        rewrite decide_True by done. by eexists.
  - intros message. unfold result, executeAutomation.
    repeat case_match; simplify_eq/=; done.
  - intros workspace automation Hws Hauto Hroom.
    unfold result, executeAutomation. rewrite Hws, Hauto.
    rewrite decide_False by (unfold maxConcurrentRuns in *; lia).
    unfold freshId, isoNow, readClock, createRun, logged, call, broadcastAutomationEvent.
    cbn. eexists. split; [reflexivity|]. cbn.
    split_and!; try done.
    + apply lookup_insert_eq.
    + intros root' runId' Hne. unfold getRun. cbn.
      apply lookup_insert_ne. congruence.
    + unfold orString, truthy.
      destruct (ac_permissionMode _), (ac_workingDirectory _) as [[|]|]; done.
  - clear result. intros x message. unfold triggered.
    destruct (executeAutomation h (fire_workspaceId x) _ _ _ w) as [w1 o] eqn:Hexec.
    destruct o as [f|sf|sf|run|thrown]; try done. intros _.
    assert (w1 = w) as ->.
    { change w1 with (w1, Threw thrown).1. rewrite <- Hexec.
      unfold executeAutomation in *.
      repeat case_match; simplify_eq/=; done. }
    eexists. split; [reflexivity|done].
Qed.

(** The world and the result of a call of [executeAutomation] whose requests
    all fulfil. *)
Lemma executeAutomation_fulfilled_world h workspaceId automationId triggeredBy
    triggerContext sessionId w workspace automation :
  getWorkspaceByNameOrId h workspaceId = Some workspace →
  getAutomation (ws_rootPath workspace) automationId (storage w) = Some automation →
  (JsMap.size (activeRuns w) < maxConcurrentRuns)%nat →
  let runId := generateId h (idsGenerated w) in
  let root := ws_rootPath workspace in
  let created :=
    {| r_id := runId; r_automationId := automationId; r_status := pending;
       r_startedAt := toISOString h (Date_now h (clockReads w));
       r_completedAt := None; r_sessionId := None; r_summary := None;
       r_error := None; r_triggeredBy := triggeredBy;
       r_triggerContext := triggerContext |} in
  let started :=
    spreadRun created {| u_status := Some running; u_completedAt := None;
                         u_sessionId := Some (Some sessionId); u_summary := None;
                         u_error := None |} in
  let active :=
    {| ar_runId := runId; ar_automationId := automationId;
       ar_workspaceId := workspaceId; ar_workspaceRoot := root;
       ar_sessionId := sessionId; ar_startTime := Date_now h (S (clockReads w));
       ar_timeoutTimer := Some (nextTimer w) |} in
  let result := executeAutomation_fulfilled h workspaceId automationId triggeredBy
                  triggerContext sessionId w in
  result.2 = Returned started
  ∧ storage result.1 = saveRun root started (saveRun root created (storage w))
  ∧ activeRuns result.1 = JsMap.set runId active (activeRuns w)
  ∧ sessionToRun result.1 = JsMap.set sessionId runId (sessionToRun w)
  ∧ timers result.1
    = <[nextTimer w := (runId, (orNumber (ac_timeoutSeconds (a_actionConfig automation)) 300
                                * 1000)%Z)]> (timers w)
  ∧ listening result.1 = listening w
  ∧ clockReads result.1 = S (S (clockReads w))
  ∧ broadcasts result.1 = broadcasts w ++ [AUTOMATION_EVENT run_started created]
  ∧ (∃ sources prompt,
       sessionCalls result.1
       = sessionCalls w
         ++ [createSession workspaceId
               (default safe (ac_permissionMode (a_actionConfig automation)))
               (ac_model (a_actionConfig automation))
               (orString (ac_workingDirectory (a_actionConfig automation)) "user_default")
               true]
         ++ sources ++ [sendMessage sessionId prompt]
       ∧ Forall (λ c, ∃ slugs, c = setSessionSources sessionId slugs) sources
       ∧ length sources
         = match ac_sourceSlugs (a_actionConfig automation) with
           | Some (_ :: _) => 1
           | _ => 0
           end).
Proof.
  intros Hws Hauto Hroom runId root created started active result.
  unfold result, executeAutomation_fulfilled, executeAutomation.
  rewrite Hws, Hauto.
  rewrite decide_False by (unfold maxConcurrentRuns in *; lia).
  unfold freshId, isoNow, readClock, createRun, logged, call, broadcastAutomationEvent.
  cbn [fulfil fst snd]. unfold executeAutomation_afterCreateSession, storeUpdate.
  cbn [f_workspace f_run f_automation f_workspaceId f_automationId r_id storage
       set_storage set_log set_broadcasts set_sessionCalls set_clockReads set_idsGenerated
       idsGenerated clockReads].
  fold runId root created.
  rewrite (updateRun_Some _ _ _ _ created) by apply (getRun_saveRun_eq root created).
  fold started.
  unfold readClock, setTimeout, executeAutomation_send, call.
  destruct (ac_sourceSlugs (a_actionConfig automation)) as [[|slug slugs]|] eqn:Hslugs;
    cbn; rewrite ?Hslugs; cbn; (split_and!; try done).
  - eexists [], _. rewrite <- !app_assoc. split_and!; [reflexivity|constructor|done].
  - eexists [_], _. rewrite <- !app_assoc. split_and!; [reflexivity| |done].
    constructor; [by eexists|constructor].
  - eexists [], _. rewrite <- !app_assoc. split_and!; [reflexivity|constructor|done].
Qed.

Lemma isAutomationRunning_active automationId runId active w :
  JsMap.get runId (activeRuns w) = Some active →
  ar_automationId active = automationId →
  isAutomationRunning automationId w = true.
Proof.
  intros Hget Hauto. unfold isAutomationRunning. apply existsb_exists.
  exists (runId, active). split.
  - apply list_elem_of_In. by apply jsmap_get_Some_in.
  - simpl. rewrite Hauto. apply String.eqb_refl.
Qed.

(** X14. A run from request to completion: when the workspace and the
    automation exist, the table has room and the session manager fulfils
    every request, [executeAutomation] returns the run recorded as running
    with its session, the run occupies one place in the active-run table
    with a pending timeout and the automation counts as running; when the
    session then reports completion, the run is recorded as a success, both
    tables are again as before the request (so the place is free), the
    run's timeout is cleared and no other timeout is touched, the automation
    counts one more run with last status success, and cancellation was never
    requested. *)
Theorem run_lifecycle (h : ManagerHost) (workspaceId automationId : string)
    (triggeredBy : TriggerType) (triggerContext : option TriggerContext)
    (sessionId : string) (w : World) (workspace : Workspace) (automation : Automation) :
  getWorkspaceByNameOrId h workspaceId = Some workspace →
  getAutomation (ws_rootPath workspace) automationId (storage w) = Some automation →
  (JsMap.size (activeRuns w) < maxConcurrentRuns)%nat →
  tablesOk w →
  listening w = true →
  generateId h (idsGenerated w) ≠ "" →
  sessionId ≠ "" →
  JsMap.get (generateId h (idsGenerated w)) (activeRuns w) = None →
  JsMap.get sessionId (sessionToRun w) = None →
  let runId := generateId h (idsGenerated w) in
  let root := ws_rootPath workspace in
  let started := executeAutomation_fulfilled h workspaceId automationId triggeredBy
                   triggerContext sessionId w in
  let ended := sessionEmits h (completeEvent sessionId) started.1 in
  (∃ run,
     started.2 = Returned run
     ∧ getRun root runId (storage started.1) = Some run
     ∧ r_id run = runId ∧ r_status run = running ∧ r_sessionId run = Some sessionId)
  ∧ getActiveRunCount started.1 = S (getActiveRunCount w)
  ∧ isAutomationRunning automationId started.1 = true
  ∧ (∃ delay, timers started.1 !! nextTimer w = Some (runId, delay))
  ∧ (∃ updated,
       getRun root runId (storage ended) = Some updated
       ∧ r_status updated = success
       ∧ r_error updated = None
       ∧ is_Some (r_completedAt updated)
       ∧ r_sessionId updated = Some sessionId
       ∧ r_automationId updated = automationId
       ∧ r_triggeredBy updated = triggeredBy
       ∧ r_triggerContext updated = triggerContext)
  ∧ activeRuns ended = activeRuns w
  ∧ sessionToRun ended = sessionToRun w
  ∧ timers ended !! nextTimer w = None
  ∧ (∀ timer, timer ≠ nextTimer w → timers ended !! timer = timers w !! timer)
  ∧ (∃ automation',
       getAutomation root automationId (storage ended) = Some automation'
       ∧ a_runCount automation' = (a_runCount automation + 1)%Z
       ∧ a_lastStatus automation' = Some last_success)
  ∧ (∀ cancelled, cancelProcessing cancelled ∈ sessionCalls ended →
       cancelProcessing cancelled ∈ sessionCalls w).
Proof.
  intros Hws Hauto Hroom (Hwf & Hwfs & Hnamed) Hon Hrun Hsession Hfresh Hsfresh
    runId root started ended.
  destruct (executeAutomation_fulfilled_world h workspaceId automationId triggeredBy
              triggerContext sessionId w workspace automation Hws Hauto Hroom)
    as (Hout & Hstorage & Hactive & Hsessions & Htimers & Hlistening & _ & _
        & sources & prompt & Hcalls & Hsources & _).
  fold runId root started in Hout, Hstorage, Hactive, Hsessions, Htimers, Hlistening, Hcalls.
  set (created := {| r_id := runId; r_automationId := automationId; r_status := pending;
                     r_startedAt := toISOString h (Date_now h (clockReads w));
                     r_completedAt := None; r_sessionId := None; r_summary := None;
                     r_error := None; r_triggeredBy := triggeredBy;
                     r_triggerContext := triggerContext |}) in *.
  set (run := spreadRun created _) in *.
  set (active := {| ar_runId := runId; ar_automationId := automationId;
                    ar_workspaceId := workspaceId; ar_workspaceRoot := root;
                    ar_sessionId := sessionId;
                    ar_startTime := Date_now h (S (clockReads w));
                    ar_timeoutTimer := Some (nextTimer w) |}) in *.
  assert (Hget : getRun root runId (storage started.1) = Some run).
  { rewrite Hstorage. apply (getRun_saveRun_eq root run). }
  assert (Hgetactive : JsMap.get runId (activeRuns started.1) = Some active).
  { rewrite Hactive. apply jsmap_get_set_eq. }
  assert (Hok : tablesOk started.1).
  { split_and!.
    - rewrite Hactive. by apply jsmap_wf_set.
    - rewrite Hsessions. by apply jsmap_wf_set.
    - rewrite Hstorage. by do 2 apply runFilesNamed_saveRun. }
  assert (Hended : ended = completeRun h runId fin_success None
                             (logged info "Session {} completed for run {}"
                                [LStr sessionId; LStr runId] started.1)).
  { unfold ended.
    rewrite (sessionEmits_routed h (completeEvent sessionId) sessionId runId active);
      try done.
    - by rewrite Hlistening.
    - by left.
    - rewrite Hsessions. apply jsmap_get_set_eq. }
  destruct (completeRun_finishes h runId fin_success None
              (logged info "Session {} completed for run {}"
                 [LStr sessionId; LStr runId] started.1) active run Hok Hgetactive Hget)
    as ((updated & Hupdated & Hstatus & Herror & Hat & Hsess & Hauto' & _ & _ & Hcount)
        & _ & _ & _ & Hcalls').
  rewrite <- Hended in *.
  split_and!.
  - exists run. by split_and!.
  - unfold getActiveRunCount. rewrite Hactive. by apply jsmap_size_set_fresh.
  - by apply (isAutomationRunning_active _ runId active).
  - eexists. rewrite Htimers. apply lookup_insert_eq.
  - exists updated. split; [done|]. rewrite Hended in Hupdated.
    rewrite (completeRun_getRun _ _ _ _ _ active run) in Hupdated by done.
    injection Hupdated as <-. by split_and!.
  - rewrite Hended, completeRun_activeRuns. cbn. rewrite Hactive.
    by apply jsmap_delete_set_fresh.
  - rewrite Hended, (completeRun_sessionToRun _ _ _ _ _ active) by done.
    cbn. rewrite Hsessions. by apply jsmap_delete_set_fresh.
  - rewrite Hended, (completeRun_timers _ _ _ _ _ active) by done. cbn.
    apply lookup_delete_eq.
  - intros timer Hne. rewrite Hended, (completeRun_timers _ _ _ _ _ active) by done.
    cbn. rewrite lookup_delete_ne by done. rewrite Htimers.
    by apply lookup_insert_ne.
  - assert (Ha : getAutomation root automationId
                   (storage (logged info "Session {} completed for run {}"
                               [LStr sessionId; LStr runId] started.1)) = Some automation).
    { cbn. rewrite Hstorage. by rewrite !getAutomation_saveRun. }
    destruct (Hcount _ Ha) as (automation' & Hget' & Hn & Hlast & _).
    exists automation'. by split_and!.
  - intros cancelled. rewrite Hcalls'. cbn. rewrite Hcalls.
    rewrite !elem_of_app, !list_elem_of_singleton.
    intros [Hin|[[=]|[Hin|[=]]]]; [done|].
    rewrite Forall_forall in Hsources. by destruct (Hsources _ Hin) as [slugs [=]].
Qed.

(** X23. A run does not depend on [maxTurns] and [skillSlugs]: with any
    other values of these two fields in the action configuration of the
    automation, [executeAutomation] asks the session manager for the same
    things, writes the same run files, sets the same timeout and ends in
    the same way, at every one of its segments. *)
Theorem run_ignores_maxTurns_and_skillSlugs (h : ManagerHost) (maxTurns : option Z)
    (skillSlugs : option (list string)) :
  (∀ f session w,
     let a' := withTurnsAndSkills maxTurns skillSlugs (f_automation f) in
     executeAutomation_afterCreateSession h (frameWith a' f) session w
     = ((executeAutomation_afterCreateSession h f session w).1,
        outcomeWith a' (executeAutomation_afterCreateSession h f session w).2))
  ∧ (∀ sf result w,
       let a' := withTurnsAndSkills maxTurns skillSlugs (f_automation (sf_frame sf)) in
       executeAutomation_afterSetSessionSources h (sessionFrameWith a' sf) result w
       = ((executeAutomation_afterSetSessionSources h sf result w).1,
          outcomeWith a' (executeAutomation_afterSetSessionSources h sf result w).2)
       ∧ executeAutomation_afterSendMessage h (sessionFrameWith a' sf) result w
         = ((executeAutomation_afterSendMessage h sf result w).1,
            outcomeWith a' (executeAutomation_afterSendMessage h sf result w).2))
  ∧ (∀ workspaceId automationId triggeredBy triggerContext w workspace automation
       configFiles',
       getWorkspaceByNameOrId h workspaceId = Some workspace →
       getAutomation (ws_rootPath workspace) automationId (storage w) = Some automation →
       let a' := withTurnsAndSkills maxTurns skillSlugs automation in
       let w' := set_storage (λ st, {| configFiles := configFiles';
                                       runFiles := runFiles st |}) w in
       getAutomation (ws_rootPath workspace) automationId (storage w') = Some a' →
       let result := executeAutomation h workspaceId automationId triggeredBy
                       triggerContext w in
       let result' := executeAutomation h workspaceId automationId triggeredBy
                        triggerContext w' in
       result'.2 = outcomeWith a' result.2
       ∧ sessionCalls result'.1 = sessionCalls result.1
       ∧ broadcasts result'.1 = broadcasts result.1
       ∧ log result'.1 = log result.1
       ∧ runFiles (storage result'.1) = runFiles (storage result.1)
       ∧ configFiles (storage result'.1) = configFiles').
Proof.
  assert (Hcatch : ∀ a' f message w,
            executeAutomation_catch h (frameWith a' f) message w
            = ((executeAutomation_catch h f message w).1,
               outcomeWith a' (executeAutomation_catch h f message w).2)).
  { intros a' f message w. unfold executeAutomation_catch.
    cbn [frameWith f_workspace f_run f_automationId].
    by repeat (case_match; simplify_eq/=). }
  assert (Hsend : ∀ a' sf w,
            a_prompt a' = a_prompt (f_automation (sf_frame sf)) →
            executeAutomation_send h (sessionFrameWith a' sf) w
            = ((executeAutomation_send h sf w).1,
               outcomeWith a' (executeAutomation_send h sf w).2)).
  { intros a' sf w Hprompt. unfold executeAutomation_send.
    cbn [sessionFrameWith frameWith sf_frame sf_sessionId f_triggerContext f_automation
         fst snd outcomeWith].
    by rewrite Hprompt. }
  split_and!.
  - intros f [sessionId|message] w a'; cbn [executeAutomation_afterCreateSession];
      [|apply Hcatch].
    cbn [frameWith f_workspace f_run f_automationId f_workspaceId f_automation].
    destruct (storeUpdate _ _ _ w) as [[updatedRun|] w1]; [|apply Hcatch].
    unfold a' at 1 2. cbn [withTurnsAndSkills a_actionConfig ac_timeoutSeconds ac_sourceSlugs].
    destruct (readClock h w1) as [startTime w2].
    destruct (setTimeout _ _ w2) as [timer w3].
    destruct (ac_sourceSlugs (a_actionConfig (f_automation f))) as [[|slug slugs]|];
      try done; apply (Hsend a' {| sf_frame := f; sf_sessionId := sessionId;
                                   sf_updatedRun := updatedRun |}); done.
  - intros sf result w a'. split.
    + destruct result as [[]|message]; cbn [executeAutomation_afterSetSessionSources].
      * by apply Hsend.
      * apply Hcatch.
    + destruct result as [[]|message]; cbn [executeAutomation_afterSendMessage].
      * done.
      * apply Hcatch.
  - intros workspaceId automationId triggeredBy triggerContext w workspace automation
      configFiles' Hws Hauto a' w' Hauto' result result'.
    unfold result, result', executeAutomation. rewrite Hws, Hauto, Hauto'.
    cbn [activeRuns set_storage w'].
    destruct (decide _); [done|].
    unfold freshId, isoNow, readClock, createRun, logged, call, broadcastAutomationEvent.
    by cbn.
Qed.

(** ** Trigger registry, continued *)

Lemma hostSignals_stale h deliveries r :
  listeners r = ∅ → hostSignals h deliveries r = r.
Proof.
  intros Hnone. unfold hostSignals.
  induction deliveries as [|d deliveries IH]; [done|].
  cbn [foldl]. rewrite hostSignal_stale; [done|]. by rewrite Hnone, lookup_empty.
Qed.

(** X15. After [unregisterAll] on a registry built by the operations of the
    registry, no trigger is registered and the host holds no callback, so
    whatever the host delivers afterwards changes nothing and nothing fires;
    fires made before are kept, and a second [unregisterAll] only logs. *)
Theorem unregisterAll_silences (r : Registry) :
  reachable r →
  let r' := unregisterAll r in
  getActiveTriggerCount r' = 0
  ∧ (∀ automationId, JsMap.get automationId (triggers r') = None)
  ∧ listeners r' = ∅
  ∧ fired r' = fired r
  ∧ nextHandle r' = nextHandle r
  ∧ (∀ h deliveries, hostSignals h deliveries r' = r')
  ∧ triggers (unregisterAll r') = triggers r'
  ∧ listeners (unregisterAll r') = listeners r'
  ∧ fired (unregisterAll r') = fired r'.
Proof.
  intros Hreach r'. pose proof (reachable_consistent _ Hreach) as Hok.
  assert (Hlisteners : listeners r' = ∅) by by apply listeners_unregisterAll.
  assert (Htriggers : triggers r' = JsMap.empty) by apply triggers_unregisterAll.
  assert (Hfold : ∀ (l : list (string * RegisteredTrigger)) r0,
            fired (foldl (λ acc kv, set_listeners (runStop (rt_stop kv.2)) acc) r0 l)
            = fired r0
            ∧ nextHandle (foldl (λ acc kv, set_listeners (runStop (rt_stop kv.2)) acc) r0 l)
              = nextHandle r0).
  { induction l as [|kv l IH]; intros r0; [done|]. cbn [foldl].
    destruct (IH (set_listeners (runStop (rt_stop kv.2)) r0)) as [-> ->]. done. }
  split_and!.
  - unfold getActiveTriggerCount. by rewrite Htriggers.
  - intros automationId. by rewrite Htriggers.
  - done.
  - unfold r', unregisterAll. cbn. apply Hfold.
  - unfold r', unregisterAll. cbn. apply Hfold.
  - intros h deliveries. by apply hostSignals_stale.
  - by rewrite !triggers_unregisterAll.
  - clearbody r'. unfold unregisterAll. by rewrite Htriggers.
  - clearbody r'. unfold unregisterAll. by rewrite Htriggers.
Qed.









(** *** Registrations that cannot be made *)














(** X24. From a fire to a run: when the host runs a live callback of a
    schedule, hotkey, power-event or app-event trigger, the registry fires
    once, with the kind of the trigger and the time in the context; handed
    to the manager, that fire starts a run of the automation with that id as
    it is stored at that moment (not as it was when the trigger was
    registered), and the pending run written for it carries the kind and the
    context of the fire. *)
Theorem fire_becomes_pending_run (h : ManagerHost) (th : TriggerHost) (handle : nat)
    (s : Signal) (firedAt : string) (r : Registry) (l : HostListener) (w : World)
    (workspace : Workspace) (stored : Automation) :
  listeners r !! handle = Some l →
  answers (hl_sub l) s = true →
  getWorkspaceByNameOrId h (a_workspaceId (hl_automation l)) = Some workspace →
  getAutomation (ws_rootPath workspace) (a_id (hl_automation l)) (storage w) = Some stored →
  (JsMap.size (activeRuns w) < maxConcurrentRuns)%nat →
  ∃ x f,
    fired (hostSignal th handle s firedAt r) = fired r ++ [x]
    ∧ fire_automationId x = a_id (hl_automation l)
    ∧ fire_workspaceId x = a_workspaceId (hl_automation l)
    ∧ fire_triggeredBy x = firesAs (hl_sub l)
    ∧ ("firedAt", JStr firedAt) ∈ fire_context x
    ∧ (triggered h x w).2 = AwaitCreateSession f
    ∧ f_automation f = stored
    ∧ getRun (ws_rootPath workspace) (generateId h (idsGenerated w))
        (storage (triggered h x w).1) = Some (f_run f)
    ∧ r_status (f_run f) = pending
    ∧ r_automationId (f_run f) = a_id (hl_automation l)
    ∧ r_triggeredBy (f_run f) = firesAs (hl_sub l)
    ∧ r_triggerContext (f_run f) = Some (fire_context x).
Proof.
  intros Hl Hanswers Hws Hauto Hroom.
  assert (Hstart : ∀ x,
            fire_automationId x = a_id (hl_automation l) →
            fire_workspaceId x = a_workspaceId (hl_automation l) →
            ∃ f, (triggered h x w).2 = AwaitCreateSession f
                 ∧ f_automation f = stored
                 ∧ getRun (ws_rootPath workspace) (generateId h (idsGenerated w))
                     (storage (triggered h x w).1) = Some (f_run f)
                 ∧ r_status (f_run f) = pending
                 ∧ r_automationId (f_run f) = a_id (hl_automation l)
                 ∧ r_triggeredBy (f_run f) = fire_triggeredBy x
                 ∧ r_triggerContext (f_run f) = Some (fire_context x)).
  { intros x Hid Hwsid. unfold triggered, executeAutomation.
    rewrite Hid, Hwsid, Hws, Hauto.
    rewrite decide_False by (unfold maxConcurrentRuns in *; lia).
    unfold freshId, isoNow, readClock, createRun, logged, call, broadcastAutomationEvent.
    cbn. eexists. split; [reflexivity|]. cbn. split_and!; try done.
    apply lookup_insert_eq. }
  unfold hostSignal. rewrite Hl.
  destruct (hl_sub l) eqn:Hsub, s; try done; cbn [answers] in Hanswers;
    match goal with
    | |- ∃ x f, fired (onTrigger ?y _) = _ ∧ _ =>
        destruct (Hstart y eq_refl eq_refl) as (f & Hout & Hfa & Hget & Hst & Haid & Htb & Hctx);
        exists y, f; split_and!; try done; cbn; set_solver
    end.
Qed.

(** ** The watch callbacks *)

(** *** Strings *)

Lemma prefix_nil (s : string) : String.prefix "" s = true.
Proof. by destruct s. Qed.

Lemma prefix_spec (p s : string) : String.prefix p s = true ↔ ∃ rest, s = p +:+ rest.
Proof.
  revert s. induction p as [|c p IH]; intros s.
  - rewrite prefix_nil. split; [intros _; by exists s|done].
  - destruct s as [|c' s]; [split; [done|by intros [? [=]]]|].
    cbn [String.prefix].
    destruct (Ascii.ascii_dec c c') as [->|Hne].
    + rewrite IH. split; intros [rest Hrest]; exists rest.
      * by rewrite Hrest.
      * by injection Hrest.
    + split; [done|]. intros [rest [= ? ?]]. done.
Qed.

Lemma occursIn_spec (p s : string) :
  occursIn p s = true ↔ ∃ before after, s = before +:+ p +:+ after.
Proof.
  induction s as [|c s IH]; cbn [occursIn].
  - rewrite orb_false_r, prefix_spec. split.
    + intros [rest Hrest]. by exists "", rest.
    + intros (before & after & Heq). destruct before; [by exists after|done].
  - rewrite orb_true_iff, prefix_spec, IH. split.
    + intros [[rest Hrest]|(before & after & ->)].
      * by exists "", rest.
      * by exists (String c before), after.
    + intros (before & after & Heq). destruct before as [|c' before].
      * left. by exists after.
      * right. injection Heq as -> ->. by exists before, after.
Qed.

Lemma append_cons c (a b : string) : String c a +:+ b = String c (a +:+ b).
Proof. reflexivity. Qed.

Lemma length_append (a b : string) :
  String.length (a +:+ b) = String.length a + String.length b.
Proof.
  induction a as [|c a IH]; [done|].
  rewrite append_cons. cbn [String.length]. by rewrite IH.
Qed.

Lemma substring_all (s : string) : String.substring 0 (String.length s) s = s.
Proof. induction s as [|c s IH]; simpl; [done|]. by rewrite IH. Qed.

Lemma substring_append (a b : string) :
  String.substring (String.length a) (String.length b) (a +:+ b) = b.
Proof. induction a as [|c a IH]; simpl; [apply substring_all|done]. Qed.

Lemma substring_split (n : nat) (s : string) :
  (n ≤ String.length s)%nat →
  s = String.substring 0 n s +:+ String.substring n (String.length s - n) s.
Proof.
  revert s. induction n as [|n IH]; intros s Hn.
  - rewrite Nat.sub_0_r, substring_all. by destruct s.
  - destruct s as [|c s]; simpl in *; [lia|].
    rewrite append_cons. f_equal. apply IH. lia.
Qed.

Lemma endsWith_spec (s p : string) : endsWith s p = true ↔ ∃ before, s = before +:+ p.
Proof.
  unfold endsWith, slice. rewrite andb_true_iff, Nat.leb_le, String.eqb_eq. split.
  - intros [Hlen Hsub]. exists (String.substring 0 (String.length s - String.length p) s).
    pose proof (substring_split (String.length s - String.length p) s) as Hsplit.
    rewrite Hsub in Hsplit. apply Hsplit. lia.
  - intros [before ->]. rewrite length_append. split; [lia|].
    replace (String.length before + String.length p - String.length p)
      with (String.length before) by lia.
    replace (String.length before + String.length p - String.length before)
      with (String.length p) by lia.
    apply substring_append.
Qed.

Lemma slice_append (a b : string) : slice (String.length a) (a +:+ b) = b.
Proof.
  unfold slice. rewrite length_append.
  replace (String.length a + String.length b - String.length a)
    with (String.length b) by lia.
  apply substring_append.
Qed.

(** X18. The patterns of a file-change trigger are not globs: a pattern
    that starts with "*." is met by the file names that end with the rest of
    the pattern from the dot on; a pattern that starts with "**/" is met by
    the file names that contain the rest of the pattern as it is written,
    so a star in that rest stands for itself; every other pattern is met by
    the file name equal to it. *)
Theorem matchesPattern_is_literal (filename : string) :
  (∀ ext, matchesPattern filename ("*." +:+ ext) = true
          ↔ ∃ stem, filename = stem +:+ "." +:+ ext)
  ∧ (∀ rest, matchesPattern filename ("**/" +:+ rest) = true
             ↔ ∃ before after, filename = before +:+ rest +:+ after)
  ∧ (∀ pattern, startsWith pattern "*." = false → startsWith pattern "**/" = false →
                (matchesPattern filename pattern = true ↔ filename = pattern))
  ∧ (∀ ext, matchesPattern filename ("**/*." +:+ ext) = true
            ↔ ∃ before after, filename = before +:+ "*." +:+ ext +:+ after).
Proof.
  assert (Hstar : ∀ rest, startsWith ("**/" +:+ rest) "*." = false) by done.
  assert (Hdeep : ∀ rest, startsWith ("**/" +:+ rest) "**/" = true).
  { intros rest. apply prefix_spec. by exists rest. }
  split_and!.
  - intros ext. unfold matchesPattern.
    assert (startsWith ("*." +:+ ext) "*." = true) as ->.
    { apply prefix_spec. by exists ext. }
    change (slice 1 ("*." +:+ ext)) with (slice (String.length "*") ("*" +:+ ("." +:+ ext))).
    rewrite slice_append. apply endsWith_spec.
  - intros rest. unfold matchesPattern. rewrite Hstar, Hdeep.
    change (slice 3 ("**/" +:+ rest)) with (slice (String.length "**/") ("**/" +:+ rest)).
    rewrite slice_append. apply occursIn_spec.
  - intros pattern H1 H2. unfold matchesPattern. rewrite H1, H2. apply String.eqb_eq.
  - intros ext. unfold matchesPattern.
    change ("**/*." +:+ ext) with ("**/" +:+ ("*." +:+ ext)).
    rewrite Hstar, Hdeep.
    change (slice 3 ("**/" +:+ ("*." +:+ ext)))
      with (slice (String.length "**/") ("**/" +:+ ("*." +:+ ext))).
    rewrite slice_append. apply occursIn_spec.
Qed.

(** *** Debounce *)

Lemma debounced_new {A} : debounced (@newDebounce A).
Proof. by split_and!. Qed.

Lemma timeouts_push {A} (x : A) ms d t :
  debounced d →
  timeouts (pushAndDebounce x ms d) !! t
  = if decide (t = nextTimeout d) then Some ms else None.
Proof.
  intros (Hone & Hbound & _). cbn.
  destruct (decide (t = nextTimeout d)) as [->|Hne]; [apply lookup_insert_eq|].
  rewrite lookup_insert_ne by done.
  destruct (debounceTimer d) as [old|] eqn:Hold.
  - destruct (decide (t = old)) as [->|Hne']; [apply lookup_delete_eq|].
    rewrite lookup_delete_ne by done.
    destruct (timeouts d !! t) as [ms'|] eqn:Ht; [|done].
    apply Hone in Ht. congruence.
  - destruct (timeouts d !! t) as [ms'|] eqn:Ht; [|done].
    apply Hone in Ht. congruence.
Qed.

Lemma debounced_push {A} (x : A) ms d :
  debounced d → debounced (pushAndDebounce x ms d).
Proof.
  intros Hd. split_and!.
  - intros t ms'. rewrite timeouts_push by done.
    destruct (decide _) as [->|]; done.
  - intros t. cbn. intros [= <-]. lia.
  - split.
    + cbn. intros Hnil. by apply app_nil in Hnil as [_ [=]].
    + intros Hempty. pose proof (timeouts_push x ms d (nextTimeout d) Hd) as Hnext.
      rewrite decide_True in Hnext by done. rewrite Hempty, lookup_empty in Hnext. done.
Qed.

Lemma debounced_expire {A} (d : Debounce A) handle :
  debounced d → is_Some (timeouts d !! handle) →
  timeouts (expire handle d) = ∅ ∧ pendingItems d ≠ [] ∧ debounceTimer d = Some handle.
Proof.
  intros (Hone & Hbound & Hbuffer) [ms Hms]. split_and!.
  - apply map_eq. intros t. rewrite lookup_empty. cbn.
    destruct (decide (t = handle)) as [->|Hne]; [apply lookup_delete_eq|].
    rewrite lookup_delete_ne by done.
    destruct (timeouts d !! t) as [ms'|] eqn:Ht; [|done].
    apply Hone in Ht. apply Hone in Hms. congruence.
  - intros Hnil. apply Hbuffer in Hnil. by rewrite Hnil, lookup_empty in Hms.
  - by apply Hone in Hms.
Qed.

Lemma acceptedChanges_snoc config ops op :
  acceptedChanges config (ops ++ [op])
  = acceptedChanges config ops ++ acceptedChanges config [op].
Proof. unfold acceptedChanges. by rewrite flat_map_app. Qed.

Lemma acceptedFiles_snoc config ops op :
  acceptedFiles config (ops ++ [op]) = acceptedFiles config ops ++ acceptedFiles config [op].
Proof. unfold acceptedFiles. by rewrite flat_map_app. Qed.

(** The closure and the registry of a file-change trigger after any calls
    of its watch callbacks and expiries of its timeouts. *)
Lemma fileChange_trace automation config ops r0 :
  let s := foldl (fileChangeStep automation config) (newDebounce, r0) ops in
  debounced s.1
  ∧ (∀ t ms, timeouts s.1 !! t = Some ms → ms = default 5000%Z (fc_debounceMs config))
  ∧ (∃ batches : list (list FileChange * string),
       fired s.2 = fired r0 ++ ((λ b, fileChangeFire automation b.1 b.2) <$> batches)
       ∧ Forall (λ b, b.1 ≠ []) batches
       ∧ concat batches.*1 ++ pendingItems s.1 = acceptedChanges config ops)
  ∧ triggers s.2 = triggers r0 ∧ listeners s.2 = listeners r0.
Proof.
  induction ops as [|op ops IH] using rev_ind.
  - cbn. split; [apply debounced_new|].
    split; [intros t ms; by rewrite lookup_empty|].
    split; [exists []; by rewrite app_nil_r|done].
  - rewrite foldl_snoc, acceptedChanges_snoc.
    set (s := foldl (fileChangeStep automation config) (newDebounce, r0) ops) in *.
    cbv zeta in IH. destruct IH as (Hd & Hms & (batches & Hfired & Hne & Hall) & Ht & Hl).
    destruct op as [watchPath eventType filename|handle firedAt];
      cbn [fileChangeStep fst snd].
    + unfold fileChanged.
      assert (acceptedChanges config [Watched watchPath eventType filename]
              = if fileChangeAccepted config eventType filename
                then [{| ch_path := watchPath +:+ "/" +:+ default "null" filename;
                         ch_event := eventType |}]
                else []) as ->.
      { cbn. by rewrite app_nil_r. }
      destruct (fileChangeAccepted config eventType filename) eqn:Hacc.
      * split; [by apply debounced_push|]. split.
        { intros t ms. rewrite (timeouts_push _ _ _ _ Hd).
          destruct (decide _); [by intros [= <-]|done]. }
        split; [|done]. exists batches. split_and!; [done..|].
        cbn [pendingItems pushAndDebounce]. by rewrite app_assoc, Hall.
      * split; [done|]. split; [done|]. split; [|done].
        exists batches. by rewrite app_nil_r.
    + unfold fileChangeTimeout.
      change (acceptedChanges config [TimedOut handle firedAt]) with (@nil FileChange).
      destruct (timeouts s.1 !! handle) as [ms|] eqn:Hhandle.
      * destruct (debounced_expire s.1 handle Hd) as (Hempty & Hpending & Htimer);
          [by eexists|].
        unfold flushChanges. cbn [pendingItems expire fst snd].
        destruct (pendingItems s.1) as [|change changes] eqn:Hp; [done|]. cbn.
        split.
        { split; [|split]; cbn.
          - intros t ms'. cbn in Hempty. by rewrite Hempty, lookup_empty.
          - apply Hd.
          - cbn in Hempty. by rewrite Hempty. }
        split.
        { intros t ms'. intros [_ ?]%lookup_delete_Some. by eapply Hms. }
        split; [|done].
        exists (batches ++ [(change :: changes, firedAt)]). split_and!.
        -- by rewrite Hfired, fmap_app, app_assoc.
        -- apply Forall_app. split; [done|]. by constructor.
        -- rewrite fmap_app, concat_app. cbn. rewrite !app_nil_r. by rewrite <- Hall.
      * split; [done|]. split; [done|]. split; [|done].
        exists batches. by rewrite app_nil_r.
Qed.

Lemma includes_spec (x : string) (l : list string) : includes x l = true ↔ x ∈ l.
Proof.
  unfold includes. rewrite existsb_exists. split.
  - intros (y & Hin & Heq). apply String.eqb_eq in Heq as ->. by apply list_elem_of_In.
  - intros Hin. exists x. split; [by apply list_elem_of_In|apply String.eqb_refl].
Qed.

(** X19. Debouncing of a file-change trigger loses, repeats and reorders
    nothing: after any calls of its watch callbacks and expiries of its
    timeouts, the batches it has fired, one after the other, followed by
    what is still buffered, are the changes its filters let through, in the
    order they came; no batch is empty.  Between calls a flush is scheduled
    exactly when something is buffered, there is never more than one, and
    its delay is [debounceMs] (5000 when not configured); when it expires,
    everything buffered goes out in one fire.  [stop] clears the scheduled
    flush, so what is buffered then is never fired. *)
Theorem file_changes_fire_once_in_order (automation : Automation)
    (config : FileChangeTriggerConfig) (ops : list WatchOp) (r0 : Registry) :
  let s := foldl (fileChangeStep automation config) (newDebounce, r0) ops in
  (∃ batches : list (list FileChange * string),
     fired s.2 = fired r0 ++ ((λ b, fileChangeFire automation b.1 b.2) <$> batches)
     ∧ Forall (λ b, b.1 ≠ []) batches
     ∧ concat batches.*1 ++ pendingItems s.1 = acceptedChanges config ops)
  ∧ (pendingItems s.1 = [] ↔ timeouts s.1 = ∅)
  ∧ (∀ t ms, timeouts s.1 !! t = Some ms →
       debounceTimer s.1 = Some t
       ∧ ms = match fc_debounceMs config with Some n => n | None => 5000%Z end)
  ∧ (∀ handle firedAt,
       is_Some (timeouts s.1 !! handle) →
       let s' := fileChangeTimeout automation handle firedAt s in
       fired s'.2 = fired s.2 ++ [fileChangeFire automation (pendingItems s.1) firedAt]
       ∧ pendingItems s'.1 = [] ∧ timeouts s'.1 = ∅)
  ∧ (∀ handle firedAt,
       timeouts s.1 !! handle = None → fileChangeTimeout automation handle firedAt s = s)
  ∧ timeouts (stopDebounce s.1) = ∅
  ∧ triggers s.2 = triggers r0 ∧ listeners s.2 = listeners r0.
Proof.
  intros s.
  destruct (fileChange_trace automation config ops r0)
    as (Hd & Hms & Hbatches & Ht & Hl).
  fold s in Hd, Hms, Hbatches, Ht, Hl.
  split; [done|]. split; [apply Hd|]. split.
  { intros t ms Htimeout. split; [by eapply Hd|].
    rewrite (Hms _ _ Htimeout). by destruct (fc_debounceMs config). }
  split.
  { intros handle firedAt Hsome s'.
    destruct (debounced_expire s.1 handle Hd Hsome) as (Hempty & Hpending & Htimer).
    unfold s', fileChangeTimeout. destruct Hsome as [ms ->].
    unfold flushChanges. cbn [pendingItems expire fst snd].
    destruct (pendingItems s.1) as [|change changes]; [done|]. by cbn. }
  split.
  { intros handle firedAt Hnone. unfold fileChangeTimeout. by rewrite Hnone. }
  split; [|done].
  unfold stopDebounce. destruct (debounceTimer s.1) as [t|] eqn:Htimer.
  - destruct (timeouts s.1 !! t) as [ms|] eqn:Htimeout.
    + apply (debounced_expire s.1 t Hd). by eexists.
    + apply map_eq. intros t'. rewrite lookup_empty. cbn.
      destruct (decide (t' = t)) as [->|Hne]; [apply lookup_delete_eq|].
      rewrite lookup_delete_ne by done.
      destruct (timeouts s.1 !! t') as [ms|] eqn:Ht'; [|done].
      destruct Hd as (Hone & _). apply Hone in Ht'. congruence.
  - apply map_eq. intros t'. rewrite lookup_empty.
    destruct (timeouts s.1 !! t') as [ms|] eqn:Ht'; [|done].
    destruct Hd as (Hone & _). apply Hone in Ht'. congruence.
Qed.

Lemma fileChangeAccepted_spec config eventType filename :
  fileChangeAccepted config eventType filename = true
  ↔ (fc_patterns config = None ∨ fc_patterns config = Some []
     ∨ filename = None ∨ filename = Some ""
     ∨ ∃ name patterns pattern,
         filename = Some name ∧ fc_patterns config = Some patterns
         ∧ pattern ∈ patterns ∧ matchesPattern name pattern = true)
    ∧ (fc_events config = []
       ∨ (eventType = "rename" ∧ "add" ∈ fc_events config)
       ∨ (eventType ≠ "rename" ∧ "change" ∈ fc_events config)).
Proof.
  unfold fileChangeAccepted. rewrite andb_true_iff.
  assert (Hevents :
    match fc_events config with
    | [] => true
    | _ :: _ => includes (mappedEvent eventType) (fc_events config)
    end = true
    ↔ fc_events config = []
      ∨ (eventType = "rename" ∧ "add" ∈ fc_events config)
      ∨ (eventType ≠ "rename" ∧ "change" ∈ fc_events config)).
  { destruct (fc_events config) as [|e events] eqn:He; [split; auto|].
    rewrite includes_spec. unfold mappedEvent.
    destruct (String.eqb eventType "rename") eqn:Hr.
    - apply String.eqb_eq in Hr. split; [by right; left|].
      intros [[=]|[[_ ?]|[? _]]]; done.
    - apply String.eqb_neq in Hr. split; [by right; right|].
      intros [[=]|[[? _]|[_ ?]]]; done. }
  assert (Hpatterns :
    match fc_patterns config, truthy filename with
    | Some (pattern :: patterns), Some name =>
        existsb (matchesPattern name) (pattern :: patterns)
    | _, _ => true
    end = true
    ↔ fc_patterns config = None ∨ fc_patterns config = Some []
      ∨ filename = None ∨ filename = Some ""
      ∨ ∃ name patterns pattern,
          filename = Some name ∧ fc_patterns config = Some patterns
          ∧ pattern ∈ patterns ∧ matchesPattern name pattern = true).
  { destruct (fc_patterns config) as [[|pattern patterns]|] eqn:Hp; [split; auto..| |split; auto].
    destruct filename as [name|]; [|split; auto].
    unfold truthy. destruct (String.eqb name "") eqn:Hname.
    { apply String.eqb_eq in Hname as ->. split; auto. }
    apply String.eqb_neq in Hname.
    rewrite existsb_exists. split.
    - intros (p & Hin & Hmatch). do 4 right. exists name, (pattern :: patterns), p.
      split_and!; [done..| |done]. by apply list_elem_of_In.
    - intros [[=]|[[=]|[[=]|[[= ->]|(name' & patterns' & p & [= <-] & [= <-] & Hin & Hmatch)]]]];
        [done|].
      exists p. split; [by apply list_elem_of_In|done]. }
  destruct (fc_events config) as [|e events] eqn:He.
  - rewrite <- Hpatterns. split; [intros [? _]; auto|intros [? _]; auto].
  - rewrite <- Hpatterns, <- Hevents. done.
Qed.

(** X20. What the watch callback of a file-change trigger lets through: a
    change passes the pattern filter when no pattern is configured, when the
    watcher gives no file name, or when the file name meets one of the
    patterns; it passes the event filter when no event is configured, or
    when [add] is configured and the watcher reports [rename], or [change]
    is configured and the watcher reports anything else.  So a trigger
    whose configured events are neither [add] nor [change] (for instance
    [unlink] alone) never fires, whatever happens to the files; and a change
    is recorded with the event of the watcher, not with the configured
    name. *)
Theorem fileChange_filters (config : FileChangeTriggerConfig) :
  (∀ eventType filename,
     fileChangeAccepted config eventType filename = true
     ↔ (fc_patterns config = None ∨ fc_patterns config = Some []
        ∨ filename = None ∨ filename = Some ""
        ∨ ∃ name patterns pattern,
            filename = Some name ∧ fc_patterns config = Some patterns
            ∧ pattern ∈ patterns ∧ matchesPattern name pattern = true)
       ∧ (fc_events config = []
          ∨ (eventType = "rename" ∧ "add" ∈ fc_events config)
          ∨ (eventType ≠ "rename" ∧ "change" ∈ fc_events config)))
  ∧ (fc_events config ≠ [] → "add" ∉ fc_events config → "change" ∉ fc_events config →
     ∀ automation ops r0,
       let s := foldl (fileChangeStep automation config) (newDebounce, r0) ops in
       fired s.2 = fired r0 ∧ pendingItems s.1 = [] ∧ timeouts s.1 = ∅)
  ∧ (∀ watchPath eventType filename d,
       fileChangeAccepted config eventType filename = true →
       pendingItems (fileChanged config watchPath eventType filename d)
       = pendingItems d ++ [{| ch_path := watchPath +:+ "/" +:+ match filename with
                                                         | Some name => name
                                                         | None => "null"
                                                         end;
                          ch_event := eventType |}])
  ∧ (∀ watchPath eventType filename d,
       fileChangeAccepted config eventType filename = false →
       fileChanged config watchPath eventType filename d = d).
Proof.
  split; [intros; apply fileChangeAccepted_spec|]. split.
  - intros Hsome Hadd Hchange automation ops r0 s.
    assert (Hnone : acceptedChanges config ops = []).
    { unfold acceptedChanges. induction ops as [|op ops IH]; [done|].
      cbn [flat_map]. rewrite IH, app_nil_r.
      destruct op as [watchPath eventType filename|]; [|done].
      destruct (fileChangeAccepted config eventType filename) eqn:Hacc; [|done].
      apply fileChangeAccepted_spec in Hacc as [_ [?|[[_ ?]|[_ ?]]]]; done. }
    destruct (fileChange_trace automation config ops r0)
      as (Hd & _ & (batches & Hfired & Hne & Hall) & _).
    fold s in Hd, Hfired, Hall. rewrite Hnone in Hall.
    apply app_eq_nil in Hall as [Hconcat Hpending].
    assert (batches = []) as ->.
    { destruct batches as [|[batch firedAt] batches]; [done|].
      apply Forall_cons in Hne as [Hne _]. cbn in Hconcat, Hne.
      by apply app_eq_nil in Hconcat as [? _]. }
    split; [by rewrite Hfired, app_nil_r|]. split; [done|]. by apply Hd.
  - split.
    + intros watchPath eventType filename d Hacc. unfold fileChanged. rewrite Hacc.
      by destruct filename.
    + intros watchPath eventType filename d Hacc. unfold fileChanged. by rewrite Hacc.
Qed.

(** The closure and the registry of a folder-action trigger after any calls
    of its watch callback and expiries of its timeouts. *)
Lemma folderAction_trace automation config ops r0 :
  let s := foldl (folderActionStep automation config) (newDebounce, r0) ops in
  debounced s.1
  ∧ (∀ t ms, timeouts s.1 !! t = Some ms → ms = 3000%Z)
  ∧ (∃ batches : list (list string * string),
       fired s.2 = fired r0 ++ ((λ b, folderActionFire automation config b.1 b.2) <$> batches)
       ∧ Forall (λ b, b.1 ≠ []) batches
       ∧ concat batches.*1 ++ pendingItems s.1 = acceptedFiles config ops)
  ∧ triggers s.2 = triggers r0 ∧ listeners s.2 = listeners r0.
Proof.
  induction ops as [|op ops IH] using rev_ind.
  - cbn. split; [apply debounced_new|].
    split; [intros t ms; by rewrite lookup_empty|].
    split; [exists []; by rewrite app_nil_r|done].
  - rewrite foldl_snoc, acceptedFiles_snoc.
    set (s := foldl (folderActionStep automation config) (newDebounce, r0) ops) in *.
    cbv zeta in IH. destruct IH as (Hd & Hms & (batches & Hfired & Hne & Hall) & Ht & Hl).
    destruct op as [watchPath eventType filename|handle firedAt];
      cbn [folderActionStep fst snd].
    + unfold folderChanged.
      assert (acceptedFiles config [Watched watchPath eventType filename]
              = if folderActionAccepted config eventType filename
                then [default "" filename] else []) as ->.
      { cbn. by rewrite app_nil_r. }
      destruct (folderActionAccepted config eventType filename) eqn:Hacc.
      * split; [by apply debounced_push|]. split.
        { intros t ms. rewrite (timeouts_push _ _ _ _ Hd).
          destruct (decide _); [by intros [= <-]|done]. }
        split; [|done]. exists batches. split_and!; [done..|].
        cbn [pendingItems pushAndDebounce]. by rewrite app_assoc, Hall.
      * split; [done|]. split; [done|]. split; [|done].
        exists batches. by rewrite app_nil_r.
    + unfold folderActionTimeout.
      change (acceptedFiles config [TimedOut handle firedAt]) with (@nil string).
      destruct (timeouts s.1 !! handle) as [ms|] eqn:Hhandle.
      * destruct (debounced_expire s.1 handle Hd) as (Hempty & Hpending & Htimer);
          [by eexists|].
        unfold flushFiles. cbn [pendingItems expire fst snd].
        destruct (pendingItems s.1) as [|file files] eqn:Hp; [done|]. cbn.
        split.
        { split; [|split]; cbn.
          - intros t ms'. cbn in Hempty. by rewrite Hempty, lookup_empty.
          - apply Hd.
          - cbn in Hempty. by rewrite Hempty. }
        split.
        { intros t ms'. intros [_ ?]%lookup_delete_Some. by eapply Hms. }
        split; [|done].
        exists (batches ++ [(file :: files, firedAt)]). split_and!.
        -- by rewrite Hfired, fmap_app, app_assoc.
        -- apply Forall_app. split; [done|]. by constructor.
        -- rewrite fmap_app, concat_app. cbn. rewrite !app_nil_r. by rewrite <- Hall.
      * split; [done|]. split; [done|]. split; [|done].
        exists batches. by rewrite app_nil_r.
Qed.

Lemma folderActionAccepted_spec config eventType filename :
  folderActionAccepted config eventType filename = true
  ↔ ∃ name,
      filename = Some name ∧ name ≠ "" ∧ eventType = "rename"
      ∧ (fa_extensions config = None ∨ fa_extensions config = Some []
         ∨ ∃ extensions ext before,
             fa_extensions config = Some extensions ∧ ext ∈ extensions
             ∧ name = before +:+ ext)
      ∧ (fa_namePattern config = None ∨ fa_namePattern config = Some ""
         ∨ ∃ pattern,
             fa_namePattern config = Some pattern
             ∧ if startsWith pattern "*."
               then ∃ before, name = before +:+ slice 1 pattern
               else ∃ before after, name = before +:+ pattern +:+ after).
Proof.
  unfold folderActionAccepted.
  destruct filename as [name|]; [|split; [done|by intros (? & [=] & _)]].
  unfold truthy at 1. destruct (String.eqb name "") eqn:Hname.
  { apply String.eqb_eq in Hname as ->. split; [done|].
    by intros (? & [= <-] & ? & _). }
  apply String.eqb_neq in Hname.
  rewrite !andb_true_iff, String.eqb_eq.
  assert (Hext :
    match fa_extensions config with
    | Some (ext :: exts) => existsb (endsWith name) (ext :: exts)
    | _ => true
    end = true
    ↔ fa_extensions config = None ∨ fa_extensions config = Some []
      ∨ ∃ extensions ext before,
          fa_extensions config = Some extensions ∧ ext ∈ extensions
          ∧ name = before +:+ ext).
  { destruct (fa_extensions config) as [[|ext exts]|]; [split; auto| |split; auto].
    rewrite existsb_exists. split.
    - intros (e & Hin & [before ->]%endsWith_spec). do 2 right.
      exists (ext :: exts), e, before. split_and!; [done| |done].
      by apply list_elem_of_In.
    - intros [[=]|[[=]|(extensions & e & before & [= <-] & Hin & ->)]].
      exists e. split; [by apply list_elem_of_In|]. apply endsWith_spec. by exists before. }
  assert (Hpattern :
    match truthy (fa_namePattern config) with
    | Some pattern =>
        if startsWith pattern "*." then endsWith name (slice 1 pattern)
        else includesText name pattern
    | None => true
    end = true
    ↔ fa_namePattern config = None ∨ fa_namePattern config = Some ""
      ∨ ∃ pattern,
          fa_namePattern config = Some pattern
          ∧ if startsWith pattern "*."
            then ∃ before, name = before +:+ slice 1 pattern
            else ∃ before after, name = before +:+ pattern +:+ after).
  { destruct (fa_namePattern config) as [pattern|]; [|split; auto].
    unfold truthy. destruct (String.eqb pattern "") eqn:Hp.
    { apply String.eqb_eq in Hp as ->. split; auto. }
    apply String.eqb_neq in Hp. split.
    - intros Hmatch. do 2 right. exists pattern. split; [done|].
      destruct (startsWith pattern "*.").
      + by apply endsWith_spec.
      + by apply occursIn_spec.
    - intros [[=]|[[= ->]|(pattern' & [= <-] & Hmatch)]]; [done|].
      destruct (startsWith pattern "*.").
      + by apply endsWith_spec.
      + by apply occursIn_spec. }
  rewrite Hext, Hpattern. split.
  - intros [[-> ?] ?]. by exists name.
  - intros (name' & [= <-] & _ & -> & ? & ?). done.
Qed.

(** X21. A folder-action trigger reacts to [rename] events that come with
    a file name, and of those to the names that end with one of the
    configured extensions (when any is configured) and meet the name
    pattern (when one is configured: a pattern that starts with "*." asks
    for names that end with its rest from the dot on, any other pattern for
    names that contain it).  The names let through are fired in batches, at
    most one flush scheduled at a time with a delay of 3000 ms, nothing
    lost, repeated or reordered and no empty batch.  The trigger never looks
    at [minSize], [maxSize] or [doneFolder]: two configurations that differ
    only there are registered alike and react alike. *)
Theorem folder_action_filters_and_batches (automation : Automation)
    (config : FolderActionTriggerConfig) :
  (∀ eventType filename,
     folderActionAccepted config eventType filename = true
     ↔ ∃ name,
         filename = Some name ∧ name ≠ "" ∧ eventType = "rename"
         ∧ (fa_extensions config = None ∨ fa_extensions config = Some []
            ∨ ∃ extensions ext before,
                fa_extensions config = Some extensions ∧ ext ∈ extensions
                ∧ name = before +:+ ext)
         ∧ (fa_namePattern config = None ∨ fa_namePattern config = Some ""
            ∨ ∃ pattern,
                fa_namePattern config = Some pattern
                ∧ if startsWith pattern "*."
                  then ∃ before, name = before +:+ slice 1 pattern
                  else ∃ before after, name = before +:+ pattern +:+ after))
  ∧ (∀ ops r0,
       let s := foldl (folderActionStep automation config) (newDebounce, r0) ops in
       (∃ batches : list (list string * string),
          fired s.2
          = fired r0 ++ ((λ b, folderActionFire automation config b.1 b.2) <$> batches)
          ∧ Forall (λ b, b.1 ≠ []) batches
          ∧ concat batches.*1 ++ pendingItems s.1 = acceptedFiles config ops)
       ∧ (pendingItems s.1 = [] ↔ timeouts s.1 = ∅)
       ∧ (∀ t ms, timeouts s.1 !! t = Some ms → debounceTimer s.1 = Some t ∧ ms = 3000%Z)
       ∧ (∀ handle firedAt,
            is_Some (timeouts s.1 !! handle) →
            let s' := folderActionTimeout automation config handle firedAt s in
            fired s'.2
            = fired s.2 ++ [folderActionFire automation config (pendingItems s.1) firedAt]
            ∧ pendingItems s'.1 = [] ∧ timeouts s'.1 = ∅))
  ∧ (∀ config' h r ops r0,
       fa_folderPath config' = fa_folderPath config →
       fa_extensions config' = fa_extensions config →
       fa_namePattern config' = fa_namePattern config →
       registerFolderActionTrigger h automation config' r
       = registerFolderActionTrigger h automation config r
       ∧ foldl (folderActionStep automation config') (newDebounce, r0) ops
         = foldl (folderActionStep automation config) (newDebounce, r0) ops).
Proof.
  split; [intros; apply folderActionAccepted_spec|]. split.
  - intros ops r0 s.
    destruct (folderAction_trace automation config ops r0)
      as (Hd & Hms & Hbatches & _).
    fold s in Hd, Hms, Hbatches.
    split; [done|]. split; [apply Hd|]. split.
    { intros t ms Htimeout. split; [by eapply Hd|by eapply Hms]. }
    intros handle firedAt Hsome s'.
    destruct (debounced_expire s.1 handle Hd Hsome) as (Hempty & Hpending & Htimer).
    unfold s', folderActionTimeout. destruct Hsome as [ms ->].
    unfold flushFiles. cbn [pendingItems expire fst snd].
    destruct (pendingItems s.1) as [|file files]; [done|]. by cbn.
  - intros config' h r ops r0 Hpath Hext Hpattern. split.
    + unfold registerFolderActionTrigger. by rewrite Hpath.
    + generalize (@newDebounce string, r0).
      induction ops as [|op ops IH]; intros s; [done|].
      cbn [foldl]. rewrite <- IH. f_equal.
      destruct op as [watchPath eventType filename|handle firedAt];
        cbn [folderActionStep].
      * unfold folderChanged, folderActionAccepted. by rewrite Hext, Hpattern.
      * unfold folderActionTimeout, flushFiles, folderActionFire. by rewrite Hpath.
Qed.

(** *** The limit when calls do not overlap *)

Lemma jsmap_size_set {V} k (v : V) (m : JsMap.t V) :
  (JsMap.size (JsMap.set k v m) ≤ S (JsMap.size m))%nat.
Proof.
  unfold JsMap.size. induction m as [|[k' v'] m IH]; simpl; [done|].
  destruct (String.eqb k' k); simpl; lia.
Qed.

Lemma jsmap_size_delete {V} k (m : JsMap.t V) :
  (JsMap.size (JsMap.delete k m) ≤ JsMap.size m)%nat.
Proof.
  unfold JsMap.size. induction m as [|[k' v'] m IH]; simpl; [done|].
  destruct (String.eqb k' k); simpl; lia.
Qed.

Lemma fulfil_activeRuns h sessionId wo :
  match wo.2 with AwaitCreateSession _ => False | _ => True end →
  activeRuns (fulfil h sessionId wo).1 = activeRuns wo.1
  ∧ match (fulfil h sessionId wo).2 with AwaitCreateSession _ => False | _ => True end.
Proof.
  destruct wo as [w o]. unfold fulfil. cbn [fst snd].
  destruct o as [f|sf|sf|run|message]; done.
Qed.

Lemma executeAutomation_fulfilled_size h workspaceId automationId triggeredBy
    triggerContext sessionId w :
  (JsMap.size (activeRuns w) ≤ maxConcurrentRuns)%nat →
  (JsMap.size (activeRuns (executeAutomation_fulfilled h workspaceId automationId
                             triggeredBy triggerContext sessionId w).1)
   ≤ maxConcurrentRuns)%nat.
Proof.
  intros Hsize. unfold executeAutomation_fulfilled.
  assert (Hfirst :
    let first := fulfil h sessionId
                   (executeAutomation h workspaceId automationId triggeredBy
                      triggerContext w) in
    (JsMap.size (activeRuns first.1) ≤ maxConcurrentRuns)%nat
    ∧ match first.2 with AwaitCreateSession _ => False | _ => True end).
  { unfold executeAutomation.
    destruct (getWorkspaceByNameOrId h workspaceId) as [workspace|]; [|done].
    destruct (getAutomation _ _ _) as [automation|]; [|done].
    destruct (decide _) as [Hfull|Hroom]; [done|].
    unfold freshId, isoNow, readClock, createRun, logged, call, broadcastAutomationEvent.
    cbn [fulfil fst snd]. unfold executeAutomation_afterCreateSession.
    destruct (storeUpdate _ _ _ _) as [[updatedRun|] w1] eqn:Hupdate.
    - assert (activeRuns w1 = activeRuns w) as Hsame.
      { unfold storeUpdate in Hupdate. destruct (updateRun _ _ _ _).
        by injection Hupdate as _ <-. }
      unfold readClock, setTimeout, executeAutomation_send, call.
      repeat case_match; simplify_eq/=; (split; [|done]);
        rewrite Hsame; (etrans; [apply jsmap_size_set|]); lia.
    - assert (activeRuns w1 = activeRuns w) as Hsame.
      { unfold storeUpdate in Hupdate. destruct (updateRun _ _ _ _).
        by injection Hupdate as _ <-. }
      destruct (catch_tables h
                  {| f_workspaceId := workspaceId; f_automationId := automationId;
                     f_triggerContext := triggerContext; f_workspace := workspace;
                     f_automation := automation;
                     f_run := {| r_id := generateId h (idsGenerated w);
                                 r_automationId := automationId; r_status := pending;
                                 r_startedAt := toISOString h (Date_now h (clockReads w));
                                 r_completedAt := None; r_sessionId := None;
                                 r_summary := None; r_error := None;
                                 r_triggeredBy := triggeredBy;
                                 r_triggerContext := triggerContext |} |}
                  "Failed to update run record" w1) as (Ha & _).
      cbv zeta in Ha. split.
      + cbn in *. rewrite Ha, Hsame. done.
      + by rewrite catch_outcome. }
  cbv zeta in Hfirst. destruct Hfirst as [Hsize1 Hout1].
  destruct (fulfil_activeRuns h sessionId _ Hout1) as [Ha2 Hout2].
  destruct (fulfil_activeRuns h sessionId _ Hout2) as [Ha3 _].
  by rewrite Ha3, Ha2.
Qed.

(** X25. When calls do not overlap the limit holds: if every request runs
    up to the start of its run before the next request is made, and
    whatever session events, timeouts, cancellations and shutdowns come in
    between, the active-run table never holds more than
    [maxConcurrentRuns] runs. *)
Theorem limit_holds_without_overlap (h : ManagerHost) (ops : list SerialOp) (w : World) :
  (getActiveRunCount w ≤ maxConcurrentRuns)%nat →
  (getActiveRunCount (foldl (serialStep h) w ops) ≤ maxConcurrentRuns)%nat.
Proof.
  unfold getActiveRunCount. revert w.
  induction ops as [|op ops IH]; intros w Hsize; [done|].
  cbn [foldl]. apply IH.
  destruct op as [workspaceId automationId triggeredBy triggerContext sessionId|op];
    cbn [serialStep].
  - by apply executeAutomation_fulfilled_size.
  - destruct op as [workspaceId automationId triggeredBy triggerContext
                   | f session | sf result | sf result
                   | workspaceId runId | runId [[]|message] | event | timer | message | ];
      cbn [settles step cancelRun_afterCancelProcessing fst]; try done.
    + unfold cancelRun. by case_match.
    + rewrite completeRun_activeRuns. etrans; [apply jsmap_size_delete|done].
    + unfold sessionEmits, handleSessionEvent.
      repeat case_match; try done;
        rewrite completeRun_activeRuns; (etrans; [apply jsmap_size_delete|done]).
    + unfold timerExpires. repeat case_match; try done.
      unfold handleTimeout. cbn [activeRuns set_timers].
      case_match; [|done]. unfold readClock, logged, call.
      rewrite completeRun_activeRuns. etrans; [apply jsmap_size_delete|done].
    + unfold cleanup. cbn. unfold maxConcurrentRuns. lia.
Qed.

(** *** Triggers of different automations *)

Lemma shortcutTaken_spec accelerator r :
  shortcutTaken accelerator r = true
  ↔ ∃ handle l, listeners r !! handle = Some l ∧ isShortcut accelerator l = true.
Proof.
  unfold shortcutTaken. rewrite bool_decide_eq_true. split.
  - intros (handle & l & Hl)%map_choose.
    apply map_lookup_filter_Some in Hl as [Hl Hs]. by exists handle, l.
  - intros (handle & l & Hl & Hs) Hempty.
    assert (filter (λ kv : nat * HostListener, isShortcut accelerator kv.2 = true)
              (listeners r) !! handle = Some l) as Hin.
    { by apply map_lookup_filter_Some. }
    by rewrite Hempty, lookup_empty in Hin.
Qed.

Lemma shortcutTaken_false accelerator r handle l :
  shortcutTaken accelerator r = false → listeners r !! handle = Some l →
  isShortcut accelerator l = false.
Proof.
  intros Hfree Hl. destruct (isShortcut accelerator l) eqn:Hs; [|done].
  assert (shortcutTaken accelerator r = true) by (apply shortcutTaken_spec; eauto).
  congruence.
Qed.

Lemma releases_holds s handle l :
  releases s handle l →
  holds s handle ∨ ∃ accelerator, s = StopShortcut accelerator
                                  ∧ isShortcut accelerator l = true.
Proof. destruct s; simpl; eauto. Qed.

Lemma plain_refl r0 : bounded r0 → plain r0 r0 [].
Proof.
  intros Hb. split_and!; try done.
  - intros handle l accelerator Hl Hge. apply Hb in Hl. lia.
  - intros handle Hin. by apply elem_of_nil in Hin.
Qed.

Lemma plain_logged r0 r handles level text args :
  plain r0 r handles → plain r0 (triggerLogged level text args r) handles.
Proof. done. Qed.

Lemma plain_fired r0 r handles x : plain r0 r handles → plain r0 (onTrigger x r) handles.
Proof. done. Qed.

Lemma plain_subscribe automation r0 r handles type sub :
  (∀ accelerator, sub ≠ GlobalShortcut accelerator) →
  plain r0 r handles →
  plain r0 (subscribe automation type sub r).2 (handles ++ [nextHandle r]).
Proof.
  intros Hsub (Ht & Hle & Hold & Hnew & Hin). split_and!; simpl; try done.
  - lia.
  - intros handle Hlt. rewrite lookup_insert_ne by lia. by apply Hold.
  - intros handle l accelerator Hl Hge.
    destruct (decide (nextHandle r = handle)) as [<-|Hne].
    + rewrite lookup_insert_eq in Hl. injection Hl as <-.
      unfold isShortcut. cbn [hl_sub]. destruct sub; try done.
      by destruct (Hsub accelerator0).
    + rewrite lookup_insert_ne in Hl by done. by eapply Hnew.
  - intros handle [Hh|Hh%list_elem_of_singleton]%elem_of_app.
    + destruct (Hin _ Hh). lia.
    + subst. lia.
Qed.

Lemma plain_apart_none automation r0 r handles :
  plain r0 r handles → apart automation r0 r.
Proof.
  intros (Ht & Hle & Hold & Hnew & Hin). split.
  - intros handle l accelerator Hl Hge Hs.
    rewrite (Hnew _ _ accelerator Hl Hge) in Hs. done.
  - by left.
Qed.

Lemma plain_apart_set automation r0 r handles type stop :
  plain r0 r handles →
  (∀ handle, holds stop handle → handle ∈ handles) →
  (∀ accelerator, stop ≠ StopShortcut accelerator) →
  apart automation r0 (setTrigger automation type stop r).
Proof.
  intros (Ht & Hle & Hold & Hnew & Hin) Hholds Hstop. split.
  - intros handle l accelerator Hl Hge Hs.
    simpl in Hl. rewrite (Hnew _ _ accelerator Hl Hge) in Hs. done.
  - right. eexists. split; [simpl; by rewrite Ht|]. split.
    + intros handle Hh. simpl in Hh. apply Hholds in Hh. by apply Hin.
    + intros accelerator Heq. simpl in Heq. by destruct (Hstop accelerator).
Qed.

Lemma watchPath_plain h automation r0 paths r handles :
  plain r0 r handles →
  plain r0 (foldl (watchPath h automation) (r, handles) paths).1
    (foldl (watchPath h automation) (r, handles) paths).2.
Proof.
  revert r handles. induction paths as [|path paths IH]; intros r handles Hp; [done|].
  cbn [foldl]. unfold watchPath at 2 4.
  destruct (negb (existsSync h path)); [by apply IH, plain_logged|].
  destruct (watch_ok h path); [|by apply IH, plain_logged].
  rewrite subscribe_pair. cbv beta iota. apply IH. by apply plain_subscribe.
Qed.

Lemma listenPower_plain automation r0 events r handles :
  plain r0 r handles →
  plain r0 (foldl (listenPower automation) (r, handles) events).1
    (foldl (listenPower automation) (r, handles) events).2.
Proof.
  revert r handles. induction events as [|e events IH]; intros r handles Hp; [done|].
  cbn [foldl]. unfold listenPower at 2 4.
  destruct (eventMap e); [|by apply IH, plain_logged].
  rewrite subscribe_pair. cbv beta iota. apply IH. by apply plain_subscribe.
Qed.

Lemma listenApp_plain firedAt automation r0 events r handles k :
  plain r0 r handles →
  plain r0 (foldl (listenApp firedAt automation) (r, handles, k) events).1.1
    (foldl (listenApp firedAt automation) (r, handles, k) events).1.2.
Proof.
  revert r handles k. induction events as [|e events IH]; intros r handles k Hp; [done|].
  cbn [foldl]. unfold listenApp at 2 4.
  destruct (String.eqb e "app-ready"); [by apply IH, plain_fired, plain_logged|].
  destruct (String.eqb e "window-focus").
  { rewrite subscribe_pair. cbv beta iota. apply IH. by apply plain_subscribe. }
  destruct (String.eqb e "window-blur"); [|by apply IH, plain_logged].
  rewrite subscribe_pair. cbv beta iota. apply IH. by apply plain_subscribe.
Qed.

Lemma dispatch_apart h firedAt automation r0 :
  bounded r0 → apart automation r0 (dispatch h firedAt automation r0).
Proof.
  intros Hb. pose proof (plain_refl r0 Hb) as H0.
  assert (Hone : ∀ r type sub,
            (∀ accelerator, sub ≠ GlobalShortcut accelerator) →
            plain r0 r [] →
            ∀ level text args stop,
              (∀ handle, holds stop handle → handle = nextHandle r) →
              (∀ accelerator, stop ≠ StopShortcut accelerator) →
              apart automation r0
                (setTrigger automation type stop
                   (triggerLogged level text args (subscribe automation type sub r).2))).
  { intros r type sub Hsub Hp level text args stop Hholds Hstop.
    apply (plain_apart_set automation r0 _ ([] ++ [nextHandle r])); [|intros handle Hh|done].
    - by apply plain_logged, plain_subscribe.
    - apply Hholds in Hh as ->. by apply list_elem_of_singleton. }
  unfold dispatch. destruct (a_triggerConfig automation) as [c|c|c|c| |c|c|c|c| ].
  - (* schedule *)
    unfold registerScheduleTrigger.
    destruct (truthy (sc_cron c)) as [cron|];
      [|by apply (plain_apart_none _ _ _ []), plain_logged].
    destruct (Cron_valid h cron (sc_timezone c));
      [|by apply (plain_apart_none _ _ _ []), plain_logged].
    rewrite subscribe_pair. cbv beta iota. by apply Hone.
  - (* file-change *)
    unfold registerFileChangeTrigger.
    destruct (fc_paths c) as [|path paths] eqn:Hpaths;
      [by apply (plain_apart_none _ _ _ []), plain_logged|].
    pose proof (watchPath_plain h automation r0 (path :: paths) r0 [] H0) as Hloop.
    destruct (foldl _ _ _) as [r1 watchers]. simpl in Hloop.
    destruct watchers as [|w ws]; [by apply (plain_apart_none _ _ _ [])|].
    by apply (plain_apart_set automation r0 _ (w :: ws)); [apply plain_logged|..].
  - (* hotkey *)
    unfold registerHotkeyTrigger.
    destruct (String.eqb (hk_accelerator c) "");
      [by apply (plain_apart_none _ _ _ []), plain_logged|].
    destruct (accelerator_valid h (hk_accelerator c)); cbn [negb];
      [|by apply (plain_apart_none _ _ _ []), plain_logged].
    destruct (shortcutTaken (hk_accelerator c) r0) eqn:Htaken; cbn [negb andb];
      [by apply (plain_apart_none _ _ _ []), plain_logged|].
    destruct (accelerator_free h (hk_accelerator c));
      [|by apply (plain_apart_none _ _ _ []), plain_logged].
    rewrite subscribe_pair. cbv beta iota. split.
    + intros handle l accelerator Hl Hge Hs. simpl in Hl.
      destruct (decide (nextHandle r0 = handle)) as [<-|Hne].
      * rewrite lookup_insert_eq in Hl. injection Hl as <-.
        unfold isShortcut in Hs. cbn [hl_sub] in Hs.
        apply String.eqb_eq in Hs as <-. done.
      * rewrite lookup_insert_ne in Hl by done. apply Hb in Hl. lia.
    + right. eexists. split; [reflexivity|]. split; [done|].
      intros accelerator [= <-]. split; [done|].
      apply shortcutTaken_spec. eexists (nextHandle r0), _. split.
      * simpl. apply lookup_insert_eq.
      * unfold isShortcut. cbn [hl_sub]. apply String.eqb_refl.
  - (* webhook *) by apply (plain_apart_none _ _ _ []), plain_logged.
  - (* deep-link *) by apply (plain_apart_none _ _ _ []), plain_logged.
  - (* app-event *)
    unfold registerAppEventTrigger.
    destruct (ae_events c) as [|eventName events] eqn:Hevents;
      [by apply (plain_apart_none _ _ _ []), plain_logged|].
    pose proof (listenApp_plain firedAt automation r0 (eventName :: events) r0 [] 0 H0)
      as Hloop.
    destruct (foldl _ _ _) as [[r1 handlers] k]. simpl in Hloop.
    destruct (negb (Nat.eqb (length handlers) 0)
              || includes "app-ready" (eventName :: events)).
    + by apply (plain_apart_set automation r0 _ handlers); [apply plain_logged|..].
    + by apply (plain_apart_none _ _ _ handlers).
  - (* power-event *)
    unfold registerPowerEventTrigger.
    destruct (pe_events c) as [|eventName events] eqn:Hevents;
      [by apply (plain_apart_none _ _ _ []), plain_logged|].
    pose proof (listenPower_plain automation r0 (eventName :: events) r0 [] H0) as Hloop.
    destruct (foldl _ _ _) as [r1 handlers]. simpl in Hloop.
    destruct handlers as [|x xs]; [by apply (plain_apart_none _ _ _ [])|].
    by apply (plain_apart_set automation r0 _ (x :: xs)); [apply plain_logged|..].
  - (* clipboard *)
    unfold registerClipboardTrigger.
    set (r1 := match truthy (cb_pattern c), compilePattern h (cb_pattern c) with
               | Some p, None => _
               | _, _ => r0
               end).
    assert (plain r0 r1 []) as H1.
    { subst r1. destruct (truthy (cb_pattern c)); [|done].
      destruct (compilePattern h (cb_pattern c)); [done|]. by apply plain_logged. }
    cbv zeta. rewrite subscribe_pair. cbv beta iota. by apply Hone.
  - (* folder-action *)
    unfold registerFolderActionTrigger.
    destruct (String.eqb (fa_folderPath c) "");
      [by apply (plain_apart_none _ _ _ []), plain_logged|].
    destruct (existsSync h (fa_folderPath c)); cbn [negb];
      [|by apply (plain_apart_none _ _ _ []), plain_logged].
    destruct (watch_ok h (fa_folderPath c));
      [|by apply (plain_apart_none _ _ _ []), plain_logged].
    rewrite subscribe_pair. cbv beta iota. apply Hone; try done.
    intros handle Hh. simpl in Hh. by apply list_elem_of_singleton in Hh.
  - (* manual *) by apply (plain_apart_none _ _ _ []).
Qed.

Lemma exclusive_new : exclusive newRegistry.
Proof. by split_and!. Qed.

Lemma exclusive_unregister automationId r :
  consistent r → exclusive r → exclusive (unregister automationId r).
Proof.
  intros (Hwf & Hb & Hrel) (E1 & E2 & E3).
  assert (∀ other t, JsMap.get other (triggers (unregister automationId r)) = Some t →
            other ≠ automationId ∧ JsMap.get other (triggers r) = Some t) as Hget.
  { intros other t. rewrite triggers_unregister. intros Ht.
    destruct (decide (automationId = other)) as [<-|Hne].
    - by rewrite jsmap_get_delete_eq in Ht.
    - rewrite jsmap_get_delete_ne in Ht by done. by split. }
  split_and!.
  - intros other t handle l [_ Ht]%Hget Hl%listeners_unregister_Some. by apply E1.
  - intros other t handle [_ Ht]%Hget. rewrite nextHandle_unregister. by apply (E2 other).
  - intros other t accelerator [Hne Ht]%Hget Hstop.
    destruct (proj1 (shortcutTaken_spec _ _) (E3 _ _ _ Ht Hstop)) as (handle & l & Hl & Hs).
    apply shortcutTaken_spec. exists handle, l. split; [|done].
    unfold unregister. destruct (JsMap.get automationId (triggers r)) as [t0|] eqn:Ht0;
      [|done].
    simpl. apply runStop_lookup_kept; [done|]. intros Hrel0.
    apply Hne. rewrite <- (E1 _ _ _ _ Ht0 Hl Hrel0).
    symmetry. apply (E1 _ _ _ _ Ht Hl). by rewrite Hstop.
Qed.

Lemma exclusive_dispatched automation r0 r :
  consistent r0 → exclusive r0 →
  dispatched automation r0 r → apart automation r0 r →
  exclusive r.
Proof.
  intros (Hwf & Hb & Hrel) (E1 & E2 & E3) (Hle & Hold & Hnew & Hcases) (Hfree & Happart).
  assert (∀ handle l, listeners r !! handle = Some l → handle < nextHandle r0 →
            listeners r0 !! handle = Some l) as Hold'.
  { intros handle l Hl Hlt. by rewrite <- Hold. }
  assert (∀ other t handle l,
            JsMap.get other (triggers r0) = Some t → listeners r !! handle = Some l →
            releases (rt_stop t) handle l → handle < nextHandle r0) as Hlow.
  { intros other t handle l Ht Hl Hr.
    destruct (decide (handle < nextHandle r0)) as [|Hge]; [done|]. exfalso.
    destruct (releases_holds _ _ _ Hr) as [Hh|(accelerator & Hstop & Hs)].
    - apply Hge. by apply (E2 other t).
    - pose proof (E3 _ _ _ Ht Hstop) as Htaken.
      assert (shortcutTaken accelerator r0 = false) as Hnot
        by (apply (Hfree handle l); [done|lia|done]).
      congruence. }
  assert (∀ other t accelerator,
            JsMap.get other (triggers r0) = Some t → rt_stop t = StopShortcut accelerator →
            shortcutTaken accelerator r = true) as Hkeep.
  { intros other t accelerator Ht Hstop.
    destruct (proj1 (shortcutTaken_spec _ _) (E3 _ _ _ Ht Hstop)) as (handle & l & Hl & Hs).
    apply shortcutTaken_spec. exists handle, l. split; [|done].
    rewrite Hold; [done|]. by apply (Hb handle l). }
  destruct Happart as [Hsame|(t' & Hset & Hholds & Hshort)].
  - split_and!.
    + intros other t handle l Ht Hl Hr. rewrite Hsame in Ht.
      pose proof (Hlow _ _ _ _ Ht Hl Hr) as Hlt. apply (E1 other t handle l); [done|by apply Hold'|done].
    + intros other t handle Ht Hh. rewrite Hsame in Ht.
      pose proof (E2 _ _ _ Ht Hh). lia.
    + intros other t accelerator Ht Hstop. rewrite Hsame in Ht. by apply (Hkeep other t).
  - assert (∀ other t, JsMap.get other (triggers r) = Some t →
              (other = a_id automation ∧ t = t')
              ∨ (other ≠ a_id automation ∧ JsMap.get other (triggers r0) = Some t)) as Hget.
    { intros other t. rewrite Hset. destruct (decide (a_id automation = other)) as [<-|Hne].
      - rewrite jsmap_get_set_eq. intros [= <-]. by left.
      - rewrite jsmap_get_set_ne by done. intros Ht. by right. }
    split_and!.
    + intros other t handle l [[-> ->]|[Hne Ht]]%Hget Hl Hr.
      * destruct (decide (handle < nextHandle r0)) as [Hlt|Hge].
        -- exfalso. destruct (releases_holds _ _ _ Hr) as [Hh|(accelerator & Hstop & Hs)].
           ++ destruct (Hholds _ Hh). lia.
           ++ destruct (Hshort _ Hstop) as [Hnot _].
              rewrite (shortcutTaken_false _ _ _ _ Hnot (Hold' _ _ Hl Hlt)) in Hs. done.
        -- destruct (Hnew handle l Hl) as [-> _]; [lia|done].
      * pose proof (Hlow _ _ _ _ Ht Hl Hr) as Hlt. apply (E1 other t handle l); [done|by apply Hold'|done].
    + intros other t handle [[-> ->]|[Hne Ht]]%Hget Hh.
      * by destruct (Hholds _ Hh).
      * pose proof (E2 _ _ _ Ht Hh). lia.
    + intros other t accelerator [[-> ->]|[Hne Ht]]%Hget Hstop.
      * by destruct (Hshort _ Hstop).
      * by apply (Hkeep other t).
Qed.

Lemma exclusive_register h firedAt automation r :
  consistent r → exclusive r → exclusive (register h firedAt automation r).
Proof.
  intros Hcons Hex. unfold register.
  pose proof (consistent_unregister (a_id automation) r Hcons) as Hcons'.
  apply (exclusive_dispatched automation (unregister (a_id automation) r)).
  - done.
  - by apply exclusive_unregister.
  - apply dispatch_dispatched. by apply consistent_bounded.
  - apply dispatch_apart. by apply consistent_bounded.
Qed.

Lemma exclusive_unregisterAll r : exclusive (unregisterAll r).
Proof. by split_and!. Qed.

Lemma hostSignal_listeners_kept h handle s firedAt r handle' l :
  listeners r !! handle' = Some l →
  ∃ l', listeners (hostSignal h handle s firedAt r) !! handle' = Some l'
        ∧ hl_automation l' = hl_automation l
        ∧ (∀ accelerator, isShortcut accelerator l' = isShortcut accelerator l).
Proof.
  intros Hl'. unfold hostSignal.
  destruct (listeners r !! handle) as [l0|] eqn:Hl0; [|by eauto].
  destruct (hl_sub l0) eqn:Hsub, s; try by eauto.
  assert (∃ l', (<[handle := {| hl_automation := hl_automation l0; hl_type := hl_type l0;
                                hl_sub := ClipboardInterval pollInterval
                                  (clipboardPoll h (hl_automation l0) lastContent regex
                                     currentContent firedAt).1 regex |}]> (listeners r))
                !! handle' = Some l'
                ∧ hl_automation l' = hl_automation l
                ∧ (∀ accelerator, isShortcut accelerator l' = isShortcut accelerator l))
    as Hins.
  { destruct (decide (handle = handle')) as [<-|Hne].
    - rewrite lookup_insert_eq. eexists. split; [done|].
      assert (l0 = l) as <- by congruence. split; [done|].
      intros accelerator. unfold isShortcut. simpl. by rewrite Hsub.
    - rewrite lookup_insert_ne by done. eauto. }
  by destruct (clipboardPoll _ _ _ _ _ _) as [last' [x|]] eqn:Hpoll; simpl in *.
Qed.

Lemma exclusive_hostSignal h handle s firedAt r :
  exclusive r → exclusive (hostSignal h handle s firedAt r).
Proof.
  intros (E1 & E2 & E3).
  destruct (hostSignal_triggers h handle s firedAt r) as [Ht Hn].
  split_and!.
  - intros other t handle' l'. rewrite Ht. intros Hget Hl' Hr.
    destruct (hostSignal_listeners _ _ _ _ _ _ _ Hl') as (l & Hl & Hauto & Hshort).
    rewrite Hauto. apply (E1 other t handle'); [done..|].
    destruct (rt_stop t); simpl in *; try done. by rewrite <- Hshort.
  - intros other t handle'. rewrite Ht, Hn. by apply E2.
  - intros other t accelerator. rewrite Ht. intros Hget Hstop.
    destruct (proj1 (shortcutTaken_spec _ _) (E3 _ _ _ Hget Hstop)) as (handle' & l & Hl & Hs).
    destruct (hostSignal_listeners_kept h handle s firedAt r handle' l Hl)
      as (l' & Hl' & _ & Hshort).
    apply shortcutTaken_spec. exists handle', l'. split; [done|]. by rewrite Hshort.
Qed.

Lemma reachable_exclusive r : reachable r → exclusive r.
Proof.
  induction 1 as [|h firedAt automation r Hr IH|automationId r Hr IH|r Hr IH
                  |h handle s firedAt r Hr IH].
  - apply exclusive_new.
  - apply exclusive_register; [by apply reachable_consistent | done].
  - apply exclusive_unregister; [by apply reachable_consistent | done].
  - apply exclusive_unregisterAll.
  - by apply exclusive_hostSignal.
Qed.

Lemma unregister_others automationId r handle l :
  consistent r → exclusive r →
  a_id (hl_automation l) ≠ automationId →
  listeners (unregister automationId r) !! handle = Some l
  ↔ listeners r !! handle = Some l.
Proof.
  intros Hcons (E1 & _) Hne. split; [apply listeners_unregister_Some|].
  intros Hl. unfold unregister.
  destruct (JsMap.get automationId (triggers r)) as [t|] eqn:Ht; [|done].
  simpl. apply runStop_lookup_kept; [done|]. intros Hr.
  by apply Hne, (E1 _ _ _ _ Ht Hl Hr).
Qed.

(** X26. The triggers of different automations are kept apart.  In every
    registry the registry's operations and the host's callbacks lead to,
    unregistering an automation, or registering one anew (which stops what
    it had before), leaves every other automation as it was: the entry of
    the table under the other's id is the same, and the host holds the same
    live callbacks for the other, under the same handles.  In particular
    stopping a hotkey trigger never releases the shortcut of another
    automation. *)
Theorem triggers_are_kept_apart h firedAt automation r other :
  reachable r → a_id automation ≠ other →
  let r1 := unregister (a_id automation) r in
  let r2 := register h firedAt automation r in
  (JsMap.get other (triggers r1) = JsMap.get other (triggers r)
   ∧ JsMap.get other (triggers r2) = JsMap.get other (triggers r))
  ∧ (∀ handle l, a_id (hl_automation l) = other →
       (listeners r1 !! handle = Some l ↔ listeners r !! handle = Some l)
       ∧ (listeners r2 !! handle = Some l ↔ listeners r !! handle = Some l)).
Proof.
  intros Hr Hne r1 r2.
  pose proof (reachable_consistent r Hr) as Hcons.
  pose proof (reachable_exclusive r Hr) as Hex.
  pose proof (consistent_unregister (a_id automation) r Hcons) as Hcons1.
  pose proof (dispatch_dispatched h firedAt automation r1 (consistent_bounded _ Hcons1))
    as (Hle & Hold & Hnew & Hcases).
  change (dispatch h firedAt automation r1) with r2 in Hle, Hold, Hnew, Hcases.
  assert (JsMap.get other (triggers r1) = JsMap.get other (triggers r)) as Ht1.
  { subst r1. rewrite triggers_unregister. by apply jsmap_get_delete_ne. }
  split; [split; [done|]|].
  - destruct Hcases as [[-> _]|(t & _ & -> & _)]; [done|].
    by rewrite jsmap_get_set_ne.
  - intros handle l Hid.
    assert (listeners r1 !! handle = Some l ↔ listeners r !! handle = Some l) as H1.
    { apply unregister_others; [done..|congruence]. }
    split; [done|]. rewrite <- H1. split.
    + intros Hl. destruct (decide (handle < nextHandle r1)) as [Hlt|Hge].
      * by rewrite <- Hold.
      * destruct (Hnew handle l Hl) as [Hauto _]; [lia|]. by rewrite Hauto in Hid.
    + intros Hl. rewrite Hold; [done|]. destruct Hcons1 as (_ & Hb & _). by apply (Hb handle l).
Qed.

(** ** The added properties on the sample data *)

Lemma deleteAutomation_removes_history_witness :
  runFilesNamed historyStorage
  ∧ findAutomation "auto-1" (loadAutomations "/work/main" historyStorage)
    = Some (0, demoAutomation)
  ∧ getRun "/work/main" "run-a" historyStorage = Some (runOf "run-a" "auto-1")
  ∧ (deleteAutomation demoHistory "/work/main" "auto-1" historyStorage).1 = true
  ∧ getRun "/work/main" "run-a"
      (deleteAutomation demoHistory "/work/main" "auto-1" historyStorage).2 = None
  ∧ getRun "/work/main" "run-b"
      (deleteAutomation demoHistory "/work/main" "auto-1" historyStorage).2
    = Some (runOf "run-b" "auto-2").
Proof.
  assert (Hnamed : runFilesNamed historyStorage).
  { apply runFilesNamed_check. vm_compute. reflexivity. }
  assert (Hfind : findAutomation "auto-1" (loadAutomations "/work/main" historyStorage)
                  = Some (0, demoAutomation)) by (vm_compute; reflexivity).
  assert (Ha : getRun "/work/main" "run-a" historyStorage = Some (runOf "run-a" "auto-1"))
    by (vm_compute; reflexivity).
  assert (Hb : getRun "/work/main" "run-b" historyStorage = Some (runOf "run-b" "auto-2"))
    by (vm_compute; reflexivity).
  destruct (deleteAutomation_removes_history demoHistory "/work/main" "auto-1"
              historyStorage Hnamed) as [_ Hdelete].
  destruct (Hdelete 0 demoAutomation Hfind) as (Htrue & _ & _ & _ & _ & Hruns & _).
  split; [exact Hnamed|]. split; [exact Hfind|]. split; [exact Ha|].
  split; [exact Htrue|]. split.
  - exact (Hruns "run-a" _ Ha).
  - exact (Hruns "run-b" _ Hb).
Defined.

Lemma run_lifecycle_witness :
  getWorkspaceByNameOrId demoHost "ws-1" = Some demoWorkspace
  ∧ getAutomation "/work/main" "auto-1" (storage demoWorld) = Some demoAutomation
  ∧ (JsMap.size (activeRuns demoWorld) < maxConcurrentRuns)%nat
  ∧ tablesOk demoWorld
  ∧ listening demoWorld = true
  ∧ activeRuns
      (sessionEmits demoHost (completeEvent "sess-1")
         (executeAutomation_fulfilled demoHost "ws-1" "auto-1" manual None "sess-1"
            demoWorld).1)
    = activeRuns demoWorld
  ∧ ∃ automation',
      getAutomation "/work/main" "auto-1"
        (storage (sessionEmits demoHost (completeEvent "sess-1")
                    (executeAutomation_fulfilled demoHost "ws-1" "auto-1" manual None
                       "sess-1" demoWorld).1))
      = Some automation'
      ∧ a_runCount automation' = (a_runCount demoAutomation + 1)%Z
      ∧ a_lastStatus automation' = Some last_success.
Proof.
  assert (Hws : getWorkspaceByNameOrId demoHost "ws-1" = Some demoWorkspace)
    by reflexivity.
  assert (Hauto : getAutomation (ws_rootPath demoWorkspace) "auto-1" (storage demoWorld)
                  = Some demoAutomation) by (vm_compute; reflexivity).
  assert (Hroom : (JsMap.size (activeRuns demoWorld) < maxConcurrentRuns)%nat)
    by (vm_compute; lia).
  assert (Hok : tablesOk demoWorld).
  { split; [apply NoDup_nil_2|]. split; [apply NoDup_nil_2|].
    apply runFilesNamed_check. vm_compute. reflexivity. }
  assert (Hon : listening demoWorld = true) by reflexivity.
  assert (Hrun : generateId demoHost (idsGenerated demoWorld) ≠ "")
    by (vm_compute; discriminate).
  assert (Hsession : "sess-1" ≠ "") by discriminate.
  assert (Hfresh : JsMap.get (generateId demoHost (idsGenerated demoWorld))
                     (activeRuns demoWorld) = None) by reflexivity.
  assert (Hsfresh : JsMap.get "sess-1" (sessionToRun demoWorld) = None) by reflexivity.
  destruct (run_lifecycle demoHost "ws-1" "auto-1" manual None "sess-1" demoWorld
              demoWorkspace demoAutomation Hws Hauto Hroom Hok Hon Hrun Hsession
              Hfresh Hsfresh)
    as (_ & _ & _ & _ & _ & Hactive & _ & _ & _ & Hcount & _).
  split; [exact Hws|]. split; [exact Hauto|]. split; [exact Hroom|].
  split; [exact Hok|]. split; [exact Hon|]. split; [exact Hactive|exact Hcount].
Defined.

Lemma unregisterAll_silences_witness :
  reachable hotkeyRegistry
  ∧ is_Some (listeners hotkeyRegistry !! 0)
  ∧ listeners (unregisterAll hotkeyRegistry) = ∅
  ∧ getActiveTriggerCount (unregisterAll hotkeyRegistry) = 0.
Proof.
  assert (Hreach : reachable hotkeyRegistry) by (apply reach_register, reach_new).
  assert (Hlive : is_Some (listeners hotkeyRegistry !! 0)) by (vm_compute; eauto).
  destruct (unregisterAll_silences hotkeyRegistry Hreach) as (Hcount & _ & Hnone & _).
  split; [exact Hreach|]. split; [exact Hlive|]. split; [exact Hnone|exact Hcount].
Defined.


Lemma fire_becomes_pending_run_witness :
  listeners hotkeyRegistry !! 0
  = Some {| hl_automation := onHotkey; hl_type := hotkey;
            hl_sub := GlobalShortcut "CommandOrControl+Shift+D" |}
  ∧ getAutomation "/work/main" "auto-1" (storage demoWorld) = Some demoAutomation
  ∧ ∃ x f,
      fired (hostSignal demoTriggerHost 0 ShortcutPressed "T+5" hotkeyRegistry)
      = fired hotkeyRegistry ++ [x]
      ∧ fire_triggeredBy x = hotkey
      ∧ (triggered demoHost x demoWorld).2 = AwaitCreateSession f
      ∧ f_automation f = demoAutomation
      ∧ r_triggeredBy (f_run f) = hotkey.
Proof.
  assert (Hl : listeners hotkeyRegistry !! 0
               = Some {| hl_automation := onHotkey; hl_type := hotkey;
                         hl_sub := GlobalShortcut "CommandOrControl+Shift+D" |})
    by (vm_compute; reflexivity).
  assert (Hauto : getAutomation (ws_rootPath demoWorkspace) (a_id onHotkey)
                    (storage demoWorld) = Some demoAutomation)
    by (vm_compute; reflexivity).
  assert (Hroom : (JsMap.size (activeRuns demoWorld) < maxConcurrentRuns)%nat)
    by (vm_compute; lia).
  destruct (fire_becomes_pending_run demoHost demoTriggerHost 0 ShortcutPressed "T+5"
              hotkeyRegistry _ demoWorld demoWorkspace demoAutomation Hl eq_refl eq_refl
              Hauto Hroom)
    as (x & f & Hfired & _ & _ & Hkind & _ & Hout & Hstored & _ & _ & _ & Hby & _).
  split; [exact Hl|]. split; [exact Hauto|].
  exists x, f. split; [exact Hfired|]. split; [exact Hkind|].
  split; [exact Hout|]. split; [exact Hstored|exact Hby].
Defined.

Lemma limit_holds_without_overlap_witness :
  (getActiveRunCount demoWorld ≤ maxConcurrentRuns)%nat
  ∧ (getActiveRunCount
       (foldl (serialStep demoHost) demoWorld
          [Start "ws-1" "auto-1" manual None "sess-1";
           Start "ws-1" "auto-1" manual None "sess-2";
           Start "ws-1" "auto-1" manual None "sess-3"])
     ≤ maxConcurrentRuns)%nat.
Proof.
  assert (Hroom : (getActiveRunCount demoWorld ≤ maxConcurrentRuns)%nat)
    by (vm_compute; lia).
  split; [exact Hroom|].
  exact (limit_holds_without_overlap demoHost _ demoWorld Hroom).
Defined.

Lemma triggers_are_kept_apart_witness :
  reachable hotkeyRegistry
  ∧ a_id secondOnHotkey ≠ "auto-1"
  ∧ listeners (register demoTriggerHost demoClock secondOnHotkey hotkeyRegistry) !! 0
    = Some {| hl_automation := onHotkey; hl_type := hotkey;
              hl_sub := GlobalShortcut "CommandOrControl+Shift+D" |}
  ∧ listeners (unregister (a_id secondOnHotkey) hotkeyRegistry) !! 0
    = Some {| hl_automation := onHotkey; hl_type := hotkey;
              hl_sub := GlobalShortcut "CommandOrControl+Shift+D" |}.
Proof.
  assert (Hreach : reachable hotkeyRegistry) by (apply reach_register, reach_new).
  assert (Hne : a_id secondOnHotkey ≠ "auto-1") by (vm_compute; discriminate).
  assert (Hl : listeners hotkeyRegistry !! 0
               = Some {| hl_automation := onHotkey; hl_type := hotkey;
                         hl_sub := GlobalShortcut "CommandOrControl+Shift+D" |})
    by (vm_compute; reflexivity).
  pose proof (triggers_are_kept_apart demoTriggerHost demoClock secondOnHotkey
                hotkeyRegistry "auto-1" Hreach Hne) as Hapart.
  cbv zeta in Hapart. destruct Hapart as [_ Hsame].
  destruct (Hsame 0 {| hl_automation := onHotkey; hl_type := hotkey;
                        hl_sub := GlobalShortcut "CommandOrControl+Shift+D" |} eq_refl)
    as [H1 H2].
  split; [exact Hreach|]. split; [exact Hne|].
  split; [exact (proj2 H2 Hl)|exact (proj2 H1 Hl)].
Defined.
